(** * AutoLabel Pro: the interactive annotation engine

    A shallow embedding of the annotation engine of the repository
    (the React component [AutoLabelProV7] and the two detector classes
    [YOLODetector] and [GroundingDINODetector]) together with the
    properties its specification states about it.

    Conventions of the embedding.
    - A JavaScript number is an exact rational ([Q]); comparisons are the
      rational ones and equality of computed numbers is [Qeq].  NaN and
      the infinities are outside the model.  The program computes in
      IEEE 754 doubles; a theorem that reads the formulas over exact
      arithmetic says so, and the module [F64] has the coordinate
      transform in doubles, to show where the two differ.
    - A React state cell is a field of the record [App.t].  An event
      handler reads the cells of the render it was created in and queues
      writes; it is a function from the state of that render to the state
      of the next one.
    - [JSON.parse (JSON.stringify v)] is the identity on the data model,
      so a history entry is the region mapping itself.
    - [Date.now ()] and the pointer position (already mapped to canvas
      coordinates by [getCanvasCoords]) are inputs of the handlers.
    - A JavaScript object used as a dictionary is a [gmap]. *)

From Stdlib Require Import QArith Qminmax Qabs Qround Lqa ZArith Ascii String
  Sorted.
From Stdlib Require Floats.
From stdpp Require Import gmap strings list pretty.

Local Open Scope Q_scope.

(** ** Numbers *)

(** [a < b] on numbers, as a boolean. *)
Definition Qltb (a b : Q) : bool := negb (Qle_bool b a).

(** JavaScript truthiness of a number: [0] is falsy. *)
Definition truthy (a : Q) : bool := negb (Qeq_bool a 0).

(** [a || b] on numbers. *)
Definition num_or (a b : Q) : Q := if truthy a then a else b.

(** [o || b] where [o] may be [undefined]. *)
Definition opt_num_or (o : option Q) (b : Q) : Q :=
  match o with
  | Some a => num_or a b
  | None => b
  end.

(** [o || b] on strings where [o] may be [undefined]; the empty string is
    falsy. *)
Definition opt_str_or (o : option string) (b : string) : string :=
  match o with
  | Some s => if String.eqb s "" then b else s
  | None => b
  end.

(** [const clamp = (value, min, max) => Math.max(min, Math.min(max, value))] *)
Definition clamp (value min max : Q) : Q := Qmax min (Qmin max value).

(** ** Data model *)

Inductive Status := Auto | Approved | Flagged | Manual.

Module Region.
Record t := mk {
  id : Z;
  label : string;
  confidence : Q;
  status : Status;
  x : Q;
  y : Q;
  w : Q;
  h : Q
}.
End Region.

Module Image.
Record t := mk {
  id : string;
  name : string;
  width : Q;
  height : Q
}.
End Image.

Module Point.
Record t := mk { x : Q; y : Q }.
End Point.

Module Box.
Record t := mk { x : Q; y : Q; w : Q; h : Q }.
End Box.

(** The region mapping: image identifier to ordered list of regions. *)
Abbreviation Regions := (gmap string (list Region.t)).

(** ** Coordinate transform *)

Definition CANVAS_WIDTH : Q := 800.
Definition CANVAS_HEIGHT : Q := 500.

Module Transform.
Record t := mk { scale : Q; offsetX : Q; offsetY : Q }.
End Transform.

Definition getImageTransform (imageWidth imageHeight : Q) : Transform.t :=
  if negb (truthy imageWidth) || negb (truthy imageHeight)
  then Transform.mk 1 0 0
  else
    let imageAspect := imageWidth / imageHeight in
    let canvasAspect := CANVAS_WIDTH / CANVAS_HEIGHT in
    if Qltb canvasAspect imageAspect
    then Transform.mk (CANVAS_WIDTH / imageWidth) 0
                      ((CANVAS_HEIGHT - CANVAS_WIDTH / imageAspect) / 2)
    else Transform.mk (CANVAS_HEIGHT / imageHeight)
                      ((CANVAS_WIDTH - CANVAS_HEIGHT * imageAspect) / 2) 0.

Definition getScaledBoundingBox (region : Region.t) (imageWidth imageHeight : Q)
  : Box.t :=
  let t := getImageTransform imageWidth imageHeight in
  Box.mk (Region.x region * Transform.scale t + Transform.offsetX t)
         (Region.y region * Transform.scale t + Transform.offsetY t)
         (Region.w region * Transform.scale t)
         (Region.h region * Transform.scale t).

Definition canvasToImageCoords (canvasX canvasY imageWidth imageHeight : Q)
  : Point.t :=
  let t := getImageTransform imageWidth imageHeight in
  Point.mk ((canvasX - Transform.offsetX t) / Transform.scale t)
           ((canvasY - Transform.offsetY t) / Transform.scale t).

(** ** The coordinate transform in doubles *)

(** The three functions above as the program evaluates them, in IEEE 754
    binary64. *)
Module F64.
Import PrimFloat.
Local Open Scope float_scope.

Module Transform.
Record t := mk { scale : float; offsetX : float; offsetY : float }.
End Transform.

Module Box.
Record t := mk { x : float; y : float; w : float; h : float }.
End Box.

Module Point.
Record t := mk { x : float; y : float }.
End Point.

Definition CANVAS_WIDTH : float := 800.
Definition CANVAS_HEIGHT : float := 500.

(** [!a]: zero and NaN are falsy. *)
Definition falsy (a : float) : bool := (a =? 0) || is_nan a.

Definition getImageTransform (imageWidth imageHeight : float) : Transform.t :=
  if falsy imageWidth || falsy imageHeight
  then Transform.mk 1 0 0
  else
    let imageAspect := imageWidth / imageHeight in
    let canvasAspect := CANVAS_WIDTH / CANVAS_HEIGHT in
    if canvasAspect <? imageAspect
    then Transform.mk (CANVAS_WIDTH / imageWidth) 0
                      ((CANVAS_HEIGHT - CANVAS_WIDTH / imageAspect) / 2)
    else Transform.mk (CANVAS_HEIGHT / imageHeight)
                      ((CANVAS_WIDTH - CANVAS_HEIGHT * imageAspect) / 2) 0.

Definition getScaledBoundingBox (region : Box.t) (imageWidth imageHeight : float)
  : Box.t :=
  let t := getImageTransform imageWidth imageHeight in
  Box.mk (Box.x region * Transform.scale t + Transform.offsetX t)
         (Box.y region * Transform.scale t + Transform.offsetY t)
         (Box.w region * Transform.scale t)
         (Box.h region * Transform.scale t).

Definition canvasToImageCoords (canvasX canvasY imageWidth imageHeight : float)
  : Point.t :=
  let t := getImageTransform imageWidth imageHeight in
  Point.mk ((canvasX - Transform.offsetX t) / Transform.scale t)
           ((canvasY - Transform.offsetY t) / Transform.scale t).

(** The origin of the box (1, 1, 10, 10) mapped to the canvas of a 1000 by
    500 image and back. *)
Definition roundTripOrigin : Point.t :=
  let s := getScaledBoundingBox (Box.mk 1 1 10 10) 1000 500 in
  canvasToImageCoords (Box.x s) (Box.y s) 1000 500.

Definition one : float := 1.

(** 2 to the power -46, about 1.4e-14. *)
Definition tiny : float := 0x1p-46.
End F64.

(** ** Arrays *)

(** [l.slice(start, end)], with the negative-index rule of the language. *)
Definition js_slice {A} (l : list A) (start end_ : Z) : list A :=
  let len := Z.of_nat (length l) in
  let k := if (start <? 0)%Z then Z.max (len + start) 0 else Z.min start len in
  let f := if (end_ <? 0)%Z then Z.max (len + end_) 0 else Z.min end_ len in
  take (Z.to_nat (f - k)) (drop (Z.to_nat k) l).

(** [[...new Set(l)]]: the elements of [l] in order of first occurrence. *)
Definition js_set_list (l : list Z) : list Z :=
  foldl (fun acc v => if decide (v ∈ acc) then acc else acc ++ [v]) [] l.

(** [l.find(p)] *)
Definition js_find {A} (p : A -> bool) (l : list A) : option A :=
  head (filter (fun a => p a = true) l).

(** [l.sort(cmp)].  The sort of the language is stable: [a] is moved
    behind [b] only when [cmp(a, b) > 0].  Insertion from the right computes
    that order. *)
Fixpoint js_sort_insert {A} (cmp : A -> A -> Q) (a : A) (l : list A) : list A :=
  match l with
  | [] => [a]
  | b :: l' => if Qltb 0 (cmp a b) then b :: js_sort_insert cmp a l'
               else a :: b :: l'
  end.

Definition js_sort {A} (cmp : A -> A -> Q) (l : list A) : list A :=
  foldr (js_sort_insert cmp) [] l.

(** [s.includes(c)] for a one-character needle. *)
Fixpoint includes (s : string) (c : ascii) : bool :=
  match s with
  | EmptyString => false
  | String a s' => if Ascii.eqb a c then true else includes s' c
  end.

(** ** Application state *)

Inductive Mode := SelectMode | DrawMode | EditMode.

(** The eight resize handles, [pos] being the string the component stores. *)
Inductive Handle := Hnw | Hn | Hne | He | Hse | Hs | Hsw | Hw.

Definition pos (hd : Handle) : string :=
  match hd with
  | Hnw => "nw" | Hn => "n" | Hne => "ne" | He => "e"
  | Hse => "se" | Hs => "s" | Hsw => "sw" | Hw => "w"
  end.

(** The messages [showToast] is called with; the interpolated values are the
    arguments. *)
Inductive Toast :=
| ToastUndo
| ToastRedo
| ToastObjectsDetected (n : nat)
| ToastCompleted (totalDetected : nat) (numImages : nat)
| ToastDetectionFailed
| ToastApproved (n : nat)
| ToastFlagged (n : nat)
| ToastDeleted (n : nat)
| ToastChanged (n : nat) (newLabel : string)
| ToastCreated (label : string).

Module Draw.
Record t := mk {
  isDrawing : bool;
  drawStart : option Point.t;
  drawCurrent : option Point.t
}.
Definition idle : t := mk false None None.
End Draw.

Module Drag.
Record t := mk {
  isDragging : bool;
  dragRegionId : option Z;
  dragOffset : Point.t
}.
Definition idle : t := mk false None (Point.mk 0 0).
End Drag.

Module Resize.
Record t := mk {
  isResizing : bool;
  resizeRegionId : option Z;
  resizeHandle : option Handle;
  resizeStart : option Point.t
}.
Definition idle : t := mk false None None None.
End Resize.

Module Editor.
Record t := mk {
  showLabelEditor : bool;
  editingRegionId : option Z
}.
End Editor.

Module History.
Record t := mk {
  history : list Regions;
  historyIndex : Z
}.
Definition init : t := mk [] (-1).
End History.

(** The state cells of the component, grouped as the source groups them.
    Cells that only drive presentation (workflow step, filters, zoom,
    modals, busy flag) are left out. *)
Module App.
Record t := mk {
  selectedRegions : list Z;
  lastSelectedIndex : option Z;
  toast : option Toast;
  annotationMode : Mode;
  defaultLabel : string;
  draw : Draw.t;
  drag : Drag.t;
  resize : Resize.t;
  editor : Editor.t;
  hist : History.t;
  images : list Image.t;
  currentImageIndex : nat;
  regions : Regions
}.

Definition init : t :=
  mk [] None None SelectMode "object" Draw.idle Drag.idle Resize.idle
     (Editor.mk false None) History.init [] 0%nat ∅.

Definition setSelectedRegions v (s : t) : t :=
  mk v (lastSelectedIndex s) (toast s) (annotationMode s) (defaultLabel s)
     (draw s) (drag s) (resize s) (editor s) (hist s) (images s)
     (currentImageIndex s) (regions s).
Definition setLastSelectedIndex v (s : t) : t :=
  mk (selectedRegions s) v (toast s) (annotationMode s) (defaultLabel s)
     (draw s) (drag s) (resize s) (editor s) (hist s) (images s)
     (currentImageIndex s) (regions s).
Definition showToast v (s : t) : t :=
  mk (selectedRegions s) (lastSelectedIndex s) (Some v) (annotationMode s)
     (defaultLabel s) (draw s) (drag s) (resize s) (editor s) (hist s)
     (images s) (currentImageIndex s) (regions s).
Definition setDraw v (s : t) : t :=
  mk (selectedRegions s) (lastSelectedIndex s) (toast s) (annotationMode s)
     (defaultLabel s) v (drag s) (resize s) (editor s) (hist s) (images s)
     (currentImageIndex s) (regions s).
Definition setDrag v (s : t) : t :=
  mk (selectedRegions s) (lastSelectedIndex s) (toast s) (annotationMode s)
     (defaultLabel s) (draw s) v (resize s) (editor s) (hist s) (images s)
     (currentImageIndex s) (regions s).
Definition setResize v (s : t) : t :=
  mk (selectedRegions s) (lastSelectedIndex s) (toast s) (annotationMode s)
     (defaultLabel s) (draw s) (drag s) v (editor s) (hist s) (images s)
     (currentImageIndex s) (regions s).
Definition setEditor v (s : t) : t :=
  mk (selectedRegions s) (lastSelectedIndex s) (toast s) (annotationMode s)
     (defaultLabel s) (draw s) (drag s) (resize s) v (hist s) (images s)
     (currentImageIndex s) (regions s).
Definition setHist v (s : t) : t :=
  mk (selectedRegions s) (lastSelectedIndex s) (toast s) (annotationMode s)
     (defaultLabel s) (draw s) (drag s) (resize s) (editor s) v (images s)
     (currentImageIndex s) (regions s).
Definition setRegions v (s : t) : t :=
  mk (selectedRegions s) (lastSelectedIndex s) (toast s) (annotationMode s)
     (defaultLabel s) (draw s) (drag s) (resize s) (editor s) (hist s)
     (images s) (currentImageIndex s) v.
End App.

(** [const currentImage = images[currentImageIndex] || null] *)
Definition currentImage (s : App.t) : option Image.t :=
  App.images s !! App.currentImageIndex s.

(** [regions[id] || []] *)
Definition regionsOf (rs : Regions) (imageId : string) : list Region.t :=
  default [] (rs !! imageId).

(** [const currentRegions = currentImage ? regions[currentImage.id] || [] : []] *)
Definition currentRegions (s : App.t) : list Region.t :=
  match currentImage s with
  | Some img => regionsOf (App.regions s) (Image.id img)
  | None => []
  end.

(** [const allRegionIds = currentRegions.map(r => r.id)] *)
Definition allRegionIds (s : App.t) : list Z :=
  map Region.id (currentRegions s).

(** ** History manager *)

(** [saveToHistory]: the new value of the cells [history] and
    [historyIndex], computed from the values [hs] of the render. *)
Definition saveToHistory (hs : History.t) (newRegions : Regions) : History.t :=
  let newHistory :=
    js_slice (History.history hs) 0 (History.historyIndex hs + 1)
      ++ [newRegions] in
  let newHistory :=
    if (50 <? length newHistory)%nat then tail newHistory else newHistory in
  History.mk newHistory (Z.of_nat (length newHistory) - 1).

(** [handleUndo].  [JSON.parse] of a missing entry throws after the index
    was written. *)
Definition handleUndo (s : App.t) : App.t :=
  let hs := App.hist s in
  if (0 <? History.historyIndex hs)%Z then
    let s1 := App.setHist
                (History.mk (History.history hs) (History.historyIndex hs - 1)) s in
    match History.history hs !! Z.to_nat (History.historyIndex hs - 1) with
    | Some snap => App.showToast ToastUndo (App.setRegions snap s1)
    | None => s1
    end
  else s.

(** [handleRedo] *)
Definition handleRedo (s : App.t) : App.t :=
  let hs := App.hist s in
  if (History.historyIndex hs <? Z.of_nat (length (History.history hs)) - 1)%Z then
    let s1 := App.setHist
                (History.mk (History.history hs) (History.historyIndex hs + 1)) s in
    if (History.historyIndex hs + 1 <? 0)%Z then s1 else
    match History.history hs !! Z.to_nat (History.historyIndex hs + 1) with
    | Some snap => App.showToast ToastRedo (App.setRegions snap s1)
    | None => s1
    end
  else s.

(** The two writes a committing handler ends with,
    [setRegions(newRegions); saveToHistory(newRegions)]. *)
Definition commit (newRegions : Regions) (s : App.t) : App.t :=
  App.setHist (saveToHistory (App.hist s) newRegions)
    (App.setRegions newRegions s).

(** ** Batch detection orchestrator *)

(** An item of [result.detections] as the component reads it. *)
Module RawDet.
Record t := mk {
  label : option string;
  class : option string;
  confidence : option Q;
  score : option Q;
  bbox : option (list Q)
}.
End RawDet.

(** [det.bbox?.[i]] *)
Definition bboxAt (det : RawDet.t) (i : nat) : option Q :=
  RawDet.bbox det ≫= (fun b => b !! i).

(** The body of [(result.detections || []).map((det, idx) => ...)]; [idBase]
    is the part of the identifier that does not depend on [idx]. *)
Definition detToRegion (idBase : Z) (idx : nat) (det : RawDet.t) : Region.t :=
  Region.mk (idBase + Z.of_nat idx)
    (opt_str_or (RawDet.label det) (opt_str_or (RawDet.class det) "object"))
    (opt_num_or (RawDet.confidence det) (opt_num_or (RawDet.score det) 0))
    Auto
    (opt_num_or (bboxAt det 0) 0)
    (opt_num_or (bboxAt det 1) 0)
    (opt_num_or (bboxAt det 2) 100)
    (opt_num_or (bboxAt det 3) 100).

(** [executeDetect].  [response] is what [runDetection] resolves to
    ([None]: the request throws); [now] is [Date.now ()]. *)
Definition executeDetect (now : Z) (response : option (list RawDet.t))
    (s : App.t) : App.t :=
  match currentImage s, response with
  | Some img, Some dets =>
      let detections := imap (detToRegion now) dets in
      let newRegions := <[Image.id img := detections]> (App.regions s) in
      App.showToast (ToastObjectsDetected (length detections))
        (App.setHist (saveToHistory (App.hist s) newRegions)
           (App.setRegions newRegions s))
  | _, _ => App.showToast ToastDetectionFailed s
  end.

(** The loop state of [executeDetectAll]. *)
Module DetectAll.
Record t := mk {
  totalDetected : nat;
  processedCount : nat;
  allNewRegions : Regions
}.
End DetectAll.

(** One iteration of [for (const img of images)]: [runDetection k img] is
    the outcome of the [k]-th request and [clock k] the time it returns. *)
Definition detectAll_step (clock : nat -> Z)
    (runDetection : nat -> Image.t -> option (list RawDet.t))
    (acc : DetectAll.t) (img : Image.t) : DetectAll.t :=
  let processedCount := S (DetectAll.processedCount acc) in
  match runDetection processedCount img with
  | Some dets =>
      let detections :=
        imap (detToRegion (clock processedCount
                           + Z.of_nat processedCount * 10000)) dets in
      DetectAll.mk (DetectAll.totalDetected acc + length detections)%nat
        processedCount
        (<[Image.id img := detections]> (DetectAll.allNewRegions acc))
  | None =>
      DetectAll.mk (DetectAll.totalDetected acc) processedCount
        (DetectAll.allNewRegions acc)
  end.

(** [executeDetectAll] *)
Definition executeDetectAll (clock : nat -> Z)
    (runDetection : nat -> Image.t -> option (list RawDet.t))
    (s : App.t) : App.t :=
  let final := foldl (detectAll_step clock runDetection)
                 (DetectAll.mk 0 0 ∅) (App.images s) in
  let newRegions := DetectAll.allNewRegions final ∪ App.regions s in
  App.showToast
    (ToastCompleted (DetectAll.totalDetected final) (length (App.images s)))
    (App.setHist (saveToHistory (App.hist s) newRegions)
       (App.setRegions newRegions s)).

(** ** Detection with the clock read per detection *)

(** The map callbacks of [executeDetect] and [executeDetectAll] call
    [Date.now ()] once for every detection.  [clock idx] is the value the
    callback reads for the detection at [idx]; [offset] is
    [processedCount * 10000] in [executeDetectAll] and absent, here 0, in
    [executeDetect].  [detToRegion] above is the case of a clock that stands
    still while the response is mapped. *)
Definition detToRegionAt (clock : nat -> Z) (offset : Z) (idx : nat)
    (det : RawDet.t) : Region.t :=
  Region.mk (clock idx + Z.of_nat idx + offset)
    (opt_str_or (RawDet.label det) (opt_str_or (RawDet.class det) "object"))
    (opt_num_or (RawDet.confidence det) (opt_num_or (RawDet.score det) 0))
    Auto
    (opt_num_or (bboxAt det 0) 0)
    (opt_num_or (bboxAt det 1) 0)
    (opt_num_or (bboxAt det 2) 100)
    (opt_num_or (bboxAt det 3) 100).

(** [executeDetect], with [clock idx] the time read for the detection at
    [idx]. *)
Definition executeDetectTimed (clock : nat -> Z)
    (response : option (list RawDet.t)) (s : App.t) : App.t :=
  match currentImage s, response with
  | Some img, Some dets =>
      let detections := imap (detToRegionAt clock 0) dets in
      let newRegions := <[Image.id img := detections]> (App.regions s) in
      App.showToast (ToastObjectsDetected (length detections))
        (App.setHist (saveToHistory (App.hist s) newRegions)
           (App.setRegions newRegions s))
  | _, _ => App.showToast ToastDetectionFailed s
  end.

(** One iteration of the loop of [executeDetectAll], with [clock k idx] the
    time read for the detection at [idx] of the [k]-th response. *)
Definition detectAllTimed_step (clock : nat -> nat -> Z)
    (runDetection : nat -> Image.t -> option (list RawDet.t))
    (acc : DetectAll.t) (img : Image.t) : DetectAll.t :=
  let processedCount := S (DetectAll.processedCount acc) in
  match runDetection processedCount img with
  | Some dets =>
      let detections :=
        imap (detToRegionAt (clock processedCount)
                (Z.of_nat processedCount * 10000)) dets in
      DetectAll.mk (DetectAll.totalDetected acc + length detections)%nat
        processedCount
        (<[Image.id img := detections]> (DetectAll.allNewRegions acc))
  | None =>
      DetectAll.mk (DetectAll.totalDetected acc) processedCount
        (DetectAll.allNewRegions acc)
  end.

(** [executeDetectAll], with the clock read per detection. *)
Definition executeDetectAllTimed (clock : nat -> nat -> Z)
    (runDetection : nat -> Image.t -> option (list RawDet.t))
    (s : App.t) : App.t :=
  let final := foldl (detectAllTimed_step clock runDetection)
                 (DetectAll.mk 0 0 ∅) (App.images s) in
  let newRegions := DetectAll.allNewRegions final ∪ App.regions s in
  App.showToast
    (ToastCompleted (DetectAll.totalDetected final) (length (App.images s)))
    (App.setHist (saveToHistory (App.hist s) newRegions)
       (App.setRegions newRegions s)).

(** What the [k]-th request of an all-images run contributes when the clock
    is read per detection: the regions decoded from its response, or nothing
    when it throws. *)
Definition requestOutcomeTimed (clock : nat -> nat -> Z)
    (runDetection : nat -> Image.t -> option (list RawDet.t))
    (k : nat) (img : Image.t) : option (list Region.t) :=
  imap (detToRegionAt (clock k) (Z.of_nat k * 10000)) <$> runDetection k img.

(** A clock that never goes back during an all-images run: a later
    detection, of the same or of a later response, does not read an earlier
    time. *)
Definition clockAdvances (clock : nat -> nat -> Z) : Prop :=
  forall k1 i1 k2 i2,
    (k1 < k2)%nat \/ (k1 = k2 /\ (i1 <= i2)%nat) ->
    (clock k1 i1 <= clock k2 i2)%Z.

(** A clock that is set back by one millisecond after the first detection
    of a response. *)
Definition steppedBackClock (idx : nat) : Z :=
  match idx with
  | O => 1001
  | _ => 1000
  end.

(** ** Bulk operations *)

Definition withStatus (st : Status) (r : Region.t) : Region.t :=
  Region.mk (Region.id r) (Region.label r) (Region.confidence r) st
    (Region.x r) (Region.y r) (Region.w r) (Region.h r).

Definition withLabel (l : string) (r : Region.t) : Region.t :=
  Region.mk (Region.id r) l (Region.confidence r) (Region.status r)
    (Region.x r) (Region.y r) (Region.w r) (Region.h r).

Definition withBox (x y w h : Q) (r : Region.t) : Region.t :=
  Region.mk (Region.id r) (Region.label r) (Region.confidence r)
    (Region.status r) x y w h.

(** [selectedRegions.includes(r.id)] *)
Definition isSelected (sel : list Z) (r : Region.t) : bool :=
  bool_decide (Region.id r ∈ sel).

(** [updateRegions(fn)] *)
Definition updateRegions (fn : list Region.t -> list Region.t) (s : App.t)
  : App.t :=
  match currentImage s with
  | None => s
  | Some img =>
      let newRegions :=
        <[Image.id img := fn (regionsOf (App.regions s) (Image.id img))]>
          (App.regions s) in
      App.setHist (saveToHistory (App.hist s) newRegions)
        (App.setRegions newRegions s)
  end.

Definition handleApprove (s : App.t) : App.t :=
  let sel := App.selectedRegions s in
  if (0 <? length sel)%nat then
    App.setSelectedRegions []
      (App.showToast (ToastApproved (length sel))
         (updateRegions
            (map (fun r => if isSelected sel r then withStatus Approved r else r))
            s))
  else s.

Definition handleFlag (s : App.t) : App.t :=
  let sel := App.selectedRegions s in
  if (0 <? length sel)%nat then
    App.showToast (ToastFlagged (length sel))
      (updateRegions
         (map (fun r => if isSelected sel r then withStatus Flagged r else r))
         s)
  else s.

Definition handleDelete (s : App.t) : App.t :=
  let sel := App.selectedRegions s in
  if (0 <? length sel)%nat then
    App.setSelectedRegions []
      (App.showToast (ToastDeleted (length sel))
         (updateRegions (filter (fun r => isSelected sel r = false)) s))
  else s.

Definition handleBulkChangeLabel (newLabel : string) (s : App.t) : App.t :=
  let sel := App.selectedRegions s in
  if (0 <? length sel)%nat then
    App.setSelectedRegions []
      (App.showToast (ToastChanged (length sel) newLabel)
         (updateRegions
            (map (fun r => if isSelected sel r then withLabel newLabel r else r))
            s))
  else s.

(** ** Selection manager *)

Module Modifiers.
Record t := mk { shiftKey : bool; metaKey : bool; ctrlKey : bool }.
Definition plain : t := mk false false false.
Definition shift : t := mk true false false.
Definition ctrl : t := mk false false true.
End Modifiers.

(** [handleSelectRegion(id, e, globalIdx)].  Both callers pass the position
    of the region in [currentRegions] as [globalIdx], so it is a number. *)
Definition handleSelectRegion (id : Z) (e : Modifiers.t) (globalIdx : Z)
    (s : App.t) : App.t :=
  match App.annotationMode s with
  | DrawMode => s
  | _ =>
    match Modifiers.shiftKey e, App.lastSelectedIndex s with
    | true, Some lastIdx =>
        let start := Z.min lastIdx globalIdx in
        let end_ := Z.max lastIdx globalIdx in
        let rangeIds := js_slice (allRegionIds s) start (end_ + 1) in
        App.setSelectedRegions
          (js_set_list (App.selectedRegions s ++ rangeIds)) s
    | _, _ =>
        if Modifiers.metaKey e || Modifiers.ctrlKey e then
          let prev := App.selectedRegions s in
          App.setLastSelectedIndex (Some globalIdx)
            (App.setSelectedRegions
               (if bool_decide (id ∈ prev)
                then filter (fun v => v <> id) prev
                else prev ++ [id]) s)
        else
          App.setLastSelectedIndex (Some globalIdx)
            (App.setSelectedRegions [id] s)
    end
  end.

(** ** Interaction state machine *)

(** Truthiness of a cell holding a region identifier or [null]. *)
Definition idTruthy (o : option Z) : option Z :=
  match o with
  | Some i => if (i =? 0)%Z then None else Some i
  | None => None
  end.

Definition hasId (i : Z) (r : Region.t) : bool := (Region.id r =? i)%Z.

(** [handleCanvasMouseDown]; [c] is [getCanvasCoords(e)]. *)
Definition handleCanvasMouseDown (c : Point.t) (s : App.t) : App.t :=
  match currentImage s with
  | None => s
  | Some img =>
    match App.annotationMode s with
    | DrawMode =>
        App.setSelectedRegions []
          (App.setDraw (Draw.mk true (Some c) (Some c)) s)
    | _ =>
        let clickedRegion :=
          js_find (fun r =>
            let scaled :=
              getScaledBoundingBox r (Image.width img) (Image.height img) in
            Qle_bool (Box.x scaled) (Point.x c)
            && Qle_bool (Point.x c) (Box.x scaled + Box.w scaled)
            && Qle_bool (Box.y scaled) (Point.y c)
            && Qle_bool (Point.y c) (Box.y scaled + Box.h scaled))
            (currentRegions s) in
        match clickedRegion with
        | None => App.setSelectedRegions [] s
        | Some _ => s
        end
    end
  end.

(** The drag branch of [handleCanvasMouseMove]: the new box of a region. *)
Definition dragRegion (img : Image.t) (imageCoords : Point.t) (r : Region.t)
  : Region.t :=
  withBox
    (clamp (Point.x imageCoords) 0 (Image.width img - Region.w r))
    (clamp (Point.y imageCoords) 0 (Image.height img - Region.h r))
    (Region.w r) (Region.h r) r.

(** The resize branch of [handleCanvasMouseMove]: the box computed from
    [region], the handle and the pointer. *)
Definition resizeBox (img : Image.t) (hd : Handle) (resizeStart : Point.t)
    (imageCoords : Point.t) (region : Region.t) : Box.t :=
  let '(newX, newW) :=
    if includes (pos hd) "w" then
      let deltaX := Point.x imageCoords - Point.x resizeStart in
      let newX := clamp (Region.x region + deltaX) 0
                    (Region.x region + Region.w region - 20) in
      (newX, Region.w region - (newX - Region.x region))
    else (Region.x region, Region.w region) in
  let newW :=
    if includes (pos hd) "e"
    then clamp (Point.x imageCoords - Region.x region) 20
           (Image.width img - Region.x region)
    else newW in
  let '(newY, newH) :=
    if includes (pos hd) "n" then
      let deltaY := Point.y imageCoords - Point.y resizeStart in
      let newY := clamp (Region.y region + deltaY) 0
                    (Region.y region + Region.h region - 20) in
      (newY, Region.h region - (newY - Region.y region))
    else (Region.y region, Region.h region) in
  let newH :=
    if includes (pos hd) "s"
    then clamp (Point.y imageCoords - Region.y region) 20
           (Image.height img - Region.y region)
    else newH in
  Box.mk newX newY newW newH.

(** [handleCanvasMouseMove]; [c] is [getCanvasCoords(e)]. *)
Definition handleCanvasMouseMove (c : Point.t) (s : App.t) : App.t :=
  match currentImage s with
  | None => s
  | Some img =>
    let W := Image.width img in
    let H := Image.height img in
    if Draw.isDrawing (App.draw s) then
      App.setDraw
        (Draw.mk true (Draw.drawStart (App.draw s)) (Some c)) s
    else
      match Drag.isDragging (App.drag s),
            idTruthy (Drag.dragRegionId (App.drag s)) with
      | true, Some dragRegionId =>
          let off := Drag.dragOffset (App.drag s) in
          let imageCoords :=
            canvasToImageCoords (Point.x c - Point.x off)
              (Point.y c - Point.y off) W H in
          App.setRegions
            (<[Image.id img :=
                 map (fun r => if hasId dragRegionId r
                               then dragRegion img imageCoords r else r)
                   (regionsOf (App.regions s) (Image.id img))]>
               (App.regions s)) s
      | _, _ =>
          match Resize.isResizing (App.resize s),
                idTruthy (Resize.resizeRegionId (App.resize s)),
                Resize.resizeHandle (App.resize s),
                Resize.resizeStart (App.resize s) with
          | true, Some resizeRegionId, Some hd, Some resizeStart =>
              match js_find (hasId resizeRegionId) (currentRegions s) with
              | None => s
              | Some region =>
                  let imageCoords :=
                    canvasToImageCoords (Point.x c) (Point.y c) W H in
                  let b := resizeBox img hd resizeStart imageCoords region in
                  App.setResize
                    (Resize.mk true (Resize.resizeRegionId (App.resize s))
                       (Some hd) (Some imageCoords))
                    (App.setRegions
                       (<[Image.id img :=
                            map (fun r =>
                                   if hasId resizeRegionId r
                                   then withBox (Box.x b) (Box.y b) (Box.w b)
                                          (Box.h b) r
                                   else r)
                              (regionsOf (App.regions s) (Image.id img))]>
                          (App.regions s)) s)
              end
          | _, _, _, _ => s
          end
      end
  end.

(** The region a completed draw gesture creates from the two corners, if
    it passes the minimum-size rule; [now] is [Date.now ()]. *)
Definition drawnRegion (now : Z) (defaultLabel : string) (img : Image.t)
    (drawStart drawCurrent : Point.t) : option Region.t :=
  let W := Image.width img in
  let H := Image.height img in
  let startImg := canvasToImageCoords (Point.x drawStart) (Point.y drawStart) W H in
  let endImg := canvasToImageCoords (Point.x drawCurrent) (Point.y drawCurrent) W H in
  let x := Qmin (Point.x startImg) (Point.x endImg) in
  let y := Qmin (Point.y startImg) (Point.y endImg) in
  let w := Qabs (Point.x endImg - Point.x startImg) in
  let h := Qabs (Point.y endImg - Point.y startImg) in
  if Qltb 10 w && Qltb 10 h then
    Some (Region.mk now defaultLabel 1 Manual
            (clamp x 0 (W - w)) (clamp y 0 (H - h)) (Qmin w W) (Qmin h H))
  else None.

(** [handleCanvasMouseUp].  The three blocks read the cells of the same
    render; each queues its own writes. *)
Definition handleCanvasMouseUp (now : Z) (s : App.t) : App.t :=
  let s1 :=
    match Draw.isDrawing (App.draw s), Draw.drawStart (App.draw s),
          Draw.drawCurrent (App.draw s), currentImage s with
    | true, Some drawStart, Some drawCurrent, Some img =>
        let s' :=
          match drawnRegion now (App.defaultLabel s) img drawStart drawCurrent with
          | Some newRegion =>
              let newRegions :=
                <[Image.id img :=
                    regionsOf (App.regions s) (Image.id img) ++ [newRegion]]>
                  (App.regions s) in
              App.setEditor (Editor.mk true (Some (Region.id newRegion)))
                (App.showToast (ToastCreated (App.defaultLabel s))
                   (App.setSelectedRegions [Region.id newRegion]
                      (App.setHist (saveToHistory (App.hist s) newRegions)
                         (App.setRegions newRegions s))))
          | None => s
          end in
        App.setDraw Draw.idle s'
    | _, _, _, _ => s
    end in
  let s2 :=
    if Drag.isDragging (App.drag s)
    then App.setDrag Drag.idle
           (App.setHist (saveToHistory (App.hist s) (App.regions s)) s1)
    else s1 in
  if Resize.isResizing (App.resize s)
  then App.setResize Resize.idle
         (App.setHist (saveToHistory (App.hist s) (App.regions s)) s2)
  else s2.

(** The [Escape] branch of the key handler [onKey], for a key pressed
    outside a text field: it empties the selection and switches the three
    gesture flags off, and writes neither the region mapping nor the
    history.  The cells [activeFilter] and [contextMenu], which it also
    resets, are not part of the state. *)
Definition onKeyEscape (s : App.t) : App.t :=
  App.setResize
    (Resize.mk false (Resize.resizeRegionId (App.resize s))
       (Resize.resizeHandle (App.resize s)) (Resize.resizeStart (App.resize s)))
    (App.setDrag
       (Drag.mk false (Drag.dragRegionId (App.drag s))
          (Drag.dragOffset (App.drag s)))
       (App.setDraw
          (Draw.mk false (Draw.drawStart (App.draw s))
             (Draw.drawCurrent (App.draw s)))
          (App.setSelectedRegions [] s))).

(** [handleDragStart]; [c] is [getCanvasCoords(e)]. *)
Definition handleDragStart (regionId : Z) (c : Point.t) (s : App.t) : App.t :=
  match App.annotationMode s, currentImage s with
  | EditMode, Some img =>
      match js_find (hasId regionId) (currentRegions s) with
      | None => s
      | Some region =>
          let scaled :=
            getScaledBoundingBox region (Image.width img) (Image.height img) in
          App.setSelectedRegions [regionId]
            (App.setDrag
               (Drag.mk true (Some regionId)
                  (Point.mk (Point.x c - Box.x scaled) (Point.y c - Box.y scaled)))
               s)
      end
  | _, _ => s
  end.

(** [handleResizeStart]; [c] is [getCanvasCoords(e)]. *)
Definition handleResizeStart (regionId : Z) (hd : Handle) (c : Point.t)
    (s : App.t) : App.t :=
  match currentImage s with
  | None => s
  | Some img =>
      let imageCoords :=
        canvasToImageCoords (Point.x c) (Point.y c)
          (Image.width img) (Image.height img) in
      App.setSelectedRegions [regionId]
        (App.setResize
           (Resize.mk true (Some regionId) (Some hd) (Some imageCoords)) s)
  end.

(** The state after the pointer moved through [moves]. *)
Definition afterMoves (moves : list Point.t) (s : App.t) : App.t :=
  foldl (fun st c => handleCanvasMouseMove c st) s moves.

(** ** Detection result normalizer: [YOLODetector] *)

Module Detection.
Record t := mk {
  x : Q;
  y : Q;
  width : Q;
  height : Q;
  confidence : Q;
  classId : nat
}.
End Detection.

Definition calculateIoU (box1 box2 : Detection.t) : Q :=
  let x1 := Qmax (Detection.x box1) (Detection.x box2) in
  let y1 := Qmax (Detection.y box1) (Detection.y box2) in
  let x2 := Qmin (Detection.x box1 + Detection.width box1)
                 (Detection.x box2 + Detection.width box2) in
  let y2 := Qmin (Detection.y box1 + Detection.height box1)
                 (Detection.y box2 + Detection.height box2) in
  let intersection := Qmax 0 (x2 - x1) * Qmax 0 (y2 - y1) in
  let area1 := Detection.width box1 * Detection.height box1 in
  let area2 := Detection.width box2 * Detection.height box2 in
  let union := area1 + area2 - intersection in
  if Qltb 0 union then intersection / union else 0.

(** The comparator of [detections.sort((a, b) => b.confidence - a.confidence)]. *)
Definition byConfidenceDesc (a b : Detection.t) : Q :=
  Detection.confidence b - Detection.confidence a.

(** The body of the inner loop of [nms], for one [j]. *)
Definition nms_inner (detections : list Detection.t) (iouThreshold : Q)
    (i : nat) (suppressed : gset nat) (j : nat) : gset nat :=
  if decide (j ∈ suppressed) then suppressed else
  match detections !! i, detections !! j with
  | Some di, Some dj =>
      if decide (Detection.classId di = Detection.classId dj) then
        if Qltb iouThreshold (calculateIoU di dj)
        then {[ j ]} ∪ suppressed
        else suppressed
      else suppressed
  | _, _ => suppressed
  end.

(** The body of the outer loop of [nms], for one [i]; the state is the pair
    of [kept] and [suppressed]. *)
Definition nms_outer (detections : list Detection.t) (iouThreshold : Q)
    (st : list Detection.t * gset nat) (i : nat)
  : list Detection.t * gset nat :=
  if decide (i ∈ st.2) then st else
  match detections !! i with
  | Some di =>
      (st.1 ++ [di],
       foldl (nms_inner detections iouThreshold i) st.2
         (seq (S i) (length detections - S i)))
  | None => st
  end.

(** The two loops of [nms] over an already sorted array. *)
Definition nms_loop (detections : list Detection.t) (iouThreshold : Q)
  : list Detection.t * gset nat :=
  foldl (nms_outer detections iouThreshold) ([], ∅)
    (seq 0 (length detections)).

(** [nms(detections, iouThreshold)] *)
Definition nms (detections : list Detection.t) (iouThreshold : Q)
  : list Detection.t :=
  (nms_loop (js_sort byConfidenceDesc detections) iouThreshold).1.

(** ** Detection result normalizer: [GroundingDINODetector] *)

(** The [box] field: an array [[x1, y1, x2, y2]] or an object with
    [x], [y], [width], [height]. *)
Inductive BoxField :=
| BoxArray (x1 y1 x2 y2 : Q)
| BoxObject (x y width height : Q).

(** A detection item of the remote response.  Arrays of box values hold four
    numbers, as the service contract says. *)
Module Item.
Record t := mk {
  bbox : option (Q * Q * Q * Q);
  box : option BoxField;
  x : option Q;
  y : option Q;
  width : option Q;
  w : option Q;
  height : option Q;
  h : option Q;
  label : option string;
  class : option string;
  className : option string;
  confidence : option Q;
  score : option Q
}.
End Item.

Inductive ApiResponse :=
| ResponseObject (detections predictions : option (list Item.t))
| ResponseArray (items : list Item.t).

Module Candidate.
Record t := mk {
  x : Q;
  y : Q;
  width : Q;
  height : Q;
  confidence : Q;
  label : string;
  className : string
}.
End Candidate.

(** The box of an item before the normalized-coordinates rule. *)
Definition itemBox (det : Item.t) : Q * Q * Q * Q :=
  match Item.bbox det, Item.box det with
  | Some b, _ => b
  | None, Some (BoxArray x1 y1 x2 y2) => (x1, y1, x2 - x1, y2 - y1)
  | None, Some (BoxObject x y width height) => (x, y, width, height)
  | None, None =>
      (opt_num_or (Item.x det) 0,
       opt_num_or (Item.y det) 0,
       opt_num_or (Item.width det) (opt_num_or (Item.w det) 0),
       opt_num_or (Item.height det) (opt_num_or (Item.h det) 0))
  end.

(** The body of [detections.map((det, idx) => ...)]. *)
Definition transformItem (imgWidth imgHeight : Q) (idx : nat) (det : Item.t)
  : Candidate.t :=
  let '(x, y, width, height) := itemBox det in
  let '(x, y, width, height) :=
    if Qltb x 1 && Qltb y 1 && Qltb width 1 && Qltb height 1
    then (x * imgWidth, y * imgHeight, width * imgWidth, height * imgHeight)
    else (x, y, width, height) in
  let label :=
    opt_str_or (Item.label det)
      (opt_str_or (Item.class det)
         (opt_str_or (Item.className det) ("object_" +:+ pretty idx))) in
  let confidence :=
    opt_num_or (Item.confidence det) (opt_num_or (Item.score det) (1 # 2)) in
  Candidate.mk (Qmax 0 x) (Qmax 0 y) (Qmin (imgWidth - x) width)
    (Qmin (imgHeight - y) height) confidence label label.

(** [transformDetections(apiResponse, imgWidth, imgHeight)] *)
Definition transformDetections (apiResponse : ApiResponse)
    (imgWidth imgHeight : Q) : list Candidate.t :=
  let detections :=
    match apiResponse with
    | ResponseObject (Some d) _ => d
    | ResponseObject None (Some p) => p
    | ResponseObject None None => []
    | ResponseArray items => items
    end in
  imap (transformItem imgWidth imgHeight) detections.

(** The array [transformDetections] reads its items from. *)
Definition responseItems (apiResponse : ApiResponse) : list Item.t :=
  match apiResponse with
  | ResponseObject (Some d) _ => d
  | ResponseObject None (Some p) => p
  | ResponseObject None None => []
  | ResponseArray items => items
  end.

(** ** Scenarios *)


Definition rangeScenario : App.t :=
  App.mk [] None None SelectMode "object" Draw.idle Drag.idle Resize.idle
    (Editor.mk false None) History.init
    [Image.mk "img_1" "a.png" 800 500] 0%nat
    {[ "img_1" := map (fun i => Region.mk i "car" 1 Auto 0 0 50 50)
                    [10; 11; 12; 13; 14]%Z ]}.

(** One 1000 by 500 image with two detected regions, the first of them
    selected, and the mapping already in the history. *)
Definition bulkRegions : Regions :=
  {[ "img_1" := [Region.mk 10 "car" (9 # 10) Auto 0 0 50 50;
                 Region.mk 11 "car" (6 # 10) Auto 100 100 50 50] ]}.

Definition bulkScenario : App.t :=
  App.mk [10%Z] (Some 0%Z) None SelectMode "object" Draw.idle Drag.idle
    Resize.idle (Editor.mk false None) (History.mk [bulkRegions] 0)
    [Image.mk "img_1" "a.png" 1000 500] 0%nat bulkRegions.

(** What a bulk operation commits: the current image's list becomes
    [newList], the other lists stay, and the history receives the new
    mapping through one call of [saveToHistory]. *)
Definition commits (s s' : App.t) (img : Image.t) (newList : list Region.t)
  : Prop :=
  regionsOf (App.regions s') (Image.id img) = newList
  /\ (forall k, k <> Image.id img -> App.regions s' !! k = App.regions s !! k)
  /\ App.hist s' = saveToHistory (App.hist s) (App.regions s').

(** Three images; the second request throws, the first and the third
    return one detection each. *)
Definition detectAllImages : list Image.t :=
  [Image.mk "img_1" "a.png" 1000 500;
   Image.mk "img_2" "b.png" 1000 500;
   Image.mk "img_3" "c.png" 1000 500].

Definition detectAllService (k : nat) (img : Image.t)
  : option (list RawDet.t) :=
  if (k =? 2)%nat then None
  else Some [RawDet.mk (Some "car") None (Some (9 # 10)) None
               (Some [10; 20; 30; 40])].

Definition detectAllScenario : App.t :=
  App.mk [] None None SelectMode "object" Draw.idle Drag.idle Resize.idle
    (Editor.mk false None) History.init detectAllImages 0%nat ∅.

(** What the [k]-th request of an all-images run contributes: the regions
    decoded from its response, or nothing when it throws. *)
Definition requestOutcome (clock : nat -> Z)
    (runDetection : nat -> Image.t -> option (list RawDet.t))
    (k : nat) (img : Image.t) : option (list Region.t) :=
  imap (detToRegion (clock k + Z.of_nat k * 10000)) <$> runDetection k img.

(** The outcomes of a run over [imgs] whose first request has number
    [S done]. *)
Definition outcomes (clock : nat -> Z)
    (runDetection : nat -> Image.t -> option (list RawDet.t))
    (done : nat) (imgs : list Image.t) : list (option (list Region.t)) :=
  imap (fun k img => requestOutcome clock runDetection (done + S k) img) imgs.

(** The objects of the succeeded requests, and the number of succeeded
    requests. *)
Definition totalObjects (out : list (option (list Region.t))) : nat :=
  sum_list (map (fun o => length (default [] o)) out).

Definition succeededCount (out : list (option (list Region.t))) : nat :=
  length (filter is_Some out).

(** A drag of region 10 in progress on the image of [bulkScenario]. *)
Definition dragScenario : App.t :=
  App.setDrag (Drag.mk true (Some 10%Z) (Point.mk 4 4))
    (App.mk [10%Z] (Some 0%Z) None EditMode "object" Draw.idle Drag.idle
       Resize.idle (Editor.mk false None) (History.mk [bulkRegions] 0)
       [Image.mk "img_1" "a.png" 1000 500] 0%nat bulkRegions).

(** The drag of [dragScenario] with the history at its capacity of 50
    entries and the pointer on top, and with five entries and the pointer
    on the second, as after three undos. *)
Definition fullHistoryDrag : App.t :=
  App.setHist (History.mk (replicate 50 bulkRegions) 49) dragScenario.

Definition undoneHistoryDrag : App.t :=
  App.setHist (History.mk (replicate 5 bulkRegions) 1) dragScenario.

(** ** History invariants *)

(** The stack is [pre ++ l], the pointer is on the [j]-th entry of [l], and
    that entry is the current region mapping. *)
Definition pointsAt (s : App.t) (pre l : list Regions) (j : nat) : Prop :=
  History.history (App.hist s) = pre ++ l
  /\ History.historyIndex (App.hist s) = Z.of_nat (length pre + j)
  /\ l !! j = Some (App.regions s).

(** The stack ends with the entries [l] and the pointer is on the last
    entry. *)
Definition stackEnds (hs : History.t) (l : list Regions) : Prop :=
  exists pre,
    History.history hs = pre ++ l
    /\ History.historyIndex hs
       = (Z.of_nat (length (History.history hs)) - 1)%Z.

(** ** Bounds *)

(** The box of [r] lies inside the image. *)
Definition inBounds (img : Image.t) (r : Region.t) : Prop :=
  0 <= Region.x r /\ 0 <= Region.y r
  /\ Region.x r + Region.w r <= Image.width img
  /\ Region.y r + Region.h r <= Image.height img.

(** Every region of the mapping lies inside its image. *)
Definition storeInBounds (s : App.t) : Prop :=
  forall img, img ∈ App.images s ->
    Forall (inBounds img) (regionsOf (App.regions s) (Image.id img)).

(** The handle and the region [handleCanvasMouseMove] resizes in [s], when
    it takes its resize branch. *)
Definition resizeTarget (s : App.t) : option (Handle * Region.t) :=
  if Draw.isDrawing (App.draw s) then None
  else
    match Drag.isDragging (App.drag s),
          idTruthy (Drag.dragRegionId (App.drag s)) with
    | true, Some _ => None
    | _, _ =>
        match Resize.isResizing (App.resize s),
              idTruthy (Resize.resizeRegionId (App.resize s)),
              Resize.resizeHandle (App.resize s),
              Resize.resizeStart (App.resize s) with
        | true, Some resizeRegionId, Some hd, Some _ =>
            pair hd <$> js_find (hasId resizeRegionId) (currentRegions s)
        | _, _, _, _ => None
        end
    end.

(** The handles of the east and south edges: "e", "s" and "se". *)
Definition eastSouth (hd : Handle) : bool :=
  negb (includes (pos hd) "w") && negb (includes (pos hd) "n").

(** The east and south handles keep the origin and floor the size at 20:
    [resizeRoom img hd region] says that the upper bounds of their clamps,
    as the handler computes them for the resized region, leave room for
    that floor. *)
Definition resizeRoom (img : Image.t) (hd : Handle) (region : Region.t)
  : Prop :=
  (includes (pos hd) "e" = true -> 20 <= Image.width img - Region.x region)
  /\ (includes (pos hd) "s" = true ->
      20 <= Image.height img - Region.y region).

(** The image of [bulkScenario] in edit mode with region 11 held by its
    south-east handle at image position (150, 150). *)
Definition resizeScenario : App.t :=
  App.setResize (Resize.mk true (Some 11%Z) (Some Hse) (Some (Point.mk 150 150)))
    (App.mk [11%Z] (Some 1%Z) None EditMode "object" Draw.idle Drag.idle
       Resize.idle (Editor.mk false None) (History.mk [bulkRegions] 0)
       [Image.mk "img_1" "a.png" 1000 500] 0%nat bulkRegions).

(** One 1000 by 500 image, nothing detected yet, and a response whose only
    box, 200 wide at x = 900, runs over the right edge. *)
Definition detectScenario : App.t :=
  App.mk [] None None SelectMode "object" Draw.idle Drag.idle Resize.idle
    (Editor.mk false None) History.init
    [Image.mk "img_1" "a.png" 1000 500] 0%nat ∅.

Definition overhangingResponse : list RawDet.t :=
  [RawDet.mk (Some "car") None (Some (9 # 10)) None (Some [900; 0; 200; 100])].

(** ** Suppression *)

(** [a] is not listed after a candidate of higher confidence. *)
Definition notBelow (a b : Detection.t) : Prop :=
  Detection.confidence b <= Detection.confidence a.


(** A kept [dk] suppresses a later [dj]. *)
Definition suppresses (iouThreshold : Q) (dk dj : Detection.t) : Prop :=
  Detection.classId dk = Detection.classId dj
  /\ iouThreshold < calculateIoU dk dj.

(** Three boxes of class 0, 10 by 10, shifted by 4 along x, of falling
    confidence, and one box of class 1 on top of the second: with threshold
    0.4 the first suppresses the second, and nothing suppresses the others. *)
Definition boxA : Detection.t := Detection.mk 0 0 10 10 (9 # 10) 0.
Definition boxB : Detection.t := Detection.mk 4 0 10 10 (8 # 10) 0.
Definition boxC : Detection.t := Detection.mk 8 0 10 10 (7 # 10) 0.

(** The candidate at position [k] of [detections] suppresses the one at
    position [j]. *)
Definition suppressesAt (detections : list Detection.t) (iouThreshold : Q)
    (k j : nat) : Prop :=
  exists dk dj,
    detections !! k = Some dk /\ detections !! j = Some dj
    /\ suppresses iouThreshold dk dj.

(** The state of the outer loop of [nms] before iteration [i]: [kept] holds
    the candidates at the positions [idxs], which are the positions below [i]
    that are not suppressed, and a position is suppressed exactly when a kept
    position before it suppresses it. *)
Definition nmsInv (detections : list Detection.t) (iouThreshold : Q) (i : nat)
    (st : list Detection.t * gset nat) : Prop :=
  exists idxs : list nat,
    st.1 = omap (fun k => detections !! k) idxs
    /\ StronglySorted lt idxs
    /\ (forall k, k ∈ idxs <-> (k < i)%nat /\ k ∉ st.2)
    /\ (forall j, j ∈ st.2
                  <-> (j < length detections)%nat
                      /\ exists k, (k < j)%nat /\ k ∈ idxs
                                   /\ suppressesAt detections iouThreshold k j).

(** ** Image status and progress *)

Inductive ImageStatus := Todo | Detected | Reviewed.

#[global] Instance ImageStatus_eq_dec : EqDecision ImageStatus.
Proof. solve_decision. Defined.

Definition isApproved (r : Region.t) : bool :=
  match Region.status r with
  | Approved => true
  | _ => false
  end.

(** [getImageStatus(imageRegions)]; the argument is [regions[img.id]], which
    may be [undefined]. *)
Definition getImageStatus (imageRegions : option (list Region.t))
  : ImageStatus :=
  match imageRegions with
  | None => Todo
  | Some [] => Todo
  | Some rs => if forallb isApproved rs then Reviewed else Detected
  end.

Module Progress.
Record t := mk {
  reviewed : nat;
  detected : nat;
  todo : nat;
  total : nat
}.
End Progress.

(** The body of [images.forEach] in [progressStats]; the state is the triple
    of [reviewed], [detected] and [todo]. *)
Definition progress_step (regions : Regions) (acc : nat * nat * nat)
    (img : Image.t) : nat * nat * nat :=
  let '(reviewed, detected, todo) := acc in
  match getImageStatus (regions !! Image.id img) with
  | Reviewed => (S reviewed, detected, todo)
  | Detected => (reviewed, S detected, todo)
  | Todo => (reviewed, detected, S todo)
  end.

(** [progressStats] *)
Definition progressStats (s : App.t) : Progress.t :=
  let '(reviewed, detected, todo) :=
    foldl (progress_step (App.regions s)) (0, 0, 0)%nat (App.images s) in
  Progress.mk reviewed detected todo (length (App.images s)).

(** ** Removing images and clearing detections *)

(** The messages of the handlers of this part.  They are passed to
    [showToast] like those above and are given beside the new state. *)
Inductive Notice :=
| NoticeRemoved (imgName : option string)
| NoticeCleared (count : nat)
| NoticeLabelUpdated (newLabel : string).

Definition setImages (v : list Image.t) (s : App.t) : App.t :=
  App.mk (App.selectedRegions s) (App.lastSelectedIndex s) (App.toast s)
    (App.annotationMode s) (App.defaultLabel s) (App.draw s) (App.drag s)
    (App.resize s) (App.editor s) (App.hist s) v (App.currentImageIndex s)
    (App.regions s).

Definition setCurrentImageIndex (v : nat) (s : App.t) : App.t :=
  App.mk (App.selectedRegions s) (App.lastSelectedIndex s) (App.toast s)
    (App.annotationMode s) (App.defaultLabel s) (App.draw s) (App.drag s)
    (App.resize s) (App.editor s) (App.hist s) (App.images s) v
    (App.regions s).

(** [l.findIndex(p)] *)
Definition js_findIndex {A} (p : A -> bool) (l : list A) : Z :=
  match list_find (fun a => p a = true) l with
  | Some (i, _) => Z.of_nat i
  | None => (-1)%Z
  end.

(** [handleDeleteImage(imgId, e)] *)
Definition handleDeleteImage (imgId : string) (s : App.t) : App.t * Notice :=
  let imgIndex :=
    js_findIndex (fun img => String.eqb (Image.id img) imgId) (App.images s) in
  let imgName :=
    if (imgIndex <? 0)%Z then None
    else Image.name <$> App.images s !! Z.to_nat imgIndex in
  let s1 :=
    setImages
      (filter (fun img => Image.id img <> imgId) (App.images s)) s in
  let s2 := App.setRegions (delete imgId (App.regions s)) s1 in
  let s3 :=
    if (imgIndex <=? Z.of_nat (App.currentImageIndex s))%Z
       && (0 <? App.currentImageIndex s)%nat
    then setCurrentImageIndex (App.currentImageIndex s - 1)%nat s2
    else s2 in
  (App.setSelectedRegions [] s3, NoticeRemoved imgName).

(** [executeClearCurrentDetections].  Without a displayed image the first
    statement throws and nothing is written. *)
Definition executeClearCurrentDetections (s : App.t) : App.t * option Notice :=
  match currentImage s with
  | None => (s, None)
  | Some img =>
      let count := length (currentRegions s) in
      let newRegions := <[Image.id img := []]> (App.regions s) in
      (App.setSelectedRegions []
         (App.setHist (saveToHistory (App.hist s) newRegions)
            (App.setRegions newRegions s)),
       Some (NoticeCleared count))
  end.

(** [handleSaveLabel(newLabel)] *)
Definition handleSaveLabel (newLabel : string) (s : App.t)
  : App.t * option Notice :=
  match idTruthy (Editor.editingRegionId (App.editor s)) with
  | Some editingRegionId =>
      (App.setEditor (Editor.mk false None)
         (updateRegions
            (map (fun r => if hasId editingRegionId r
                           then withLabel newLabel r else r)) s),
       Some (NoticeLabelUpdated newLabel))
  | None => (App.setEditor (Editor.mk false None) s, None)
  end.

(** ** Zoom *)

(** [handleZoomIn], [handleZoomOut] and [handleZoomReset] as functions of the
    cell [zoom]. *)
Definition handleZoomIn (z : Q) : Q := Qmin (z * (5 # 4)) 4.
Definition handleZoomOut (z : Q) : Q := Qmax (z / (5 # 4)) (1 # 2).
Definition handleZoomReset (z : Q) : Q := 1.

Inductive ZoomKey := ZoomIn | ZoomOut | ZoomReset.

Definition zoomKey (k : ZoomKey) (z : Q) : Q :=
  match k with
  | ZoomIn => handleZoomIn z
  | ZoomOut => handleZoomOut z
  | ZoomReset => handleZoomReset z
  end.

(** ** Hit test *)


(** The image of [bulkScenario] in edit mode, nothing selected. *)
Definition editScenario : App.t :=
  App.mk [] None None EditMode "object" Draw.idle Drag.idle Resize.idle
    (Editor.mk false None) (History.mk [bulkRegions] 0)
    [Image.mk "img_1" "a.png" 1000 500] 0%nat bulkRegions.

(** ** Decoding the model output: [YOLODetector] *)

(** The scale and offsets [preprocessImage] computes for an image; the tensor
    it fills is pixel data and is not modelled. *)
Definition preprocessTransform (inputSize width height : Q) : Transform.t :=
  let scale := Qmin (inputSize / width) (inputSize / height) in
  let scaledWidth := width * scale in
  let scaledHeight := height * scale in
  Transform.mk scale ((inputSize - scaledWidth) / 2)
    ((inputSize - scaledHeight) / 2).

(** The inner loop of [runONNXInference] over the class scores of box [i];
    the state is the pair of [maxScore] and [maxClassId].  A read past the
    end of [data] gives [undefined], which is greater than nothing. *)
Definition maxScore_step (data : list Q) (numBoxes i : nat)
    (acc : Q * nat) (c : nat) : Q * nat :=
  match data !! ((4 + c) * numBoxes + i)%nat with
  | Some score => if Qltb acc.1 score then (score, c) else acc
  | None => acc
  end.

(** The body of the loop of [runONNXInference] over the boxes: the detection
    box [i] contributes, if any.  A coordinate read past the end of [data]
    makes the sizes [NaN], which fail the size test. *)
Definition decodeBox (inputSize imgWidth imgHeight : Q) (t : Transform.t)
    (data : list Q) (numBoxes numClasses : nat) (confThreshold : Q)
    (isNormalized : bool) (i : nat) : option Detection.t :=
  let '(maxScore, maxClassId) :=
    foldl (maxScore_step data numBoxes i) (0, 0%nat) (seq 0 numClasses) in
  if Qltb maxScore confThreshold then None else
  match data !! (0 * numBoxes + i)%nat, data !! (1 * numBoxes + i)%nat,
        data !! (2 * numBoxes + i)%nat, data !! (3 * numBoxes + i)%nat with
  | Some cx, Some cy, Some w, Some h =>
      let '(cx, cy, w, h) :=
        if isNormalized
        then (cx * inputSize, cy * inputSize, w * inputSize, h * inputSize)
        else (cx, cy, w, h) in
      let x1 := (cx - w / 2 - Transform.offsetX t) / Transform.scale t in
      let y1 := (cy - h / 2 - Transform.offsetY t) / Transform.scale t in
      let x2 := (cx + w / 2 - Transform.offsetX t) / Transform.scale t in
      let y2 := (cy + h / 2 - Transform.offsetY t) / Transform.scale t in
      let finalX := Qmax 0 x1 in
      let finalY := Qmax 0 y1 in
      let finalW := Qmin imgWidth x2 - finalX in
      let finalH := Qmin imgHeight y2 - finalY in
      if Qltb 5 finalW && Qltb 5 finalH
      then Some (Detection.mk finalX finalY finalW finalH maxScore maxClassId)
      else None
  | _, _, _, _ => None
  end.

(** [runONNXInference] from the output tensor on: [numFeatures] and
    [numBoxes] are [dims[1]] and [dims[2]], [data] is the flat tensor. *)
Definition decodeOutput (inputSize imgWidth imgHeight : Q)
    (numFeatures numBoxes : nat) (data : list Q)
    (confThreshold iouThreshold : Q) : list Detection.t :=
  let t := preprocessTransform inputSize imgWidth imgHeight in
  let numClasses := (numFeatures - 4)%nat in
  let isNormalized :=
    match data !! 0%nat with
    | Some sampleCx => Qltb sampleCx 2
    | None => false
    end in
  let detections :=
    omap (decodeBox inputSize imgWidth imgHeight t data numBoxes numClasses
            confThreshold isNormalized) (seq 0 numBoxes) in
  nms detections iouThreshold.

(** No candidate of [detections] suppresses a later one. *)
Definition noSuppression (detections : list Detection.t) (iouThreshold : Q)
  : Prop :=
  forall k j, (k < j)%nat -> ~ suppressesAt detections iouThreshold k j.

(** One box of two classes in a 640 by 640 image, in pixel units. *)
Definition oneBoxTensor : list Q :=
  [320; 320; 100; 80; 1 # 10; 8 # 10].

(** A response item whose box is the whole image in normalized
    coordinates. *)
Definition fullImageItem : Item.t :=
  Item.mk (Some (0, 0, 1, 1)) None None None None None None None (Some "car")
    None None (Some (9 # 10)) None.

(** ** Text prompts: [GroundingDINODetector] *)

(** The characters are code units below 256; [isWhiteSpace] is the white
    space [String.prototype.trim] removes among them. *)
Definition isWhiteSpace (c : ascii) : bool :=
  let n := nat_of_ascii c in
  (n =? 9)%nat || (n =? 10)%nat || (n =? 11)%nat || (n =? 12)%nat
  || (n =? 13)%nat || (n =? 32)%nat || (n =? 160)%nat.

Definition isDot (c : ascii) : bool := Ascii.eqb c ".".

Fixpoint trimStart (s : string) : string :=
  match s with
  | EmptyString => EmptyString
  | String c s' => if isWhiteSpace c then trimStart s' else s
  end.

Fixpoint trimEnd (s : string) : string :=
  match s with
  | EmptyString => EmptyString
  | String c s' =>
      let t := trimEnd s' in
      if isWhiteSpace c && String.eqb t EmptyString then EmptyString
      else String c t
  end.

(** [s.trim()] *)
Definition trim (s : string) : string := trimEnd (trimStart s).

(** [s.split(".")] *)
Fixpoint split_dot (s : string) : list string :=
  match s with
  | EmptyString => [EmptyString]
  | String c s' =>
      match split_dot s' with
      | p :: ps => if isDot c then EmptyString :: p :: ps else String c p :: ps
      | [] => []
      end
  end.

(** [!textPrompt || textPrompt.trim() === ""] *)
Definition isBlank (textPrompt : string) : bool :=
  String.eqb textPrompt EmptyString || String.eqb (trim textPrompt) EmptyString.

(** The errors the detector classes throw. *)
Inductive DetectError :=
| OnnxRuntimeNotLoaded
| NoModelLoaded
| ModelNotLoaded
| PromptRequired
| PromptEmpty
| EndpointNotSet
| OnnxNotImplemented
| UnknownMode
| ApiError (status : nat)
| RequestFailed.

(** [parsePrompts(textPrompt)] *)
Definition parsePrompts (textPrompt : string) : DetectError + list string :=
  if isBlank textPrompt then inl PromptEmpty
  else inr (filter (fun p => (0 < String.length p)%nat)
              (map trim (split_dot textPrompt))).

(** [prompts.join(" . ")], the form the prompt examples are written in. *)
Fixpoint joinPrompts (prompts : list string) : string :=
  match prompts with
  | [] => EmptyString
  | [p] => p
  | p :: ps => p +:+ " . " +:+ joinPrompts ps
  end.

(** All characters of [s] satisfy [p]. *)
Fixpoint allChars (p : ascii -> bool) (s : string) : bool :=
  match s with
  | EmptyString => true
  | String c s' => p c && allChars p s'
  end.

(** A prompt as [parsePrompts] returns it: not empty, without a dot,
    without white space at either end. *)
Definition cleanPrompt (p : string) : Prop :=
  p <> EmptyString /\ allChars (fun c => negb (isDot c)) p = true
  /\ trim p = p.

(** ** The detector objects *)

Inductive DetectorMode := OnnxMode | ApiMode.

(** The fields the two detector classes share; [session] is a handle of
    the inference runtime. *)
Module Detector.
Record t := mk {
  session : option nat;
  modelLoaded : bool;
  apiEndpoint : option string;
  mode : option DetectorMode
}.
Definition new : t := mk None false None None.
End Detector.

(** [loadONNXModel(modelBuffer)]; [created] is what
    [ort.InferenceSession.create] resolves to, [None] when the runtime is
    missing or the creation fails: the method then throws before it writes
    a field. *)
Definition loadONNXModel (created : option nat) (d : Detector.t)
  : Detector.t :=
  match created with
  | Some handle =>
      Detector.mk (Some handle) true (Detector.apiEndpoint d) (Some OnnxMode)
  | None => d
  end.

(** [setAPIEndpoint(endpoint)] *)
Definition setAPIEndpoint (endpoint : string) (d : Detector.t) : Detector.t :=
  Detector.mk (Detector.session d) true (Some endpoint) (Some ApiMode).

(** [reset()], of [GroundingDINODetector] only. *)
Definition reset (d : Detector.t) : Detector.t :=
  Detector.mk None false None None.

Definition isReady (d : Detector.t) : bool := Detector.modelLoaded d.

Definition getMode (d : Detector.t) : option DetectorMode := Detector.mode d.

(** [!this.apiEndpoint]: the endpoint, if it is set and not empty. *)
Definition endpointTruthy (d : Detector.t) : option string :=
  match Detector.apiEndpoint d with
  | Some e => if String.eqb e EmptyString then None else Some e
  | None => None
  end.

(** The body of the request of [GroundingDINODetector]; the image data is
    not modelled. *)
Module Request.
Record t := mk {
  url : string;
  prompt : string;
  box_threshold : Q;
  text_threshold : Q
}.
End Request.

(** What a request comes to: [fetch] or [response.json()] throws, the
    response is not [ok], or the response carries [data]. *)
Inductive Fetched (A : Type) :=
| FetchThrows
| FetchNotOk (status : nat)
| FetchOk (data : A).
Arguments FetchThrows {A}.
Arguments FetchNotOk {A} status.
Arguments FetchOk {A} data.

(** [runAPIInference] of [GroundingDINODetector] *)
Definition dinoRunAPIInference (d : Detector.t) (imgWidth imgHeight : Q)
    (textPrompt : string) (boxThreshold textThreshold : Q)
    (fetch : Request.t -> Fetched ApiResponse)
  : DetectError + list Candidate.t :=
  match endpointTruthy d with
  | None => inl EndpointNotSet
  | Some endpoint =>
      match parsePrompts textPrompt with
      | inl e => inl e
      | inr _ =>
          match fetch (Request.mk endpoint textPrompt boxThreshold
                         textThreshold) with
          | FetchThrows => inl RequestFailed
          | FetchNotOk status => inl (ApiError status)
          | FetchOk data => inr (transformDetections data imgWidth imgHeight)
          end
      end
  end.

(** [detect] of [GroundingDINODetector] *)
Definition dinoDetect (d : Detector.t) (imgWidth imgHeight : Q)
    (textPrompt : string) (boxThreshold textThreshold : Q)
    (fetch : Request.t -> Fetched ApiResponse)
  : DetectError + list Candidate.t :=
  if negb (Detector.modelLoaded d) then inl NoModelLoaded
  else if isBlank textPrompt then inl PromptRequired
  else
    match Detector.mode d with
    | Some ApiMode =>
        dinoRunAPIInference d imgWidth imgHeight textPrompt boxThreshold
          textThreshold fetch
    | Some OnnxMode => inl OnnxNotImplemented
    | None => inl UnknownMode
    end.

Module BatchResult.
Record t := mk {
  image : Image.t;
  detections : list Candidate.t;
  success : bool;
  error : option DetectError
}.
End BatchResult.

(** [detectBatch]; [fetch i] is what the request for [images[i]] comes to.
    The progress callback is not modelled. *)
Definition detectBatch (d : Detector.t) (images : list Image.t)
    (textPrompt : string) (boxThreshold textThreshold : Q)
    (fetch : nat -> Request.t -> Fetched ApiResponse)
  : list BatchResult.t :=
  imap (fun i img =>
          match dinoDetect d (Image.width img) (Image.height img) textPrompt
                  boxThreshold textThreshold (fetch i) with
          | inr detections => BatchResult.mk img detections true None
          | inl error => BatchResult.mk img [] false (Some error)
          end) images.

(** [runONNXInference] of [YOLODetector]; [run] is the output tensor of
    [session.run] as [dims[1]], [dims[2]] and [data], [None] when the run
    throws.  [inputSize] is 640. *)
Definition yoloRunONNXInference (d : Detector.t) (imgWidth imgHeight : Q)
    (confThreshold iouThreshold : Q) (run : option (nat * nat * list Q))
  : DetectError + list Detection.t :=
  match Detector.session d with
  | None => inl ModelNotLoaded
  | Some _ =>
      match run with
      | None => inl RequestFailed
      | Some (numFeatures, numBoxes, data) =>
          inr (decodeOutput 640 imgWidth imgHeight numFeatures numBoxes data
                 confThreshold iouThreshold)
      end
  end.

(** [runAPIInference] of [YOLODetector]; the response data is the value of
    [data.detections], a list of items the class passes on as they are. *)
Definition yoloRunAPIInference {A} (d : Detector.t) (confThreshold : Q)
    (fetch : string -> Q -> Fetched (option (list A)))
  : DetectError + list A :=
  match endpointTruthy d with
  | None => inl EndpointNotSet
  | Some endpoint =>
      match fetch endpoint confThreshold with
      | FetchThrows => inl RequestFailed
      | FetchNotOk status => inl (ApiError status)
      | FetchOk detections => inr (default [] detections)
      end
  end.

(** [detect] of [YOLODetector]: the detections of the local model or the
    items of the remote one. *)
Definition yoloDetect {A} (d : Detector.t) (imgWidth imgHeight : Q)
    (confThreshold iouThreshold : Q) (run : option (nat * nat * list Q))
    (fetch : string -> Q -> Fetched (option (list A)))
  : DetectError + (list Detection.t + list A) :=
  if negb (Detector.modelLoaded d) then inl NoModelLoaded
  else
    match Detector.mode d with
    | Some OnnxMode =>
        match yoloRunONNXInference d imgWidth imgHeight confThreshold
                iouThreshold run with
        | inl e => inl e
        | inr detections => inr (inl detections)
        end
    | Some ApiMode =>
        match yoloRunAPIInference d confThreshold fetch with
        | inl e => inl e
        | inr items => inr (inr items)
        end
    | None => inl UnknownMode
    end.

(** The methods that write the fields of a detector. *)
Inductive DetectorCall :=
| CallLoadONNXModel (created : option nat)
| CallSetAPIEndpoint (endpoint : string)
| CallReset.

Definition call (d : Detector.t) (c : DetectorCall) : Detector.t :=
  match c with
  | CallLoadONNXModel created => loadONNXModel created d
  | CallSetAPIEndpoint endpoint => setAPIEndpoint endpoint d
  | CallReset => reset d
  end.

(** The detector after the calls [cs], from construction. *)
Definition afterCalls (cs : list DetectorCall) : Detector.t :=
  foldl call Detector.new cs.

(** [modelLoaded] says that a mode is set, and the mode has what it
    needs. *)
Definition detectorInv (d : Detector.t) : Prop :=
  (Detector.modelLoaded d = true <-> Detector.mode d <> None)
  /\ (Detector.mode d = Some ApiMode -> Detector.apiEndpoint d <> None)
  /\ (Detector.mode d = Some OnnxMode -> Detector.session d <> None).

(** ** COCO export *)

(** The property names an object literal inherits from [Object.prototype];
    a lookup of one of them in [categoryMap] finds the inherited value,
    which is truthy. *)
Definition objectPrototypeKeys : list string :=
  ["constructor"; "__defineGetter__"; "__defineSetter__"; "hasOwnProperty";
   "__lookupGetter__"; "__lookupSetter__"; "isPrototypeOf";
   "propertyIsEnumerable"; "toString"; "valueOf"; "__proto__";
   "toLocaleString"].

(** The value of [categoryMap[r.label]]: a category identifier or an
    inherited property. *)
Inductive CategoryRef :=
| CategoryId (id : nat)
| InheritedProperty (key : string).

(** [Math.round] *)
Definition js_round (x : Q) : Z := Qfloor (x + (1 # 2)).

(** A category; [supercategory] is always ["object"]. *)
Module Category.
Record t := mk { id : nat; name : string }.
End Category.

(** An annotation; [iscrowd] is always 0. *)
Module Annotation.
Record t := mk {
  id : nat;
  image_id : nat;
  category_id : CategoryRef;
  bbox : Z * Z * Z * Z;
  area : Z;
  score : Q
}.
End Annotation.

Module CocoImage.
Record t := mk { id : nat; file_name : string; width : Q; height : Q }.
End CocoImage.

(** The exported object without its [info] header. *)
Module Coco.
Record t := mk {
  images : list CocoImage.t;
  annotations : list Annotation.t;
  categories : list Category.t
}.
End Coco.

(** The variables [exportToCOCO] updates in its loops. *)
Module CocoAcc.
Record t := mk {
  categories : list Category.t;
  categoryMap : gmap string nat;
  annotations : list Annotation.t;
  annotationId : nat
}.
Definition init : t := mk [] ∅ [] 1.
End CocoAcc.

(** [categoryMap[label]], if it is truthy.  Identifiers start at 1. *)
Definition categoryLookup (categoryMap : gmap string nat) (label : string)
  : option CategoryRef :=
  match categoryMap !! label with
  | Some id => Some (CategoryId id)
  | None =>
      if bool_decide (label ∈ objectPrototypeKeys)
      then Some (InheritedProperty label)
      else None
  end.

(** The body of [(regions[img.id] || []).forEach((r) => ...)] for the image
    at index [idx]. *)
Definition coco_region_step (idx : nat) (acc : CocoAcc.t) (r : Region.t)
  : CocoAcc.t :=
  let '(categories, categoryMap, ref) :=
    match categoryLookup (CocoAcc.categoryMap acc) (Region.label r) with
    | Some ref => (CocoAcc.categories acc, CocoAcc.categoryMap acc, ref)
    | None =>
        let catId := (length (CocoAcc.categories acc) + 1)%nat in
        (CocoAcc.categories acc ++ [Category.mk catId (Region.label r)],
         <[Region.label r := catId]> (CocoAcc.categoryMap acc),
         CategoryId catId)
    end in
  CocoAcc.mk categories categoryMap
    (CocoAcc.annotations acc
       ++ [Annotation.mk (CocoAcc.annotationId acc) (idx + 1) ref
             (js_round (Region.x r), js_round (Region.y r),
              js_round (Region.w r), js_round (Region.h r))
             (js_round (Region.w r * Region.h r)) (Region.confidence r)])
    (CocoAcc.annotationId acc + 1).

(** The body of [images.map((img, idx) => ...)], as far as it updates the
    variables. *)
Definition coco_image_step (regions : Regions) (acc : CocoAcc.t)
    (p : nat * Image.t) : CocoAcc.t :=
  foldl (coco_region_step p.1) acc (regionsOf regions (Image.id p.2)).

(** [exportToCOCO(images, regions)] *)
Definition exportToCOCO (images : list Image.t) (regions : Regions) : Coco.t :=
  let acc :=
    foldl (coco_image_step regions) CocoAcc.init (imap pair images) in
  let cocoImages :=
    imap (fun idx img =>
            CocoImage.mk (idx + 1) (Image.name img) (Image.width img)
              (Image.height img)) images in
  Coco.mk cocoImages (CocoAcc.annotations acc) (CocoAcc.categories acc).

(** The regions [exportToCOCO] visits, in order, each with the index of its
    image. *)
Definition exportedRegions (images : list Image.t) (regions : Regions)
  : list (nat * Region.t) :=
  concat (imap (fun idx img =>
                  map (pair idx) (regionsOf regions (Image.id img))) images).

(** [totalRegionsAllImages], the count [handleExport] reports:
    [Object.values(regions).flat().length]. *)
Definition totalRegionsAllImages (regions : Regions) : nat :=
  sum_list (map (fun kv => length kv.2) (map_to_list regions)).

(** The annotation [a] is the export of region [r] of the image at index
    [idx], given the exported [categories]. *)
Definition annotates (categories : list Category.t) (a : Annotation.t)
    (p : nat * Region.t) : Prop :=
  let r := p.2 in
  Annotation.image_id a = (p.1 + 1)%nat
  /\ Annotation.score a = Region.confidence r
  /\ Annotation.bbox a
     = (js_round (Region.x r), js_round (Region.y r),
        js_round (Region.w r), js_round (Region.h r))
  /\ Annotation.area a = js_round (Region.w r * Region.h r)
  /\ ((Region.label r ∉ objectPrototypeKeys) ->
      exists k, Annotation.category_id a = CategoryId (S k)
                /\ categories !! k = Some (Category.mk (S k) (Region.label r)))
  /\ ((Region.label r ∈ objectPrototypeKeys) ->
      Annotation.category_id a = InheritedProperty (Region.label r)).

(** The loop variables after the regions [done] have been visited. *)
Definition cocoInv (acc : CocoAcc.t) (done : list (nat * Region.t)) : Prop :=
  CocoAcc.annotationId acc = S (length done)
  /\ map Annotation.id (CocoAcc.annotations acc) = seq 1 (length done)
  /\ (forall k c, CocoAcc.categories acc !! k = Some c ->
        Category.id c = S k
        /\ (Category.name c ∉ objectPrototypeKeys)
        /\ CocoAcc.categoryMap acc !! Category.name c = Some (S k)
        /\ exists p, p ∈ done /\ Region.label p.2 = Category.name c)
  /\ (forall l n, CocoAcc.categoryMap acc !! l = Some n ->
        exists k, n = S k
                  /\ CocoAcc.categories acc !! k = Some (Category.mk n l))
  /\ Forall2 (annotates (CocoAcc.categories acc)) (CocoAcc.annotations acc)
       done.

(** ** The component as a transition system *)

Definition setAnnotationMode (v : Mode) (s : App.t) : App.t :=
  App.mk (App.selectedRegions s) (App.lastSelectedIndex s) (App.toast s) v
    (App.defaultLabel s) (App.draw s) (App.drag s) (App.resize s)
    (App.editor s) (App.hist s) (App.images s) (App.currentImageIndex s)
    (App.regions s).

(** The click on the thumbnail of [images[i]]:
    [setCurrentImageIndex(i); setSelectedRegions([])]. *)
Definition selectImage (i : nat) (s : App.t) : App.t :=
  if (i <? length (App.images s))%nat
  then App.setSelectedRegions [] (setCurrentImageIndex i s)
  else s.

(** [handleFileSelect], with the images it has loaded; its message is not
    followed. *)
Definition handleFileSelect (newImages : list Image.t) (s : App.t) : App.t :=
  match newImages with
  | [] => s
  | _ => setImages (App.images s ++ newImages) s
  end.

(** [executeDetect] awaits the response: what it then writes was computed
    from the cells of the render [s0] it was started in, and is written to
    the component as it is by then, [s]. *)
Definition executeDetectAsync (now : Z) (response : option (list RawDet.t))
    (s0 s : App.t) : App.t :=
  match currentImage s0, response with
  | Some img, Some dets =>
      let detections := imap (detToRegion now) dets in
      let newRegions := <[Image.id img := detections]> (App.regions s0) in
      App.showToast (ToastObjectsDetected (length detections))
        (App.setHist (saveToHistory (App.hist s0) newRegions)
           (App.setRegions newRegions s))
  | _, _ => App.showToast ToastDetectionFailed s
  end.

(** [executeDetectAll], likewise. *)
Definition executeDetectAllAsync (clock : nat -> Z)
    (runDetection : nat -> Image.t -> option (list RawDet.t))
    (s0 s : App.t) : App.t :=
  let final := foldl (detectAll_step clock runDetection)
                 (DetectAll.mk 0 0 ∅) (App.images s0) in
  let newRegions := DetectAll.allNewRegions final ∪ App.regions s0 in
  App.showToast
    (ToastCompleted (DetectAll.totalDetected final) (length (App.images s0)))
    (App.setHist (saveToHistory (App.hist s0) newRegions)
       (App.setRegions newRegions s)).

(** The pointer, button and thumbnail events of the component and their
    inputs; the key handler is not among them.  The messages of the
    handlers that give them beside the state are not followed. *)
Inductive Event :=
| EvUndo
| EvRedo
| EvApprove
| EvFlag
| EvDelete
| EvBulkChangeLabel (newLabel : string)
| EvSelectRegion (id : Z) (e : Modifiers.t) (globalIdx : Z)
| EvCanvasMouseDown (c : Point.t)
| EvCanvasMouseMove (c : Point.t)
| EvCanvasMouseUp (now : Z)
| EvDragStart (regionId : Z) (c : Point.t)
| EvResizeStart (regionId : Z) (hd : Handle) (c : Point.t)
| EvClearCurrentDetections
| EvDeleteImage (imgId : string)
| EvSaveLabel (newLabel : string)
| EvFileSelect (newImages : list Image.t)
| EvSelectImage (i : nat)
| EvSetAnnotationMode (m : Mode).

Definition step (s : App.t) (ev : Event) : App.t :=
  match ev with
  | EvUndo => handleUndo s
  | EvRedo => handleRedo s
  | EvApprove => handleApprove s
  | EvFlag => handleFlag s
  | EvDelete => handleDelete s
  | EvBulkChangeLabel newLabel => handleBulkChangeLabel newLabel s
  | EvSelectRegion id e globalIdx => handleSelectRegion id e globalIdx s
  | EvCanvasMouseDown c => handleCanvasMouseDown c s
  | EvCanvasMouseMove c => handleCanvasMouseMove c s
  | EvCanvasMouseUp now => handleCanvasMouseUp now s
  | EvDragStart regionId c => handleDragStart regionId c s
  | EvResizeStart regionId hd c => handleResizeStart regionId hd c s
  | EvClearCurrentDetections => (executeClearCurrentDetections s).1
  | EvDeleteImage imgId => (handleDeleteImage imgId s).1
  | EvSaveLabel newLabel => (handleSaveLabel newLabel s).1
  | EvFileSelect newImages => handleFileSelect newImages s
  | EvSelectImage i => selectImage i s
  | EvSetAnnotationMode m => setAnnotationMode m s
  end.

(** The states of the component: the initial one, the one after an event,
    and the one after a detection started in an earlier state [s0] has
    written its result. *)
Inductive Reachable : App.t -> Prop :=
| ReachInit : Reachable App.init
| ReachStep s ev : Reachable s -> Reachable (step s ev)
| ReachDetect now response s0 s :
    Reachable s0 -> Reachable s ->
    Reachable (executeDetectAsync now response s0 s)
| ReachDetectAll clock runDetection s0 s :
    Reachable s0 -> Reachable s ->
    Reachable (executeDetectAllAsync clock runDetection s0 s).

(** The history stack holds at most 50 entries and the pointer is on one
    of them, or the stack is empty and the pointer is -1. *)
Definition histOk (hs : History.t) : Prop :=
  (length (History.history hs) <= 50)%nat
  /\ (-1 <= History.historyIndex hs < Z.of_nat (length (History.history hs)))%Z
  /\ (History.historyIndex hs = (-1)%Z <-> History.history hs = []).

(** ** Sensitivity presets *)

(** A threshold of a model configuration. *)
Module Threshold.
Record t := mk { default : Q; min : Q; max : Q }.
End Threshold.

(** The [thresholds] of [MODEL_CONFIGS]: those of the two YOLO entries (and
    of the disabled one) and those of ["grounding-dino"]. *)
Definition yoloThresholds : list (string * Threshold.t) :=
  [("confidence", Threshold.mk (25 # 100) (5 # 100) (95 # 100));
   ("iou", Threshold.mk (45 # 100) (1 # 10) (9 # 10))].

Definition dinoThresholds : list (string * Threshold.t) :=
  [("box", Threshold.mk (35 # 100) (1 # 10) (9 # 10));
   ("text", Threshold.mk (25 # 100) (1 # 10) (9 # 10));
   ("nms", Threshold.mk (5 # 10) (1 # 10) (9 # 10))].

Definition MODEL_CONFIGS : list (string * list (string * Threshold.t)) :=
  [("yolo-v8", yoloThresholds); ("yolo-v11", yoloThresholds);
   ("grounding-dino", dinoThresholds); ("coming-soon", yoloThresholds)].

Inductive Preset := Strict | Balanced | Loose.

(** [SENSITIVITY_PRESETS[key].multiplier] *)
Definition multiplier (key : Preset) : Q :=
  match key with
  | Strict => 14 # 10
  | Balanced => 1
  | Loose => 7 # 10
  end.

(** The value [applySensitivityPreset] computes for one threshold. *)
Definition presetValue (key : Preset) (v : Threshold.t) : Q :=
  Qmax (Threshold.min v)
    (Qmin (Threshold.max v) (Threshold.default v * multiplier key)).

(** [applySensitivityPreset(key)]: the new values of the cells
    [sensitivityPreset] and [thresholds]; [config] is
    [currentModelConfig?.thresholds]. *)
Definition applySensitivityPreset (key : Preset)
    (config : option (list (string * Threshold.t)))
    (cells : Preset * list (string * Q)) : Preset * list (string * Q) :=
  match config with
  | Some thresholds =>
      (key, map (fun kv => (kv.1, presetValue key kv.2)) thresholds)
  | None => (key, cells.2)
  end.

(** * Properties *)

(** ** Numbers *)

Lemma Qltb_lt a b : Qltb a b = true <-> a < b.
Proof.
  unfold Qltb. rewrite negb_true_iff.
  destruct (Qle_bool b a) eqn:E.
  - apply Qle_bool_iff in E. split; [discriminate | intros H; lra].
  - split; [intros _ | reflexivity].
    destruct (Qlt_le_dec a b) as [H | H]; [exact H |].
    apply Qle_bool_iff in H. congruence.
Qed.

Lemma Qltb_ge a b : Qltb a b = false <-> b <= a.
Proof.
  unfold Qltb. rewrite negb_false_iff. apply Qle_bool_iff.
Qed.

Lemma truthy_false a : truthy a = false <-> a == 0.
Proof. unfold truthy. rewrite negb_false_iff. apply Qeq_bool_iff. Qed.

Lemma truthy_true a : truthy a = true <-> ~ a == 0.
Proof.
  unfold truthy. rewrite negb_true_iff. split.
  - intros E H. apply Qeq_bool_iff in H. congruence.
  - intros H. destruct (Qeq_bool a 0) eqn:E; [| reflexivity].
    apply Qeq_bool_iff in E. contradiction.
Qed.

(** ** Coordinate transform *)

Lemma getImageTransform_pos iw ih :
  0 < iw -> 0 < ih ->
  let t := getImageTransform iw ih in
  Transform.scale t == Qmin (CANVAS_WIDTH / iw) (CANVAS_HEIGHT / ih)
  /\ Transform.offsetX t == (CANVAS_WIDTH - iw * Transform.scale t) / 2
  /\ Transform.offsetY t == (CANVAS_HEIGHT - ih * Transform.scale t) / 2.
Proof.
  intros Hw Hh. unfold getImageTransform.
  assert (Tw : truthy iw = true) by (apply truthy_true; lra).
  assert (Th : truthy ih = true) by (apply truthy_true; lra).
  rewrite Tw, Th. cbn [negb orb].
  assert (Hiw : ~ iw == 0) by lra.
  assert (Hih : ~ ih == 0) by lra.
  unfold CANVAS_WIDTH, CANVAS_HEIGHT.
  destruct (Qltb (800 / 500) (iw / ih)) eqn:E; cbn.
  - apply Qltb_lt in E.
    assert (E' : 800 * ih < 500 * iw).
    { destruct (Qlt_le_dec (800 * ih) (500 * iw)) as [L | L]; [exact L |].
      exfalso. apply (Qlt_not_le _ _ E).
      apply Qle_shift_div_r; [exact Hh |].
      assert (C : 800 / 500 == 8 # 5) by reflexivity. rewrite C. lra. }
    assert (Hle : 800 / iw <= 500 / ih).
    { apply Qle_shift_div_l; [exact Hh |].
      assert (800 / iw * ih == 800 * ih / iw) by (field; exact Hiw).
      rewrite H. apply Qle_shift_div_r; [exact Hw | lra]. }
    repeat split.
    + symmetry. apply Q.min_l. exact Hle.
    + field. exact Hiw.
    + field. split; assumption.
  - apply Qltb_ge in E.
    assert (E' : 500 * iw <= 800 * ih).
    { destruct (Qlt_le_dec (800 * ih) (500 * iw)) as [L | L]; [| exact L].
      exfalso. apply (Qle_not_lt _ _ E).
      apply Qlt_shift_div_l; [exact Hh |].
      assert (C : 800 / 500 == 8 # 5) by reflexivity. rewrite C. lra. }
    assert (Hle : 500 / ih <= 800 / iw).
    { apply Qle_shift_div_l; [exact Hw |].
      assert (500 / ih * iw == 500 * iw / ih) by (field; exact Hih).
      rewrite H. apply Qle_shift_div_r; [exact Hh | lra]. }
    repeat split.
    + symmetry. apply Q.min_r. exact Hle.
    + field. exact Hih.
    + field. exact Hih.
Qed.

Lemma getImageTransform_scale_nonzero iw ih :
  ~ Transform.scale (getImageTransform iw ih) == 0.
Proof.
  unfold getImageTransform.
  destruct (truthy iw) eqn:Tw; cbn [negb orb]; [| cbn; lra].
  destruct (truthy ih) eqn:Th; cbn [negb orb]; [| cbn; lra].
  apply truthy_true in Tw, Th.
  destruct (Qltb _ _); cbn; unfold CANVAS_WIDTH, CANVAS_HEIGHT.
  - intros H. apply Tw.
    assert (800 / iw * iw == 800) by (field; exact Tw).
    rewrite H in H0. lra.
  - intros H. apply Th.
    assert (500 / ih * ih == 500) by (field; exact Th).
    rewrite H in H0. lra.
Qed.

(** C4, over exact arithmetic.  For positive image dimensions the transform
    is the letterbox fit: its scale is
    [min (canvasW / imageW) (canvasH / imageH)] and its offsets centre the
    scaled image.  Mapping a box to the canvas and its two corners back
    gives the box again: the origin, and the width and height as the
    difference of the corners.  This reads the formulas of the source over
    the rationals; what the doubles of the program make of them is shown
    below. *)
Theorem canvasToImage_imageToCanvas (b : Region.t) (iw ih : Q) :
  0 < iw -> 0 < ih ->
  let t := getImageTransform iw ih in
  let s := getScaledBoundingBox b iw ih in
  let p := canvasToImageCoords (Box.x s) (Box.y s) iw ih in
  let q := canvasToImageCoords (Box.x s + Box.w s) (Box.y s + Box.h s) iw ih in
  Transform.scale t == Qmin (CANVAS_WIDTH / iw) (CANVAS_HEIGHT / ih)
  /\ Transform.offsetX t == (CANVAS_WIDTH - iw * Transform.scale t) / 2
  /\ Transform.offsetY t == (CANVAS_HEIGHT - ih * Transform.scale t) / 2
  /\ Point.x p == Region.x b /\ Point.y p == Region.y b
  /\ Point.x q - Point.x p == Region.w b
  /\ Point.y q - Point.y p == Region.h b.
Proof.
  intros Hw Hh.
  destruct (getImageTransform_pos iw ih Hw Hh) as (Hs & Hx & Hy).
  pose proof (getImageTransform_scale_nonzero iw ih) as Hnz.
  cbv zeta. split; [exact Hs |]. split; [exact Hx |]. split; [exact Hy |].
  unfold canvasToImageCoords, getScaledBoundingBox. cbn.
  repeat split; field; exact Hnz.
Qed.

Lemma canvasToImage_imageToCanvas_witness :
  let b := Region.mk 7 "car" (9 # 10) Auto 120 40 300 200 in
  let s := getScaledBoundingBox b 1000 500 in
  let p := canvasToImageCoords (Box.x s) (Box.y s) 1000 500 in
  Point.x p == 120 /\ Point.y p == 40.
Proof.
  pose proof (canvasToImage_imageToCanvas
                (Region.mk 7 "car" (9 # 10) Auto 120 40 300 200) 1000 500
                eq_refl eq_refl) as H.
  cbv zeta in H. destruct H as (_ & _ & _ & Hx & Hy & _).
  split; [exact Hx | exact Hy].
Defined.

(** C4 as stated fails of the program, which computes in doubles: the
    origin of the box (1, 1, 10, 10) on a 1000 by 500 image comes back from
    the canvas with y = 0.9999999999999964 (and x = 1): close to 1, and not
    1. *)
Lemma round_trip_inexact_in_doubles :
  PrimFloat.eqb (F64.Point.x F64.roundTripOrigin) F64.one = true
  /\ PrimFloat.eqb (F64.Point.y F64.roundTripOrigin) F64.one = false
  /\ PrimFloat.ltb (F64.Point.y F64.roundTripOrigin) F64.one = true
  /\ PrimFloat.ltb
       (PrimFloat.sub F64.one (F64.Point.y F64.roundTripOrigin)) F64.tiny
     = true.
Proof. vm_compute. repeat split. Qed.

(** ** Remote-detection decoder *)

Lemma transformItem_confidence iw ih idx det :
  Candidate.confidence (transformItem iw ih idx det)
  = opt_num_or (Item.confidence det) (opt_num_or (Item.score det) (1 # 2)).
Proof.
  unfold transformItem. destruct (itemBox det) as [[[x y] wd] ht].
  destruct (Qltb x 1 && Qltb y 1 && Qltb wd 1 && Qltb ht 1); reflexivity.
Qed.

Lemma transformDetections_lookup resp iw ih idx :
  transformDetections resp iw ih !! idx
  = transformItem iw ih idx <$> responseItems resp !! idx.
Proof.
  unfold transformDetections, responseItems. apply list_lookup_imap.
Qed.

(** C10.  An item whose [confidence] is present and zero and which has no
    [score] is emitted with confidence 0.5; and no emitted candidate has
    confidence zero, whatever the item was. *)
Theorem transformDetections_zero_confidence
    (resp : ApiResponse) (iw ih : Q) (idx : nat) (det : Item.t) (q : Q) :
  responseItems resp !! idx = Some det ->
  Item.confidence det = Some q -> q == 0 -> Item.score det = None ->
  (exists c, transformDetections resp iw ih !! idx = Some c
             /\ Candidate.confidence c = 1 # 2)
  /\ (forall c, c ∈ transformDetections resp iw ih ->
                ~ Candidate.confidence c == 0).
Proof.
  intros Hdet Hc Hq Hs. split.
  - exists (transformItem iw ih idx det). split.
    + rewrite transformDetections_lookup, Hdet. reflexivity.
    + rewrite transformItem_confidence, Hc, Hs. cbn. unfold num_or.
      apply truthy_false in Hq. rewrite Hq. reflexivity.
  - intros c Hin. apply list_elem_of_lookup in Hin as [i Hi].
    rewrite transformDetections_lookup in Hi.
    destruct (responseItems resp !! i) as [d |]; [| discriminate].
    cbn in Hi. injection Hi as <-. rewrite transformItem_confidence.
    unfold opt_num_or, num_or.
    destruct (Item.confidence d) as [a |], (Item.score d) as [e |];
      repeat match goal with
             | |- context [truthy ?v] =>
                 let E := fresh "E" in
                 destruct (truthy v) eqn:E; [apply truthy_true in E |]
             end; try assumption; intros F; discriminate F.
Qed.

Lemma transformDetections_zero_confidence_witness :
  let det := Item.mk (Some (10, 20, 30, 40)) None None None None None None
               None (Some "car") None None (Some 0) None in
  exists c, transformDetections (ResponseArray [det]) 640 480 !! 0%nat = Some c
            /\ Candidate.confidence c = 1 # 2.
Proof.
  exact (proj1 (transformDetections_zero_confidence
                  (ResponseArray
                     [Item.mk (Some (10, 20, 30, 40)) None None None None None
                        None None (Some "car") None None (Some 0) None])
                  640 480 0 _ 0 eq_refl eq_refl eq_refl eq_refl)).
Defined.

(** ** Projections of the handlers *)

(** The handlers are compositions of setters; [app_simpl] computes the
    cells of the resulting state. *)
Ltac app_simpl :=
  cbn [App.selectedRegions App.lastSelectedIndex App.toast App.annotationMode
       App.defaultLabel App.draw App.drag App.resize App.editor App.hist
       App.images App.currentImageIndex App.regions
       App.setSelectedRegions App.setLastSelectedIndex App.showToast
       App.setDraw App.setDrag App.setResize App.setEditor App.setHist
       App.setRegions] in *.

Lemma regionsOf_insert (rs : Regions) k l : regionsOf (<[k := l]> rs) k = l.
Proof. unfold regionsOf. rewrite lookup_insert_eq. reflexivity. Qed.

Lemma regionsOf_insert_ne (rs : Regions) k k' l :
  k <> k' -> regionsOf (<[k := l]> rs) k' = regionsOf rs k'.
Proof. intros H. unfold regionsOf. rewrite lookup_insert_ne; done. Qed.

(** ** Draw gesture *)

Lemma mouseUp_regions now s :
  App.regions (handleCanvasMouseUp now s)
  = match Draw.isDrawing (App.draw s), Draw.drawStart (App.draw s),
          Draw.drawCurrent (App.draw s), currentImage s with
    | true, Some ds, Some dc, Some img =>
        match drawnRegion now (App.defaultLabel s) img ds dc with
        | Some r => <[Image.id img :=
                        regionsOf (App.regions s) (Image.id img) ++ [r]]>
                      (App.regions s)
        | None => App.regions s
        end
    | _, _, _, _ => App.regions s
    end.
Proof.
  unfold handleCanvasMouseUp.
  destruct (Resize.isResizing (App.resize s)), (Drag.isDragging (App.drag s)),
    (Draw.isDrawing (App.draw s)), (Draw.drawStart (App.draw s)),
    (Draw.drawCurrent (App.draw s)), (currentImage s);
    try reflexivity; destruct (drawnRegion _ _ _ _ _); reflexivity.
Qed.



(** ** Arrays *)

Lemma js_slice_range {A} (l : list A) (lo hi : Z) (v : A) :
  (0 <= lo)%Z -> (lo <= hi)%Z ->
  v ∈ js_slice l lo (hi + 1)
  <-> exists k : nat, (lo <= Z.of_nat k <= hi)%Z /\ l !! k = Some v.
Proof.
  intros Hlo Hhi. unfold js_slice.
  destruct (Z.ltb_spec lo 0) as [? | _]; [lia |].
  destruct (Z.ltb_spec (hi + 1) 0) as [? | _]; [lia |].
  rewrite elem_of_take. split.
  - intros (i & Hi & Hlt). rewrite lookup_drop in Hi.
    apply lookup_lt_Some in Hi as Hlen.
    exists (Z.to_nat (Z.min lo (Z.of_nat (length l))) + i)%nat.
    split; [lia | exact Hi].
  - intros (k & Hk & Hv). apply lookup_lt_Some in Hv as Hlen.
    exists (k - Z.to_nat lo)%nat. rewrite lookup_drop. split.
    + replace (Z.to_nat (Z.min lo (Z.of_nat (length l))) + (k - Z.to_nat lo))%nat
        with k by lia. exact Hv.
    + lia.
Qed.

Lemma js_set_list_acc (l acc : list Z) :
  NoDup acc ->
  let r := foldl (fun acc v => if decide (v ∈ acc) then acc else acc ++ [v])
             acc l in
  NoDup r /\ forall v, v ∈ r <-> v ∈ acc \/ v ∈ l.
Proof.
  revert acc. induction l as [| a l IH]; intros acc Hnd; cbn.
  - split; [exact Hnd |]. intros v. rewrite elem_of_nil. tauto.
  - destruct (decide (a ∈ acc)) as [Hin | Hnin].
    + destruct (IH acc Hnd) as [N E]. split; [exact N |].
      intros v. rewrite E, elem_of_cons. split; [tauto |].
      intros [? | [-> | ?]]; tauto.
    + assert (Hnd' : NoDup (acc ++ [a])).
      { apply NoDup_app. split; [exact Hnd |]. split.
        - intros v Hv Hv'. apply list_elem_of_singleton in Hv'. subst. tauto.
        - apply NoDup_singleton. }
      destruct (IH (acc ++ [a]) Hnd') as [N E]. split; [exact N |].
      intros v.
      rewrite E, elem_of_app, (elem_of_cons l), list_elem_of_singleton. tauto.
Qed.

(** Decides a membership test [decide (a ∈ l)] in the goal, for a list [l]
    given by its elements, from the equalities and disequalities at hand. *)
Ltac mem_decide :=
  match goal with
  | |- context [decide (?a ∈ ?l)] =>
      first
        [ rewrite (decide_True (P := a ∈ l)) by (repeat constructor)
        | rewrite (decide_False (P := a ∈ l))
            by (let F := fresh "F" in
                intros F;
                repeat (apply elem_of_cons in F as [F | F]; [congruence |]);
                inversion F) ]
  end.

Lemma js_set_list_spec (l : list Z) :
  NoDup (js_set_list l) /\ forall v, v ∈ js_set_list l <-> v ∈ l.
Proof.
  destruct (js_set_list_acc l [] (NoDup_nil_2)) as [N E].
  split; [exact N |]. intros v. unfold js_set_list. rewrite E, elem_of_nil. tauto.
Qed.

(** ** Selection manager *)

(** C8.  A click with the range modifier, in a mode other than draw and with
    an anchor set: the selection becomes the old selection together with the
    identifiers at the positions between the anchor and the clicked index,
    both included, of the current image's region list, without repetition;
    the anchor stays.  In particular, on five regions with distinct
    identifiers, a plain click on the second and a range click on the fourth
    select exactly the second, third and fourth. *)
Theorem range_click_selects_slice :
  (forall (id g a : Z) (e : Modifiers.t) (s : App.t),
      App.annotationMode s <> DrawMode ->
      Modifiers.shiftKey e = true ->
      App.lastSelectedIndex s = Some a ->
      (0 <= a)%Z -> (0 <= g)%Z ->
      let s' := handleSelectRegion id e g s in
      (forall v, v ∈ App.selectedRegions s'
                 <-> v ∈ App.selectedRegions s
                     \/ exists k : nat,
                          (Z.min a g <= Z.of_nat k <= Z.max a g)%Z
                          /\ allRegionIds s !! k = Some v)
      /\ NoDup (App.selectedRegions s')
      /\ App.lastSelectedIndex s' = Some a)
  /\ (forall (r0 r1 r2 r3 r4 : Z) (s : App.t),
         App.annotationMode s <> DrawMode ->
         allRegionIds s = [r0; r1; r2; r3; r4] ->
         NoDup [r0; r1; r2; r3; r4] ->
         App.selectedRegions
           (handleSelectRegion r3 Modifiers.shift 3
              (handleSelectRegion r1 Modifiers.plain 1 s))
         = [r1; r2; r3]).
Proof.
  split.
  - intros id g a e s Hm He Ha Ha0 Hg0 s'. subst s'.
    unfold handleSelectRegion. rewrite He, Ha.
    destruct (App.annotationMode s); try contradiction; app_simpl.
    all: destruct (js_set_list_spec
                     (App.selectedRegions s
                        ++ js_slice (allRegionIds s) (Z.min a g) (Z.max a g + 1)))
           as [N E].
    all: split; [| split; [exact N | exact Ha]].
    all: intros v; rewrite E, elem_of_app, js_slice_range by lia; reflexivity.
  - intros r0 r1 r2 r3 r4 s Hm Hids Hnd.
    assert (D : r1 <> r2 /\ r1 <> r3 /\ r2 <> r3).
    { apply NoDup_cons in Hnd as [_ Hnd].
      apply NoDup_cons in Hnd as [H1 Hnd].
      apply NoDup_cons in Hnd as [H2 _].
      repeat split; intros ->; [apply H1 | apply H1 | apply H2];
        repeat constructor. }
    destruct D as (D12 & D13 & D23).
    assert (E1 : handleSelectRegion r1 Modifiers.plain 1 s
                 = App.setLastSelectedIndex (Some 1%Z)
                     (App.setSelectedRegions [r1] s)).
    { unfold handleSelectRegion.
      destruct (App.annotationMode s); try contradiction; reflexivity. }
    rewrite E1. unfold handleSelectRegion. app_simpl.
    change (allRegionIds _) with (allRegionIds s). rewrite Hids.
    change (js_slice [r0; r1; r2; r3; r4] (Z.min 1 3) (Z.max 1 3 + 1))
      with [r1; r2; r3].
    destruct (App.annotationMode s); try contradiction; app_simpl;
      cbn; unfold js_set_list; cbn.
    all: repeat (mem_decide; cbn).
    all: reflexivity.
Qed.

Lemma range_click_selects_slice_witness :
  App.selectedRegions
    (handleSelectRegion 13 Modifiers.shift 3
       (handleSelectRegion 11 Modifiers.plain 1 rangeScenario))
  = [11; 12; 13]%Z.
Proof.
  apply (proj2 range_click_selects_slice 10 11 12 13 14 rangeScenario)%Z.
  - discriminate.
  - reflexivity.
  - repeat (apply NoDup_cons; split;
            [rewrite ?elem_of_cons, ?elem_of_nil; lia |]).
    apply NoDup_nil_2.
Defined.

(** ** Bulk operations *)

Lemma updateRegions_commits fn s img :
  currentImage s = Some img ->
  commits s (updateRegions fn s) img
    (fn (regionsOf (App.regions s) (Image.id img))).
Proof.
  intros Hi. unfold commits, updateRegions. rewrite Hi. app_simpl.
  split; [apply regionsOf_insert |]. split; [| reflexivity].
  intros k Hk. rewrite lookup_insert_ne; done.
Qed.

Lemma length_pos_ltb {A} (l : list A) : l <> [] -> (0 <? length l)%nat = true.
Proof. destruct l; [congruence | reflexivity]. Qed.

(** C9, as the code has it.  With an image displayed and a non-empty
    selection, each bulk operation rewrites the current image's list at every
    region whose identifier is selected (approve and flag set the status,
    change-label the label, delete removes the region), leaves the other
    regions and the other images as they were, and commits the result with
    one call of [saveToHistory].  Approve, delete and change-label then
    empty the selection; flag alone leaves it as it was. *)
Theorem bulk_operations (s : App.t) (img : Image.t) (newLabel : string) :
  currentImage s = Some img ->
  App.selectedRegions s <> [] ->
  let sel := App.selectedRegions s in
  let old := regionsOf (App.regions s) (Image.id img) in
  (commits s (handleApprove s) img
     (map (fun r => if isSelected sel r then withStatus Approved r else r) old)
   /\ App.selectedRegions (handleApprove s) = [])
  /\ (commits s (handleFlag s) img
        (map (fun r => if isSelected sel r then withStatus Flagged r else r) old)
      /\ App.selectedRegions (handleFlag s) = sel)
  /\ (commits s (handleDelete s) img
        (filter (fun r => Region.id r ∉ sel) old)
      /\ App.selectedRegions (handleDelete s) = [])
  /\ (commits s (handleBulkChangeLabel newLabel s) img
        (map (fun r => if isSelected sel r then withLabel newLabel r else r) old)
      /\ App.selectedRegions (handleBulkChangeLabel newLabel s) = []).
Proof.
  intros Hi Hsel sel old.
  pose proof (length_pos_ltb _ Hsel) as Hlen.
  unfold handleApprove, handleFlag, handleDelete, handleBulkChangeLabel.
  rewrite Hlen. fold sel.
  repeat split; app_simpl;
    try (apply (updateRegions_commits _ s img Hi)).
  - unfold updateRegions. rewrite Hi. reflexivity.
  - pose proof (updateRegions_commits
                  (filter (fun r => isSelected sel r = false)) s img Hi) as C.
    destruct C as [C _]. rewrite C. fold old.
    apply list_filter_iff. intros r. unfold isSelected.
    rewrite bool_decide_eq_false. reflexivity.
Qed.

Lemma bulk_operations_witness :
  App.selectedRegions (handleFlag bulkScenario) = [10%Z]
  /\ App.selectedRegions (handleDelete bulkScenario) = []
  /\ map Region.status (regionsOf (App.regions (handleApprove bulkScenario)) "img_1")
     = [Approved; Auto].
Proof.
  destruct (bulk_operations bulkScenario (Image.mk "img_1" "a.png" 1000 500)
              "bus" eq_refl ltac:(discriminate))
    as ((Ca & _) & (_ & Sf) & (_ & Sd) & _).
  split; [exact Sf |]. split; [exact Sd |].
  destruct Ca as [Ca _]. cbv zeta in Ca. cbn [Image.id] in Ca.
  rewrite Ca. reflexivity.
Defined.

(** C9 as stated fails: approve and change-label empty a non-empty
    selection. *)
Lemma bulk_approve_clears_selection :
  App.selectedRegions bulkScenario = [10%Z]
  /\ App.selectedRegions (handleApprove bulkScenario) = []
  /\ App.selectedRegions (handleBulkChangeLabel "bus" bulkScenario) = [].
Proof. repeat split. Qed.

(** ** All-images detection *)

Lemma detectAll_step_outcome clock run acc img :
  detectAll_step clock run acc img
  = let k := S (DetectAll.processedCount acc) in
    match requestOutcome clock run k img with
    | Some regs =>
        DetectAll.mk (DetectAll.totalDetected acc + length regs) k
          (<[Image.id img := regs]> (DetectAll.allNewRegions acc))
    | None =>
        DetectAll.mk (DetectAll.totalDetected acc) k
          (DetectAll.allNewRegions acc)
    end.
Proof.
  unfold detectAll_step, requestOutcome.
  destruct (run _ img); reflexivity.
Qed.

Lemma outcomes_cons clock run done img imgs :
  outcomes clock run done (img :: imgs)
  = requestOutcome clock run (S done) img :: outcomes clock run (S done) imgs.
Proof.
  unfold outcomes. cbn. f_equal.
  - f_equal. lia.
  - apply imap_ext. intros k x _. cbn. f_equal. lia.
Qed.

Lemma detectAll_fold clock run imgs : forall acc,
  let final := foldl (detectAll_step clock run) acc imgs in
  let out := outcomes clock run (DetectAll.processedCount acc) imgs in
  DetectAll.totalDetected final
  = (DetectAll.totalDetected acc + totalObjects out)%nat
  /\ (forall i, i ∉ map Image.id imgs ->
                DetectAll.allNewRegions final !! i
                = DetectAll.allNewRegions acc !! i)
  /\ (NoDup (map Image.id imgs) ->
      forall k img, imgs !! k = Some img ->
        DetectAll.allNewRegions final !! Image.id img
        = match requestOutcome clock run
                  (DetectAll.processedCount acc + S k) img with
          | Some regs => Some regs
          | None => DetectAll.allNewRegions acc !! Image.id img
          end).
Proof.
  induction imgs as [| img imgs IH]; intros acc; cbn zeta.
  - cbn. repeat split; [unfold totalObjects; cbn; lia | intros _ k img H; inversion H].
  - cbn [foldl]. rewrite outcomes_cons.
    destruct (IH (detectAll_step clock run acc img)) as (Ht & Hout & Hin).
    assert (Hpc : DetectAll.processedCount (detectAll_step clock run acc img)
                  = S (DetectAll.processedCount acc)).
    { rewrite detectAll_step_outcome. cbn zeta.
      destruct (requestOutcome _ _ _ _); reflexivity. }
    rewrite Hpc in Ht, Hin.
    split; [| split].
    + rewrite Ht. unfold totalObjects at 2. cbn [map sum_list].
      fold (totalObjects (outcomes clock run (S (DetectAll.processedCount acc)) imgs)).
      rewrite detectAll_step_outcome. cbn zeta.
      destruct (requestOutcome _ _ (S _) img); cbn; lia.
    + intros i Hi. cbn [map] in Hi. rewrite not_elem_of_cons in Hi.
      destruct Hi as [Hne Hi]. rewrite (Hout i Hi).
      rewrite detectAll_step_outcome. cbn zeta.
      destruct (requestOutcome _ _ (S _) img); cbn; [| reflexivity].
      rewrite lookup_insert_ne; done.
    + intros Hnd k img' Hk. cbn [map] in Hnd.
      apply NoDup_cons in Hnd as [Hfresh Hnd].
      destruct k as [| k]; cbn in Hk.
      * injection Hk as <-. rewrite (Hout _ Hfresh).
        replace (DetectAll.processedCount acc + 1)%nat
          with (S (DetectAll.processedCount acc)) by lia.
        rewrite detectAll_step_outcome. cbn zeta.
        destruct (requestOutcome _ _ (S _) img); cbn; [| reflexivity].
        apply lookup_insert_eq.
      * rewrite (Hin Hnd k img' Hk).
        replace (DetectAll.processedCount acc + S (S k))%nat
          with (S (DetectAll.processedCount acc) + S k)%nat by lia.
        destruct (requestOutcome _ _ _ img'); [reflexivity |].
        assert (Hne : Image.id img <> Image.id img').
        { intros E. apply Hfresh. rewrite E.
          apply list_elem_of_fmap. exists img'. split; [reflexivity |].
          apply list_elem_of_lookup. eauto. }
        rewrite detectAll_step_outcome. cbn zeta.
        destruct (requestOutcome _ _ (S _) img); cbn; [| reflexivity].
        rewrite lookup_insert_ne; done.
Qed.

Lemma detectAll_lookup clock run s :
  NoDup (map Image.id (App.images s)) ->
  let s' := executeDetectAll clock run s in
  (forall k img, App.images s !! k = Some img ->
     App.regions s' !! Image.id img
     = match requestOutcome clock run (S k) img with
       | Some regs => Some regs
       | None => App.regions s !! Image.id img
       end)
  /\ (forall i, i ∉ map Image.id (App.images s) ->
                App.regions s' !! i = App.regions s !! i).
Proof.
  intros Hnd s'. subst s'. unfold executeDetectAll. app_simpl.
  destruct (detectAll_fold clock run (App.images s) (DetectAll.mk 0 0 ∅))
    as (_ & Hout & Hin).
  cbn [DetectAll.totalDetected DetectAll.processedCount
       DetectAll.allNewRegions] in *.
  split.
  - intros k img Hk. specialize (Hin Hnd k img Hk). cbn in Hin.
    rewrite lookup_union, Hin.
    destruct (requestOutcome clock run (S k) img) as [regs |].
    + destruct (App.regions s !! Image.id img); reflexivity.
    + rewrite lookup_empty. destruct (App.regions s !! Image.id img); reflexivity.
  - intros i Hi. rewrite lookup_union, (Hout i Hi), lookup_empty.
    destruct (App.regions s !! i); reflexivity.
Qed.

(** C6, as the code has it.  In an all-images run over images with distinct
    identifiers, the image of a request that throws keeps its entry of the
    mapping and the run goes on; the image of a request that succeeds gets
    the decoded regions; entries of other identifiers stay.  The merged
    mapping is committed with one call of [saveToHistory].  The report
    carries the number of objects of the succeeded requests and the number
    of all images of the project. *)
Theorem detectAll_partial_failure (clock : nat -> Z)
    (run : nat -> Image.t -> option (list RawDet.t)) (s : App.t) :
  NoDup (map Image.id (App.images s)) ->
  let s' := executeDetectAll clock run s in
  (forall k img, App.images s !! k = Some img ->
     App.regions s' !! Image.id img
     = match requestOutcome clock run (S k) img with
       | Some regs => Some regs
       | None => App.regions s !! Image.id img
       end)
  /\ (forall i, i ∉ map Image.id (App.images s) ->
                App.regions s' !! i = App.regions s !! i)
  /\ App.hist s' = saveToHistory (App.hist s) (App.regions s')
  /\ App.toast s'
     = Some (ToastCompleted
               (totalObjects (outcomes clock run 0 (App.images s)))
               (length (App.images s))).
Proof.
  intros Hnd s'.
  destruct (detectAll_lookup clock run s Hnd) as [Hin Hout].
  split; [exact Hin |]. split; [exact Hout |].
  subst s'. unfold executeDetectAll. app_simpl.
  destruct (detectAll_fold clock run (App.images s) (DetectAll.mk 0 0 ∅))
    as (Ht & _ & _).
  cbn [DetectAll.totalDetected DetectAll.processedCount] in Ht.
  split; [reflexivity |]. rewrite Ht. reflexivity.
Qed.

Lemma detectAll_partial_failure_witness :
  let s' := executeDetectAll (fun _ => 1000%Z) detectAllService detectAllScenario in
  App.regions s' !! "img_2" = None
  /\ App.toast s' = Some (ToastCompleted 2 3).
Proof.
  destruct (detectAll_partial_failure (fun _ => 1000%Z) detectAllService
              detectAllScenario)
    as (Hk & _ & _ & Ht).
  - repeat (apply NoDup_cons; split;
            [rewrite ?elem_of_cons, ?elem_of_nil;
             intros F; repeat destruct F as [F | F]; discriminate || exact F |]).
    apply NoDup_nil_2.
  - split.
    + exact (Hk 1%nat (Image.mk "img_2" "b.png" 1000 500) eq_refl).
    + exact Ht.
Defined.

(** C6 as stated fails: with three images of which the second request
    throws, two requests succeed but the report names three images. *)
Lemma detectAll_reports_all_images :
  let out := outcomes (fun _ => 1000%Z) detectAllService 0 detectAllImages in
  succeededCount out = 2%nat
  /\ App.toast (executeDetectAll (fun _ => 1000%Z) detectAllService
                  detectAllScenario)
     = Some (ToastCompleted 2 3)
  /\ 3%nat <> succeededCount out.
Proof. repeat split. discriminate. Qed.

(** ** Gestures and the history *)

Lemma mouseMove_hist c s : App.hist (handleCanvasMouseMove c s) = App.hist s.
Proof.
  unfold handleCanvasMouseMove.
  repeat match goal with
         | |- context [match ?t with _ => _ end] => destruct t
         end; reflexivity.
Qed.

Lemma mouseMove_isDragging c s :
  Drag.isDragging (App.drag (handleCanvasMouseMove c s))
  = Drag.isDragging (App.drag s).
Proof.
  unfold handleCanvasMouseMove.
  destruct (currentImage s); [| reflexivity].
  destruct (Draw.isDrawing (App.draw s)); [reflexivity |].
  destruct (Drag.isDragging (App.drag s)) eqn:E,
    (idTruthy (Drag.dragRegionId (App.drag s)));
    try (app_simpl; rewrite E; reflexivity).
  all: destruct (Resize.isResizing (App.resize s)),
         (idTruthy (Resize.resizeRegionId (App.resize s))),
         (Resize.resizeHandle (App.resize s)),
         (Resize.resizeStart (App.resize s)); try (rewrite E; reflexivity).
  all: destruct (js_find _ _); app_simpl; rewrite E; reflexivity.
Qed.

Lemma mouseMove_isResizing c s :
  Resize.isResizing (App.resize (handleCanvasMouseMove c s))
  = Resize.isResizing (App.resize s).
Proof.
  unfold handleCanvasMouseMove.
  destruct (currentImage s); [| reflexivity].
  destruct (Draw.isDrawing (App.draw s)); [reflexivity |].
  destruct (Drag.isDragging (App.drag s)),
    (idTruthy (Drag.dragRegionId (App.drag s))); try reflexivity.
  all: destruct (Resize.isResizing (App.resize s)) eqn:E,
         (idTruthy (Resize.resizeRegionId (App.resize s))),
         (Resize.resizeHandle (App.resize s)),
         (Resize.resizeStart (App.resize s)); try (rewrite E; reflexivity).
  all: destruct (js_find _ _); [reflexivity | rewrite E; reflexivity].
Qed.

Lemma afterMoves_keeps moves : forall s,
  App.hist (afterMoves moves s) = App.hist s
  /\ Drag.isDragging (App.drag (afterMoves moves s))
     = Drag.isDragging (App.drag s)
  /\ Resize.isResizing (App.resize (afterMoves moves s))
     = Resize.isResizing (App.resize s).
Proof.
  induction moves as [| c moves IH]; intros s; [repeat split |].
  cbn. destruct (IH (handleCanvasMouseMove c s)) as (Hh & Hd & Hr).
  fold (afterMoves moves (handleCanvasMouseMove c s)).
  rewrite Hh, Hd, Hr, mouseMove_hist, mouseMove_isDragging,
    mouseMove_isResizing. repeat split.
Qed.

Lemma mouseUp_gesture now s :
  Drag.isDragging (App.drag s) = true
  \/ Resize.isResizing (App.resize s) = true ->
  App.hist (handleCanvasMouseUp now s)
  = saveToHistory (App.hist s) (App.regions s)
  /\ Drag.isDragging (App.drag (handleCanvasMouseUp now s)) = false
  /\ Resize.isResizing (App.resize (handleCanvasMouseUp now s)) = false.
Proof.
  intros Hg. unfold handleCanvasMouseUp.
  destruct (Drag.isDragging (App.drag s)) eqn:Ed,
    (Resize.isResizing (App.resize s)) eqn:Er;
    [| | | destruct Hg; discriminate]; app_simpl.
  1, 2, 3: repeat split.
  all: destruct (Draw.isDrawing (App.draw s)), (Draw.drawStart (App.draw s)),
         (Draw.drawCurrent (App.draw s)), (currentImage s);
    try (rewrite ?Ed, ?Er; reflexivity).
  all: destruct (drawnRegion _ _ _ _ _); app_simpl; rewrite ?Ed, ?Er; reflexivity.
Qed.

Lemma saveToHistory_top hs r :
  let hs' := saveToHistory hs r in
  History.historyIndex hs' = (Z.of_nat (length (History.history hs')) - 1)%Z
  /\ last (History.history hs') = Some r.
Proof.
  unfold saveToHistory. cbn [History.history History.historyIndex].
  split; [reflexivity |].
  set (pre := js_slice (History.history hs) 0 (History.historyIndex hs + 1)).
  destruct (Nat.ltb_spec 50 (length (pre ++ [r]))) as [Hlt | _];
    [| apply last_snoc].
  destruct pre as [| a pre]; [cbn in Hlt; lia |].
  cbn [app tail]. apply last_snoc.
Qed.

Lemma js_slice_0_all {A} (l : list A) :
  js_slice l 0 (Z.of_nat (length l) - 1 + 1) = l.
Proof.
  unfold js_slice. cbn [Z.ltb Z.compare].
  destruct (Z.ltb_spec (Z.of_nat (length l) - 1 + 1) 0) as [? | _]; [lia |].
  rewrite Z.min_l by lia. cbn [Z.to_nat drop].
  rewrite Z.min_l by lia.
  apply firstn_all2. lia.
Qed.

Lemma saveToHistory_grows hs r :
  History.historyIndex hs = (Z.of_nat (length (History.history hs)) - 1)%Z ->
  (length (History.history hs) < 50)%nat ->
  History.history (saveToHistory hs r) = History.history hs ++ [r].
Proof.
  intros Htop Hlen. unfold saveToHistory. cbn [History.history].
  rewrite Htop, js_slice_0_all.
  destruct (Nat.ltb_spec 50 (length (History.history hs ++ [r]))) as [Hlt | _];
    [| reflexivity].
  rewrite length_app in Hlt. cbn in Hlt. lia.
Qed.

Lemma saveToHistory_length hs r :
  (-1 <= History.historyIndex hs < Z.of_nat (length (History.history hs)))%Z ->
  (length (History.history hs) <= 50)%nat ->
  Z.of_nat (length (History.history (saveToHistory hs r)))
  = Z.min (History.historyIndex hs + 2) 50.
Proof.
  intros Hp H50. unfold saveToHistory. cbn [History.history].
  assert (Hl : length (js_slice (History.history hs) 0
                         (History.historyIndex hs + 1))
               = Z.to_nat (History.historyIndex hs + 1)).
  { unfold js_slice. cbn [Z.ltb Z.compare].
    destruct (Z.ltb_spec (History.historyIndex hs + 1) 0) as [? | _]; [lia |].
    rewrite (Z.min_l 0) by lia. change (Z.to_nat 0) with 0%nat.
    rewrite drop_0, length_take. lia. }
  set (pre := js_slice _ _ _) in *.
  destruct (Nat.ltb_spec 50 (length (pre ++ [r]))) as [Hlt | Hle];
    rewrite length_app in *; cbn [length] in *.
  - destruct pre as [| a pre]; [cbn in Hlt; lia |].
    cbn [app tail]. rewrite length_app. cbn [length] in *. lia.
  - lia.
Qed.

(** C5, as the code has it.  In a drag or resize gesture no pointer-move
    writes the history: after any number of moves the history cells are
    those of the start of the gesture.  The pointer-up that ends the gesture
    writes them once, as one call of [saveToHistory] on the history of the
    start with the regions the moves produced: the new entry is on top, the
    pointer is on it, and the gesture flags are off.  With the pointer on
    top of a stack below its capacity, the stack is the old one with that
    one entry appended.  In general, with the pointer at position [p] of
    a stack of at most 50 entries, the stack has [min (p + 2) 50] entries
    afterwards.  A gesture that the Escape key ends is not committed: the
    flags are off, the regions the moves produced stay in the mapping, the
    history is that of the start, and a pointer-up that follows leaves it
    so. *)
Theorem gesture_single_snapshot (now : Z) (moves : list Point.t) (s : App.t) :
  Drag.isDragging (App.drag s) = true
  \/ Resize.isResizing (App.resize s) = true ->
  let mid := afterMoves moves s in
  let s' := handleCanvasMouseUp now mid in
  (forall n, App.hist (afterMoves (take n moves) s) = App.hist s)
  /\ App.hist s' = saveToHistory (App.hist s) (App.regions mid)
  /\ last (History.history (App.hist s')) = Some (App.regions mid)
  /\ History.historyIndex (App.hist s')
     = (Z.of_nat (length (History.history (App.hist s'))) - 1)%Z
  /\ Drag.isDragging (App.drag s') = false
  /\ Resize.isResizing (App.resize s') = false
  /\ (History.historyIndex (App.hist s)
      = (Z.of_nat (length (History.history (App.hist s))) - 1)%Z ->
      (length (History.history (App.hist s)) < 50)%nat ->
      History.history (App.hist s')
      = History.history (App.hist s) ++ [App.regions mid])
  /\ ((-1 <= History.historyIndex (App.hist s)
        < Z.of_nat (length (History.history (App.hist s))))%Z ->
      (length (History.history (App.hist s)) <= 50)%nat ->
      Z.of_nat (length (History.history (App.hist s')))
      = Z.min (History.historyIndex (App.hist s) + 2) 50)
  /\ (let esc := onKeyEscape mid in
      App.hist esc = App.hist s
      /\ App.regions esc = App.regions mid
      /\ Drag.isDragging (App.drag esc) = false
      /\ Resize.isResizing (App.resize esc) = false
      /\ App.hist (handleCanvasMouseUp now esc) = App.hist s).
Proof.
  intros Hg mid s'.
  destruct (afterMoves_keeps moves s) as (Hh & Hd & Hr). fold mid in Hh, Hd, Hr.
  assert (Hg' : Drag.isDragging (App.drag mid) = true
                \/ Resize.isResizing (App.resize mid) = true)
    by (rewrite Hd, Hr; exact Hg).
  destruct (mouseUp_gesture now mid Hg') as (Hs & Hd' & Hr').
  fold s' in Hs, Hd', Hr'. rewrite Hh in Hs.
  split; [intros n; apply afterMoves_keeps |].
  split; [exact Hs |].
  destruct (saveToHistory_top (App.hist s) (App.regions mid)) as [Ht Hl].
  cbv zeta in Ht, Hl. rewrite <- Hs in Ht, Hl.
  split; [exact Hl |]. split; [exact Ht |].
  split; [exact Hd' |]. split; [exact Hr' |].
  split; [intros Htop Hlen; rewrite Hs; apply saveToHistory_grows; assumption |].
  split; [intros Hp H50; rewrite Hs; apply saveToHistory_length; assumption |].
  cbv zeta. rewrite <- Hh.
  unfold handleCanvasMouseUp, onKeyEscape. cbn. repeat split; reflexivity.
Qed.

Lemma gesture_single_snapshot_witness :
  let moves := [Point.mk 40 40; Point.mk 80 60; Point.mk 120 90] in
  let mid := afterMoves moves dragScenario in
  History.history (App.hist (handleCanvasMouseUp 1 mid))
  = [bulkRegions; App.regions mid].
Proof.
  intros moves mid.
  destruct (gesture_single_snapshot 1 moves dragScenario (or_introl eq_refl))
    as (_ & _ & _ & _ & _ & _ & Hgrow).
  apply Hgrow; [reflexivity | cbn; lia].
Defined.

(** C5 as stated fails: a completed gesture does not always make the stack
    one entry longer.  With 50 entries the pointer-up evicts the oldest and
    the stack stays at 50; with the pointer on the second of five entries
    it drops the three entries above the pointer and the stack shrinks to
    3. *)
Lemma gesture_on_full_or_undone_stack :
  let up s := handleCanvasMouseUp 1 (afterMoves [Point.mk 40 40] s) in
  length (History.history (App.hist fullHistoryDrag)) = 50%nat
  /\ length (History.history (App.hist (up fullHistoryDrag))) = 50%nat
  /\ length (History.history (App.hist undoneHistoryDrag)) = 5%nat
  /\ length (History.history (App.hist (up undoneHistoryDrag))) = 3%nat.
Proof. vm_compute. repeat split. Qed.

(** ** Undo and redo *)

(** The committing handlers write the region mapping and the history as
    [commit] does. *)
Lemma updateRegions_commit fn s img :
  currentImage s = Some img ->
  updateRegions fn s
  = commit (<[Image.id img := fn (regionsOf (App.regions s) (Image.id img))]>
              (App.regions s)) s.
Proof. intros H. unfold updateRegions. rewrite H. reflexivity. Qed.

Lemma executeDetect_commit now dets s img :
  currentImage s = Some img ->
  executeDetect now (Some dets) s
  = App.showToast (ToastObjectsDetected (length (imap (detToRegion now) dets)))
      (commit (<[Image.id img := imap (detToRegion now) dets]> (App.regions s)) s).
Proof. intros H. unfold executeDetect. rewrite H. reflexivity. Qed.

Lemma executeDetectAll_commit clock run s :
  exists total newRegions,
    executeDetectAll clock run s
    = App.showToast (ToastCompleted total (length (App.images s)))
        (commit newRegions s).
Proof. eexists _, _. reflexivity. Qed.

Lemma handleUndo_history s :
  History.history (App.hist (handleUndo s)) = History.history (App.hist s).
Proof.
  unfold handleUndo. destruct (0 <? _)%Z; [| reflexivity].
  destruct (_ !! _); reflexivity.
Qed.

Lemma handleUndo_at_bottom s :
  (History.historyIndex (App.hist s) <= 0)%Z -> handleUndo s = s.
Proof.
  intros H. unfold handleUndo.
  destruct (Z.ltb_spec 0 (History.historyIndex (App.hist s))); [lia | reflexivity].
Qed.

Lemma undo_pointsAt s pre l j :
  pointsAt s pre l (S j) -> pointsAt (handleUndo s) pre l j.
Proof.
  intros (Hh & Hi & Hl). unfold handleUndo. rewrite Hi, Hh.
  destruct (Z.ltb_spec 0 (Z.of_nat (length pre + S j))) as [_ | ?]; [| lia].
  replace (Z.to_nat (Z.of_nat (length pre + S j) - 1))
    with (length pre + j)%nat by lia.
  rewrite lookup_app_r by lia.
  replace (length pre + j - length pre)%nat with j by lia.
  apply lookup_lt_Some in Hl as Hlen.
  destruct (lookup_lt_is_Some_2 l j ltac:(lia)) as [snap Hs].
  rewrite Hs. unfold pointsAt. app_simpl. cbn.
  split; [reflexivity |]. split; [lia | exact Hs].
Qed.

Lemma redo_pointsAt s pre l j :
  pointsAt s pre l j -> (S j < length l)%nat ->
  pointsAt (handleRedo s) pre l (S j).
Proof.
  intros (Hh & Hi & Hl) Hlen. unfold handleRedo. rewrite Hi, Hh.
  rewrite length_app.
  destruct (Z.ltb_spec (Z.of_nat (length pre + j))
              (Z.of_nat (length pre + length l) - 1)) as [_ | ?]; [| lia].
  destruct (Z.ltb_spec (Z.of_nat (length pre + j) + 1) 0) as [? | _]; [lia |].
  replace (Z.to_nat (Z.of_nat (length pre + j) + 1))
    with (length pre + S j)%nat by lia.
  rewrite lookup_app_r by lia.
  replace (length pre + S j - length pre)%nat with (S j) by lia.
  destruct (lookup_lt_is_Some_2 l (S j) Hlen) as [snap Hs].
  rewrite Hs. unfold pointsAt. app_simpl. cbn.
  split; [reflexivity |]. split; [lia | exact Hs].
Qed.

Lemma undo_iter n : forall s pre l j,
  pointsAt s pre l (j + n) -> pointsAt (Nat.iter n handleUndo s) pre l j.
Proof.
  induction n as [| n IH]; intros s pre l j H; cbn.
  - rewrite Nat.add_0_r in H. exact H.
  - apply undo_pointsAt. apply IH.
    replace (S j + n)%nat with (j + S n)%nat by lia. exact H.
Qed.

Lemma redo_iter n : forall s pre l j,
  pointsAt s pre l j -> (j + n < length l)%nat ->
  pointsAt (Nat.iter n handleRedo s) pre l (j + n).
Proof.
  induction n as [| n IH]; intros s pre l j H Hlen; cbn.
  - rewrite Nat.add_0_r. exact H.
  - replace (j + S n)%nat with (S (j + n)) by lia.
    apply redo_pointsAt; [apply IH; [exact H | lia] | lia].
Qed.

Lemma saveToHistory_stackEnds hs pre l r :
  js_slice (History.history hs) 0 (History.historyIndex hs + 1) = pre ++ l ->
  (length l < 50)%nat ->
  stackEnds (saveToHistory hs r) (l ++ [r]).
Proof.
  intros Hs Hlen. unfold saveToHistory, stackEnds.
  cbn [History.history History.historyIndex]. rewrite Hs.
  destruct (Nat.ltb_spec 50 (length ((pre ++ l) ++ [r]))) as [Hlt | _].
  - destruct pre as [| a pre].
    + cbn in Hlt. rewrite length_app in Hlt. cbn in Hlt. lia.
    + exists pre. cbn [app tail]. rewrite <- app_assoc. split; reflexivity.
  - exists pre. rewrite <- app_assoc. split; reflexivity.
Qed.

Lemma stackEnds_slice hs l :
  stackEnds hs l ->
  exists pre,
    js_slice (History.history hs) 0 (History.historyIndex hs + 1) = pre ++ l.
Proof.
  intros (pre & Hh & Hi). exists pre. rewrite Hi, js_slice_0_all. exact Hh.
Qed.

Lemma commits_stackEnds rs : forall s l,
  stackEnds (App.hist s) l -> last l = Some (App.regions s) ->
  (length l + length rs <= 50)%nat ->
  let s1 := foldl (fun st r => commit r st) s rs in
  stackEnds (App.hist s1) (l ++ rs) /\ last (l ++ rs) = Some (App.regions s1).
Proof.
  induction rs as [| r rs IH]; intros s l Hst Hlast Hlen; cbn zeta.
  - cbn. rewrite app_nil_r. split; assumption.
  - cbn [foldl]. cbn [length] in Hlen.
    destruct (stackEnds_slice _ _ Hst) as [pre Hs].
    pose proof (saveToHistory_stackEnds (App.hist s) pre l r Hs ltac:(lia)) as H1.
    destruct (IH (commit r s) (l ++ [r])) as [H2 H3].
    + exact H1.
    + rewrite last_snoc. reflexivity.
    + rewrite length_app. cbn. lia.
    + rewrite <- app_assoc in H2, H3. split; assumption.
Qed.

Lemma synced_slice (hs : History.t) (cur : Regions) :
  (0 <= History.historyIndex hs)%Z ->
  History.history hs !! Z.to_nat (History.historyIndex hs) = Some cur ->
  exists pre,
    js_slice (History.history hs) 0 (History.historyIndex hs + 1)
    = pre ++ [cur].
Proof.
  intros Hi Hl. apply lookup_lt_Some in Hl as Hlen.
  exists (take (Z.to_nat (History.historyIndex hs)) (History.history hs)).
  unfold js_slice. cbn [Z.ltb Z.compare].
  destruct (Z.ltb_spec (History.historyIndex hs + 1) 0) as [? | _]; [lia |].
  rewrite Z.min_l by lia. cbn [Z.to_nat drop].
  rewrite Z.min_l by lia.
  replace (Z.to_nat (History.historyIndex hs + 1 - 0))
    with (S (Z.to_nat (History.historyIndex hs))) by lia.
  apply take_S_r. exact Hl.
Qed.

(** C2, as the code has it.  From a state whose region mapping is the
    snapshot under the pointer, after [N] committed mutations with [N] below
    the capacity of 50, [N] undos restore the mapping of before the
    mutations and [N] redos then restore the mapping of after them; neither
    changes the stack.  An undo with the pointer at 0 (or on the empty
    stack) does nothing, and an undo never writes the stack. *)
Theorem undo_redo_restores :
  (forall (s : App.t) (rs : list Regions),
      (0 <= History.historyIndex (App.hist s))%Z ->
      History.history (App.hist s)
        !! Z.to_nat (History.historyIndex (App.hist s))
      = Some (App.regions s) ->
      (length rs < 50)%nat ->
      let N := length rs in
      let s1 := foldl (fun st r => commit r st) s rs in
      let s2 := Nat.iter N handleUndo s1 in
      let s3 := Nat.iter N handleRedo s2 in
      App.regions s2 = App.regions s
      /\ App.regions s3 = App.regions s1
      /\ History.history (App.hist s2) = History.history (App.hist s1)
      /\ History.history (App.hist s3) = History.history (App.hist s1))
  /\ (forall s, (History.historyIndex (App.hist s) <= 0)%Z -> handleUndo s = s)
  /\ (forall s, History.history (App.hist (handleUndo s))
                = History.history (App.hist s)).
Proof.
  split; [| split; [exact handleUndo_at_bottom | exact handleUndo_history]].
  intros s rs Hi Hl Hlen N s1 s2 s3.
  destruct rs as [| r rs]; [repeat split |].
  assert (H1 : stackEnds (App.hist s1) (App.regions s :: r :: rs)
               /\ last (App.regions s :: r :: rs) = Some (App.regions s1)).
  { destruct (synced_slice _ _ Hi Hl) as [pre Hs].
    pose proof (saveToHistory_stackEnds (App.hist s) pre [App.regions s] r Hs
                  ltac:(cbn; lia)) as Hst.
    apply (commits_stackEnds rs (commit r s) [App.regions s; r] Hst eq_refl).
    cbn in Hlen |- *. lia. }
  destruct H1 as [(pre & Hh & Hidx) Hlast].
  set (l := App.regions s :: r :: rs) in *.
  assert (P1 : pointsAt s1 pre l (0 + N)).
  { split; [exact Hh |]. split.
    - rewrite Hidx, Hh, length_app. subst l N. cbn [length]. lia.
    - rewrite last_lookup in Hlast. subst l N. exact Hlast. }
  pose proof (undo_iter N s1 pre l 0 P1) as P2. fold s2 in P2.
  assert (P3 : pointsAt s3 pre l (0 + N)).
  { apply redo_iter; [exact P2 | subst l N; cbn [length]; lia]. }
  destruct P1 as (_ & _ & L1), P2 as (Hh2 & _ & L2), P3 as (Hh3 & _ & L3).
  change (l !! 0%nat) with (Some (App.regions s)) in L2.
  rewrite L1 in L3.
  repeat split.
  - injection L2 as L2. symmetry. exact L2.
  - injection L3 as L3. symmetry. exact L3.
  - rewrite Hh2. symmetry. exact Hh.
  - rewrite Hh3. symmetry. exact Hh.
Qed.

Lemma undo_redo_restores_witness :
  let s1 := commit (<["img_1" := []]> bulkRegions) (commit ∅ bulkScenario) in
  App.regions (Nat.iter 2 handleUndo s1) = bulkRegions
  /\ App.regions (Nat.iter 2 handleRedo (Nat.iter 2 handleUndo s1))
     = App.regions s1.
Proof.
  destruct (proj1 undo_redo_restores bulkScenario
              [∅; <["img_1" := []]> bulkRegions])
    as (H2 & H3 & _); [cbn; lia | reflexivity | cbn; lia |].
  split; [exact H2 | exact H3].
Defined.

(** C2 as stated fails from the initial state: the first committed mutation
    puts its snapshot at position 0, where undo does nothing, so the empty
    mapping of before the mutation does not come back. *)
Lemma undo_keeps_first_mutation :
  let s1 := commit bulkRegions App.init in
  App.regions App.init = ∅
  /\ Nat.iter 1 handleUndo s1 = s1
  /\ App.regions (Nat.iter 1 handleUndo s1) <> App.regions App.init.
Proof.
  repeat split. cbn. intros E.
  apply (f_equal (fun m : Regions => m !! "img_1")) in E.
  vm_compute in E. discriminate E.
Qed.

(** ** Image bounds *)

(** Case analysis on the [Qmax], [Qmin] and [Qabs] of the goal and the
    hypotheses, down to linear arithmetic. *)
Ltac qminmax_step :=
  match goal with
  | |- context [Qmax ?a ?b] =>
      destruct (Q.max_spec a b) as [[? ?] | [? ?]];
      generalize dependent (Qmax a b); intros
  | |- context [Qmin ?a ?b] =>
      destruct (Q.min_spec a b) as [[? ?] | [? ?]];
      generalize dependent (Qmin a b); intros
  | _ : context [Qmax ?a ?b] |- _ =>
      destruct (Q.max_spec a b) as [[? ?] | [? ?]];
      generalize dependent (Qmax a b); intros
  | _ : context [Qmin ?a ?b] |- _ =>
      destruct (Q.min_spec a b) as [[? ?] | [? ?]];
      generalize dependent (Qmin a b); intros
  end.

Ltac qminmax := repeat qminmax_step; try lra.

Lemma drawnRegion_inBounds now lbl img ds dc r :
  drawnRegion now lbl img ds dc = Some r -> inBounds img r.
Proof.
  unfold drawnRegion.
  set (w := Qabs _). set (h := Qabs _). set (x := Qmin _ _).
  set (y := Qmin _ _). clearbody w h x y.
  destruct (Qltb 10 w && Qltb 10 h); [| discriminate].
  intros E. injection E as <-. unfold inBounds, clamp.
  cbn [Region.x Region.y Region.w Region.h].
  repeat split; qminmax.
Qed.

Lemma dragRegion_inBounds img p r :
  inBounds img r -> inBounds img (dragRegion img p r).
Proof.
  unfold inBounds, dragRegion, withBox, clamp.
  cbn [Region.x Region.y Region.w Region.h].
  intros (Hx & Hy & Hw & Hh). repeat split; qminmax.
Qed.

Lemma resizeBox_inBounds img hd start p region r :
  inBounds img region ->
  eastSouth hd = true -> resizeRoom img hd region ->
  let b := resizeBox img hd start p region in
  inBounds img (withBox (Box.x b) (Box.y b) (Box.w b) (Box.h b) r).
Proof.
  unfold inBounds, withBox, resizeRoom.
  cbn [Region.x Region.y Region.w Region.h].
  intros (Hx & Hy & Hw & Hh) Hes [He Hs].
  destruct hd; try discriminate Hes; cbn in He, Hs;
    unfold resizeBox, clamp; cbn;
    try specialize (He eq_refl); try specialize (Hs eq_refl);
    repeat split; qminmax.
Qed.

Lemma NoDup_fmap_id_inj (imgs : list Image.t) (a b : Image.t) :
  NoDup (map Image.id imgs) -> a ∈ imgs -> b ∈ imgs ->
  Image.id a = Image.id b -> a = b.
Proof.
  induction imgs as [| c imgs IH]; intros Hnd Ha Hb E.
  - inversion Ha.
  - cbn in Hnd. apply NoDup_cons in Hnd as [Hc Hnd].
    apply elem_of_cons in Ha as [-> | Ha], Hb as [-> | Hb].
    + reflexivity.
    + exfalso. apply Hc. rewrite E. apply list_elem_of_fmap. eauto.
    + exfalso. apply Hc. rewrite <- E. apply list_elem_of_fmap. eauto.
    + apply IH; assumption.
Qed.

Lemma currentImage_elem s img : currentImage s = Some img -> img ∈ App.images s.
Proof. intros H. apply list_elem_of_lookup. eexists. exact H. Qed.

(** Replacing the list of the displayed image by a list inside its bounds
    keeps the mapping inside bounds. *)
Lemma storeInBounds_insert s s' cur newList :
  NoDup (map Image.id (App.images s)) ->
  currentImage s = Some cur ->
  App.images s' = App.images s ->
  App.regions s' = <[Image.id cur := newList]> (App.regions s) ->
  Forall (inBounds cur) newList ->
  storeInBounds s -> storeInBounds s'.
Proof.
  intros Hnd Hcur Himgs Hregs Hnew Hinv img Himg.
  rewrite Himgs in Himg. rewrite Hregs.
  destruct (decide (Image.id cur = Image.id img)) as [E | N].
  - assert (cur = img) as <-.
    { eapply NoDup_fmap_id_inj; eauto using currentImage_elem. }
    rewrite regionsOf_insert. exact Hnew.
  - rewrite regionsOf_insert_ne by exact N. apply Hinv. exact Himg.
Qed.

Lemma storeInBounds_same s s' :
  App.images s' = App.images s -> App.regions s' = App.regions s ->
  storeInBounds s -> storeInBounds s'.
Proof.
  intros Hi Hr Hinv img Himg. rewrite Hr. apply Hinv. rewrite <- Hi. exact Himg.
Qed.

Lemma storeInBounds_current s img :
  storeInBounds s -> currentImage s = Some img ->
  Forall (inBounds img) (regionsOf (App.regions s) (Image.id img)).
Proof. intros Hinv Hc. apply Hinv. apply currentImage_elem. exact Hc. Qed.

Lemma mouseUp_images now s :
  App.images (handleCanvasMouseUp now s) = App.images s.
Proof.
  unfold handleCanvasMouseUp.
  destruct (Resize.isResizing (App.resize s)), (Drag.isDragging (App.drag s)),
    (Draw.isDrawing (App.draw s)), (Draw.drawStart (App.draw s)),
    (Draw.drawCurrent (App.draw s)), (currentImage s);
    try reflexivity; destruct (drawnRegion _ _ _ _ _); reflexivity.
Qed.

Lemma mouseUp_inBounds now s :
  NoDup (map Image.id (App.images s)) -> storeInBounds s ->
  storeInBounds (handleCanvasMouseUp now s).
Proof.
  intros Hnd Hinv.
  pose proof (mouseUp_regions now s) as Hr.
  pose proof (mouseUp_images now s) as Hi.
  destruct (Draw.isDrawing (App.draw s)), (Draw.drawStart (App.draw s)) as [ds |],
    (Draw.drawCurrent (App.draw s)) as [dc |], (currentImage s) as [img |] eqn:Hc;
    try (exact (storeInBounds_same _ _ Hi Hr Hinv)).
  destruct (drawnRegion now (App.defaultLabel s) img ds dc) as [r |] eqn:Hd;
    [| exact (storeInBounds_same _ _ Hi Hr Hinv)].
  apply (storeInBounds_insert s _ img _ Hnd Hc Hi Hr); [| exact Hinv].
  apply Forall_app. split; [exact (storeInBounds_current s img Hinv Hc) |].
  apply Forall_singleton. exact (drawnRegion_inBounds _ _ _ _ _ _ Hd).
Qed.

Lemma js_find_elem {A} (p : A -> bool) (l : list A) (a : A) :
  js_find p l = Some a -> a ∈ l.
Proof.
  unfold js_find. intros H. apply head_Some_elem_of in H.
  apply list_elem_of_filter in H. tauto.
Qed.

Lemma mouseMove_inBounds c s :
  NoDup (map Image.id (App.images s)) -> storeInBounds s ->
  (forall img hd region,
     currentImage s = Some img -> resizeTarget s = Some (hd, region) ->
     eastSouth hd = true /\ resizeRoom img hd region) ->
  storeInBounds (handleCanvasMouseMove c s).
Proof.
  intros Hnd Hinv Hroom. unfold handleCanvasMouseMove.
  destruct (currentImage s) as [img |] eqn:Hc; [| exact Hinv].
  pose proof (storeInBounds_current s img Hinv Hc) as Hcur.
  specialize (Hroom img). unfold resizeTarget in Hroom.
  destruct (Draw.isDrawing (App.draw s));
    [apply (storeInBounds_same s); [reflexivity | reflexivity | exact Hinv] |].
  assert (Hresize :
    (forall hd region,
       match Resize.isResizing (App.resize s),
             idTruthy (Resize.resizeRegionId (App.resize s)),
             Resize.resizeHandle (App.resize s),
             Resize.resizeStart (App.resize s) with
       | true, Some resizeRegionId, Some hd0, Some _ =>
           pair hd0 <$> js_find (hasId resizeRegionId) (currentRegions s)
       | _, _, _, _ => None
       end = Some (hd, region) ->
       eastSouth hd = true /\ resizeRoom img hd region) ->
    storeInBounds
      match Resize.isResizing (App.resize s),
            idTruthy (Resize.resizeRegionId (App.resize s)),
            Resize.resizeHandle (App.resize s),
            Resize.resizeStart (App.resize s) with
      | true, Some resizeRegionId, Some hd, Some resizeStart =>
          match js_find (hasId resizeRegionId) (currentRegions s) with
          | None => s
          | Some region =>
              let imageCoords :=
                canvasToImageCoords (Point.x c) (Point.y c)
                  (Image.width img) (Image.height img) in
              let b := resizeBox img hd resizeStart imageCoords region in
              App.setResize
                (Resize.mk true (Resize.resizeRegionId (App.resize s))
                   (Some hd) (Some imageCoords))
                (App.setRegions
                   (<[Image.id img :=
                        map (fun r =>
                               if hasId resizeRegionId r
                               then withBox (Box.x b) (Box.y b) (Box.w b)
                                      (Box.h b) r
                               else r)
                          (regionsOf (App.regions s) (Image.id img))]>
                      (App.regions s)) s)
          end
      | _, _, _, _ => s
      end).
  { intros Hr.
    destruct (Resize.isResizing (App.resize s)); [| exact Hinv].
    destruct (idTruthy (Resize.resizeRegionId (App.resize s))) as [rid |];
      [| exact Hinv].
    destruct (Resize.resizeHandle (App.resize s)) as [hd |] eqn:Hhd;
      [| exact Hinv].
    destruct (Resize.resizeStart (App.resize s)) as [start |]; [| exact Hinv].
    destruct (js_find (hasId rid) (currentRegions s)) as [region |] eqn:Hf;
      [| exact Hinv].
    apply js_find_elem in Hf as Hin.
    destruct (Hr hd region eq_refl) as [Hes Hrm].
    assert (Hreg : inBounds img region).
    { unfold currentRegions in Hin. rewrite Hc in Hin.
      rewrite Forall_forall in Hcur. apply Hcur. exact Hin. }
    eapply (storeInBounds_insert s _ img);
      [exact Hnd | exact Hc | reflexivity | cbn; reflexivity | | exact Hinv].
    apply Forall_fmap. eapply Forall_impl; [exact Hcur |].
    intros r Hr'. cbn. destruct (hasId rid r); [| exact Hr'].
    apply resizeBox_inBounds; assumption. }
  destruct (Drag.isDragging (App.drag s));
    [| apply Hresize; intros hd region E; apply Hroom; [reflexivity | exact E]].
  destruct (idTruthy (Drag.dragRegionId (App.drag s))) as [did |];
    [| apply Hresize; intros hd region E; apply Hroom; [reflexivity | exact E]].
  eapply (storeInBounds_insert s _ img);
    [exact Hnd | exact Hc | reflexivity | cbn; reflexivity | | exact Hinv].
  apply Forall_fmap. eapply Forall_impl; [exact Hcur |].
  intros r Hr. cbn. destruct (hasId did r); [| exact Hr].
  apply dragRegion_inBounds. exact Hr.
Qed.

Lemma updateRegions_inBounds fn s :
  (forall img l, Forall (inBounds img) l -> Forall (inBounds img) (fn l)) ->
  NoDup (map Image.id (App.images s)) -> storeInBounds s ->
  storeInBounds (updateRegions fn s).
Proof.
  intros Hfn Hnd Hinv. unfold updateRegions.
  destruct (currentImage s) as [img |] eqn:Hc; [| exact Hinv].
  eapply (storeInBounds_insert s _ img);
    [exact Hnd | exact Hc | reflexivity | cbn; reflexivity | | exact Hinv].
  apply Hfn. exact (storeInBounds_current s img Hinv Hc).
Qed.

Lemma map_keeps_box_inBounds (f : Region.t -> Region.t) img l :
  (forall r, inBounds img r -> inBounds img (f r)) ->
  Forall (inBounds img) l -> Forall (inBounds img) (map f l).
Proof.
  intros Hf Hl. apply Forall_fmap. eapply Forall_impl; [exact Hl |].
  intros r Hr. apply Hf. exact Hr.
Qed.

Lemma bulk_inBounds s newLabel :
  NoDup (map Image.id (App.images s)) -> storeInBounds s ->
  storeInBounds (handleApprove s) /\ storeInBounds (handleFlag s)
  /\ storeInBounds (handleDelete s)
  /\ storeInBounds (handleBulkChangeLabel newLabel s).
Proof.
  intros Hnd Hinv.
  unfold handleApprove, handleFlag, handleDelete, handleBulkChangeLabel.
  destruct (0 <? length (App.selectedRegions s))%nat; [| tauto].
  repeat split.
  all: eapply storeInBounds_same;
    [| | apply updateRegions_inBounds; [| exact Hnd | exact Hinv]];
    try reflexivity.
  - intros img l. apply map_keeps_box_inBounds.
    intros r Hr. destruct (isSelected _ r); exact Hr.
  - intros img l. apply map_keeps_box_inBounds.
    intros r Hr. destruct (isSelected _ r); exact Hr.
  - intros img l Hl. rewrite Forall_forall in Hl |- *.
    intros r Hr. apply list_elem_of_filter in Hr as [_ Hr]. apply Hl. exact Hr.
  - intros img l. apply map_keeps_box_inBounds.
    intros r Hr. destruct (isSelected _ r); exact Hr.
Qed.

Lemma executeDetect_inBounds now dets img s :
  NoDup (map Image.id (App.images s)) -> storeInBounds s ->
  currentImage s = Some img ->
  Forall (inBounds img) (imap (detToRegion now) dets) ->
  storeInBounds (executeDetect now (Some dets) s).
Proof.
  intros Hnd Hinv Hc Hdets. unfold executeDetect. rewrite Hc.
  eapply (storeInBounds_insert s _ img);
    [exact Hnd | exact Hc | reflexivity | cbn; reflexivity | exact Hdets
    | exact Hinv].
Qed.

Lemma executeDetectAll_inBounds clock run s :
  NoDup (map Image.id (App.images s)) -> storeInBounds s ->
  (forall k img regs,
      App.images s !! k = Some img ->
      requestOutcome clock run (S k) img = Some regs ->
      Forall (inBounds img) regs) ->
  storeInBounds (executeDetectAll clock run s).
Proof.
  intros Hnd Hinv Hout img Himg.
  change (App.images (executeDetectAll clock run s)) with (App.images s) in Himg.
  destruct (detectAll_lookup clock run s Hnd) as [Hin _].
  apply list_elem_of_lookup in Himg as Hk. destruct Hk as [k Hk].
  unfold regionsOf. rewrite (Hin k img Hk).
  destruct (requestOutcome clock run (S k) img) as [regs |] eqn:E.
  - cbn. exact (Hout k img regs Hk E).
  - apply Hinv. exact Himg.
Qed.

(** ** Detection with the clock read per detection *)

Lemma detToRegionAt_const now offset idx det :
  detToRegionAt (fun _ => now) offset idx det
  = detToRegion (now + offset) idx det.
Proof.
  unfold detToRegionAt, detToRegion. f_equal. lia.
Qed.

Lemma detectAllTimed_step_const clock run acc img :
  detectAllTimed_step (fun k _ => clock k) run acc img
  = detectAll_step clock run acc img.
Proof.
  unfold detectAllTimed_step, detectAll_step. cbv zeta.
  destruct (run _ img) as [dets |]; [| reflexivity].
  assert (E : imap (detToRegionAt
                      (fun _ => clock (S (DetectAll.processedCount acc)))
                      (Z.of_nat (S (DetectAll.processedCount acc)) * 10000))
                dets
              = imap (detToRegion
                        (clock (S (DetectAll.processedCount acc))
                         + Z.of_nat (S (DetectAll.processedCount acc)) * 10000))
                  dets).
  { apply imap_ext. intros i x _. apply detToRegionAt_const. }
  rewrite E. reflexivity.
Qed.

Lemma detectAllTimed_fold_const clock run imgs : forall acc,
  foldl (detectAllTimed_step (fun k _ => clock k) run) acc imgs
  = foldl (detectAll_step clock run) acc imgs.
Proof.
  induction imgs as [| img imgs IH]; intros acc; [reflexivity |].
  cbn [foldl]. rewrite detectAllTimed_step_const. apply IH.
Qed.

Lemma detectAllTimed_step_fields clock run acc img :
  DetectAll.processedCount (detectAllTimed_step clock run acc img)
  = S (DetectAll.processedCount acc)
  /\ DetectAll.allNewRegions (detectAllTimed_step clock run acc img)
     = match requestOutcomeTimed clock run
               (S (DetectAll.processedCount acc)) img with
       | Some regs => <[Image.id img := regs]> (DetectAll.allNewRegions acc)
       | None => DetectAll.allNewRegions acc
       end.
Proof.
  unfold detectAllTimed_step, requestOutcomeTimed. cbv zeta.
  destruct (run _ img); split; reflexivity.
Qed.

Lemma detectAllTimed_fold clock run imgs : forall acc,
  let final := foldl (detectAllTimed_step clock run) acc imgs in
  (forall i, i ∉ map Image.id imgs ->
             DetectAll.allNewRegions final !! i
             = DetectAll.allNewRegions acc !! i)
  /\ (NoDup (map Image.id imgs) ->
      forall k img, imgs !! k = Some img ->
        DetectAll.allNewRegions final !! Image.id img
        = match requestOutcomeTimed clock run
                  (DetectAll.processedCount acc + S k) img with
          | Some regs => Some regs
          | None => DetectAll.allNewRegions acc !! Image.id img
          end).
Proof.
  induction imgs as [| img imgs IH]; intros acc; cbn zeta.
  - cbn. split; [reflexivity | intros _ k img H; inversion H].
  - cbn [foldl].
    destruct (IH (detectAllTimed_step clock run acc img)) as (Hout & Hin).
    destruct (detectAllTimed_step_fields clock run acc img) as (Hpc & Hreg).
    rewrite Hpc in Hin. split.
    + intros i Hi. cbn [map] in Hi. rewrite not_elem_of_cons in Hi.
      destruct Hi as [Hne Hi]. rewrite (Hout i Hi), Hreg.
      destruct (requestOutcomeTimed _ _ _ img); [| reflexivity].
      rewrite lookup_insert_ne; done.
    + intros Hnd k img' Hk. cbn [map] in Hnd.
      apply NoDup_cons in Hnd as [Hfresh Hnd].
      destruct k as [| k]; cbn in Hk.
      * injection Hk as <-. rewrite (Hout _ Hfresh), Hreg.
        replace (DetectAll.processedCount acc + 1)%nat
          with (S (DetectAll.processedCount acc)) by lia.
        destruct (requestOutcomeTimed _ _ _ img); [| reflexivity].
        apply lookup_insert_eq.
      * rewrite (Hin Hnd k img' Hk).
        replace (DetectAll.processedCount acc + S (S k))%nat
          with (S (DetectAll.processedCount acc) + S k)%nat by lia.
        destruct (requestOutcomeTimed _ _ _ img'); [reflexivity |].
        assert (Hne : Image.id img <> Image.id img').
        { intros E. apply Hfresh. rewrite E.
          apply list_elem_of_fmap. exists img'. split; [reflexivity |].
          apply list_elem_of_lookup. eauto. }
        rewrite Hreg.
        destruct (requestOutcomeTimed _ _ _ img); [| reflexivity].
        rewrite lookup_insert_ne; done.
Qed.

Lemma detectAllTimed_lookup clock run s :
  NoDup (map Image.id (App.images s)) ->
  forall k img, App.images s !! k = Some img ->
    App.regions (executeDetectAllTimed clock run s) !! Image.id img
    = match requestOutcomeTimed clock run (S k) img with
      | Some regs => Some regs
      | None => App.regions s !! Image.id img
      end.
Proof.
  intros Hnd k img Hk. unfold executeDetectAllTimed. app_simpl.
  destruct (detectAllTimed_fold clock run (App.images s) (DetectAll.mk 0 0 ∅))
    as (_ & Hin).
  specialize (Hin Hnd k img Hk).
  cbn [DetectAll.processedCount DetectAll.allNewRegions Nat.add] in Hin.
  rewrite lookup_union, Hin.
  destruct (requestOutcomeTimed clock run (S k) img) as [regs |].
  - destruct (App.regions s !! Image.id img); reflexivity.
  - rewrite lookup_empty. destruct (App.regions s !! Image.id img); reflexivity.
Qed.

Lemma detToRegionAt_lookup clock offset dets i r :
  imap (detToRegionAt clock offset) dets !! i = Some r ->
  Region.id r = (clock i + Z.of_nat i + offset)%Z
  /\ Region.status r = Auto /\ (i < length dets)%nat.
Proof.
  intros Hi. rewrite list_lookup_imap in Hi.
  destruct (dets !! i) as [det |] eqn:E; [| discriminate]. cbn in Hi.
  injection Hi as <-. cbn. split; [reflexivity |]. split; [reflexivity |].
  apply lookup_lt_Some in E. exact E.
Qed.

Lemma executeDetectTimed_inBounds clock dets img s :
  NoDup (map Image.id (App.images s)) -> storeInBounds s ->
  currentImage s = Some img ->
  Forall (inBounds img) (imap (detToRegionAt clock 0) dets) ->
  storeInBounds (executeDetectTimed clock (Some dets) s).
Proof.
  intros Hnd Hinv Hc Hdets. unfold executeDetectTimed. rewrite Hc.
  eapply (storeInBounds_insert s _ img);
    [exact Hnd | exact Hc | reflexivity | cbn; reflexivity | exact Hdets
    | exact Hinv].
Qed.

Lemma executeDetectAllTimed_inBounds clock run s :
  NoDup (map Image.id (App.images s)) -> storeInBounds s ->
  (forall k img regs,
      App.images s !! k = Some img ->
      requestOutcomeTimed clock run (S k) img = Some regs ->
      Forall (inBounds img) regs) ->
  storeInBounds (executeDetectAllTimed clock run s).
Proof.
  intros Hnd Hinv Hout img Himg.
  change (App.images (executeDetectAllTimed clock run s)) with (App.images s)
    in Himg.
  apply list_elem_of_lookup in Himg as Hk. destruct Hk as [k Hk].
  unfold regionsOf. rewrite (detectAllTimed_lookup clock run s Hnd k img Hk).
  destruct (requestOutcomeTimed clock run (S k) img) as [regs |] eqn:E.
  - cbn. exact (Hout k img regs Hk E).
  - apply Hinv. exact Himg.
Qed.

(** C1, as the code has it.  Let every region of the mapping lie inside its
    image and let the images have distinct identifiers.  Then the mapping
    still lies inside bounds after a pointer-up (which completes a draw, a
    drag or a resize), after a pointer-move of a draw or a drag, after a
    pointer-move that resizes a region by its east, south or south-east
    handle when the clamp of that handle has room for the 20 pixel floor
    (20 <= width - x, 20 <= height - y for the resized region), and after
    each bulk operation: these clamp the box or leave it alone.  A detection
    commit stores the boxes of the response as they are: the mapping lies
    inside bounds after it when the decoded boxes do, whether the clock
    stands still while a response is mapped or is read per detection.
    Nothing is said of a resize by a west or north handle, which computes
    the size as [w - (newX - x)]. *)
Theorem committed_regions_in_bounds (s : App.t) :
  NoDup (map Image.id (App.images s)) ->
  storeInBounds s ->
  (forall now, storeInBounds (handleCanvasMouseUp now s))
  /\ (forall c, resizeTarget s = None ->
                storeInBounds (handleCanvasMouseMove c s))
  /\ (forall c img hd region,
         currentImage s = Some img ->
         resizeTarget s = Some (hd, region) ->
         eastSouth hd = true -> resizeRoom img hd region ->
         storeInBounds (handleCanvasMouseMove c s))
  /\ storeInBounds (handleApprove s)
  /\ storeInBounds (handleFlag s)
  /\ storeInBounds (handleDelete s)
  /\ (forall newLabel, storeInBounds (handleBulkChangeLabel newLabel s))
  /\ (forall now dets img,
         currentImage s = Some img ->
         Forall (inBounds img) (imap (detToRegion now) dets) ->
         storeInBounds (executeDetect now (Some dets) s))
  /\ (forall clock run,
         (forall k img regs,
             App.images s !! k = Some img ->
             requestOutcome clock run (S k) img = Some regs ->
             Forall (inBounds img) regs) ->
         storeInBounds (executeDetectAll clock run s))
  /\ (forall clock dets img,
         currentImage s = Some img ->
         Forall (inBounds img) (imap (detToRegionAt clock 0) dets) ->
         storeInBounds (executeDetectTimed clock (Some dets) s))
  /\ (forall clock run,
         (forall k img regs,
             App.images s !! k = Some img ->
             requestOutcomeTimed clock run (S k) img = Some regs ->
             Forall (inBounds img) regs) ->
         storeInBounds (executeDetectAllTimed clock run s)).
Proof.
  intros Hnd Hinv.
  split; [intros now; apply mouseUp_inBounds; assumption |].
  split.
  { intros c Hnone. apply mouseMove_inBounds; [assumption | assumption |].
    intros img hd region _ F. rewrite Hnone in F. discriminate F. }
  split.
  { intros c img hd region Hc Ht Hes Hroom.
    apply mouseMove_inBounds; [assumption | assumption |].
    intros img' hd' region' Hc' Ht'. rewrite Ht in Ht'. injection Ht' as <- <-.
    rewrite Hc in Hc'. injection Hc' as <-. split; assumption. }
  destruct (bulk_inBounds s "" Hnd Hinv) as (Ha & Hf & Hd & _).
  split; [exact Ha |]. split; [exact Hf |]. split; [exact Hd |].
  split; [intros newLabel; apply (bulk_inBounds s newLabel Hnd Hinv) |].
  split.
  { intros now dets img Hc Hdets.
    apply (executeDetect_inBounds now dets img); assumption. }
  split.
  { intros clock run Hout. apply executeDetectAll_inBounds; assumption. }
  split.
  - intros clock dets img Hc Hdets.
    apply (executeDetectTimed_inBounds clock dets img); assumption.
  - intros clock run Hout. apply executeDetectAllTimed_inBounds; assumption.
Qed.

Lemma storeInBounds_bulkScenario : storeInBounds bulkScenario.
Proof.
  intros img Himg. apply list_elem_of_singleton in Himg as ->.
  replace (regionsOf _ _) with
    [Region.mk 10 "car" (9 # 10) Auto 0 0 50 50;
     Region.mk 11 "car" (6 # 10) Auto 100 100 50 50]
    by (vm_compute; reflexivity).
  repeat constructor;
    cbn [Region.x Region.y Region.w Region.h Image.width Image.height]; lra.
Qed.

Lemma storeInBounds_resizeScenario : storeInBounds resizeScenario.
Proof.
  intros img Himg. apply list_elem_of_singleton in Himg as ->.
  replace (regionsOf _ _) with
    [Region.mk 10 "car" (9 # 10) Auto 0 0 50 50;
     Region.mk 11 "car" (6 # 10) Auto 100 100 50 50]
    by (vm_compute; reflexivity).
  repeat constructor;
    cbn [Region.x Region.y Region.w Region.h Image.width Image.height]; lra.
Qed.

(** Region 11 is pulled by its south-east handle far beyond the image and
    released; after a drag, likewise. *)
Lemma committed_regions_in_bounds_witness :
  storeInBounds
    (handleCanvasMouseUp 1
       (handleCanvasMouseMove (Point.mk 2000 2000) resizeScenario))
  /\ storeInBounds
       (handleCanvasMouseUp 1 (afterMoves [Point.mk 900 900] dragScenario)).
Proof.
  assert (Hnd : NoDup (map Image.id [Image.mk "img_1" "a.png" 1000 500])).
  { apply NoDup_singleton. }
  destruct (committed_regions_in_bounds resizeScenario Hnd
              storeInBounds_resizeScenario) as (_ & _ & Hresize & _).
  assert (Hmove : storeInBounds
                    (handleCanvasMouseMove (Point.mk 2000 2000) resizeScenario)).
  { apply (Hresize (Point.mk 2000 2000) (Image.mk "img_1" "a.png" 1000 500) Hse
             (Region.mk 11 "car" (6 # 10) Auto 100 100 50 50)).
    - reflexivity.
    - vm_compute. reflexivity.
    - reflexivity.
    - split; intros _; cbn; lra. }
  destruct (committed_regions_in_bounds
              (handleCanvasMouseMove (Point.mk 2000 2000) resizeScenario) Hnd
              Hmove) as (Hup & _).
  destruct (committed_regions_in_bounds dragScenario Hnd
              storeInBounds_bulkScenario) as (_ & Hdrag & _).
  assert (Hd : storeInBounds
                 (handleCanvasMouseMove (Point.mk 900 900) dragScenario)).
  { apply Hdrag. vm_compute. reflexivity. }
  destruct (committed_regions_in_bounds
              (handleCanvasMouseMove (Point.mk 900 900) dragScenario) Hnd Hd)
    as (Hup' & _).
  split; [exact (Hup 1%Z) | exact (Hup' 1%Z)].
Defined.

(** C1 as stated fails: a single-image detection commits the box of the
    response unclamped; here it ends at 1100 on an image 1000 wide, and the
    committed snapshot holds it. *)
Lemma detect_commits_unclamped_box :
  let s' := executeDetect 1000 (Some overhangingResponse) detectScenario in
  exists r,
    regionsOf (App.regions s') "img_1" = [r]
    /\ History.history (App.hist s') = [App.regions s']
    /\ ~ Region.x r + Region.w r <= 1000
    /\ ~ storeInBounds s'.
Proof.
  assert (E : regionsOf
                (App.regions
                   (executeDetect 1000 (Some overhangingResponse) detectScenario))
                "img_1"
              = [Region.mk 1000 "car" (9 # 10) Auto 900 0 200 100])
    by (vm_compute; reflexivity).
  eexists. split; [exact E |]. split; [vm_compute; reflexivity |].
  split; [cbn [Region.x Region.w]; lra |].
  intros H. specialize (H (Image.mk "img_1" "a.png" 1000 500)).
  assert (Hin : Image.mk "img_1" "a.png" 1000 500
                ∈ App.images
                    (executeDetect 1000 (Some overhangingResponse) detectScenario))
    by (apply list_elem_of_singleton; reflexivity).
  specialize (H Hin). cbn [Image.id] in H. rewrite E in H.
  apply Forall_cons in H as [(_ & _ & Hx & _) _].
  cbn [Region.x Region.w Image.width] in Hx. lra.
Qed.

(** ** Sorting by confidence *)

Lemma js_sort_insert_perm {A} (cmp : A -> A -> Q) a l :
  js_sort_insert cmp a l ≡ₚ a :: l.
Proof.
  induction l as [| b l IH]; cbn; [reflexivity |].
  destruct (Qltb 0 (cmp a b)); [| reflexivity].
  rewrite IH. apply Permutation_swap.
Qed.

Lemma js_sort_perm {A} (cmp : A -> A -> Q) l : js_sort cmp l ≡ₚ l.
Proof.
  induction l as [| a l IH]; cbn; [reflexivity |].
  rewrite js_sort_insert_perm, IH. reflexivity.
Qed.

Lemma insert_notBelow a l :
  StronglySorted notBelow l ->
  StronglySorted notBelow (js_sort_insert byConfidenceDesc a l).
Proof.
  induction 1 as [| b l Hs IH Hb]; cbn; [repeat constructor |].
  destruct (Qltb 0 (byConfidenceDesc a b)) eqn:E.
  - apply Qltb_lt in E. unfold byConfidenceDesc in E.
    constructor; [exact IH |].
    rewrite js_sort_insert_perm. constructor; [| exact Hb].
    unfold notBelow. lra.
  - apply Qltb_ge in E. unfold byConfidenceDesc in E.
    constructor; [constructor; assumption |].
    constructor; [unfold notBelow; lra |].
    eapply Forall_impl; [exact Hb |]. unfold notBelow. intros c Hc. lra.
Qed.

Lemma js_sort_notBelow l :
  StronglySorted notBelow (js_sort byConfidenceDesc l).
Proof.
  induction l as [| a l IH]; cbn; [constructor |].
  apply insert_notBelow. exact IH.
Qed.




(** ** The suppression loops *)

Lemma nms_inner_spec d thr i supp j x :
  x ∈ nms_inner d thr i supp j
  <-> x ∈ supp \/ (x = j /\ suppressesAt d thr i j).
Proof.
  unfold nms_inner, suppressesAt, suppresses.
  destruct (decide (j ∈ supp)) as [Hj | Hj].
  { split; [tauto |]. intros [H | [-> _]]; assumption. }
  destruct (d !! i) as [di |] eqn:Hi, (d !! j) as [dj |] eqn:Hdj.
  2-4: split; [tauto |]; intros [H | (_ & dk & dl & F1 & F2 & _)];
       [exact H | discriminate].
  destruct (decide (Detection.classId di = Detection.classId dj)) as [Hc | Hc].
  - destruct (Qltb thr (calculateIoU di dj)) eqn:E.
    + apply Qltb_lt in E. rewrite elem_of_union, elem_of_singleton. split.
      * intros [-> | H]; [right | tauto].
        split; [reflexivity |]. exists di, dj. tauto.
      * tauto.
    + apply Qltb_ge in E. split; [tauto |].
      intros [H | (_ & dk & dl & F1 & F2 & _ & F3)]; [exact H |].
      injection F1 as <-. injection F2 as <-. lra.
  - split; [tauto |].
    intros [H | (_ & dk & dl & F1 & F2 & F3 & _)]; [exact H |].
    injection F1 as <-. injection F2 as <-. contradiction.
Qed.

Lemma nms_inner_fold_spec d thr i m : forall supp x,
  x ∈ foldl (nms_inner d thr i) supp (seq (S i) m)
  <-> x ∈ supp \/ ((S i <= x < S i + m)%nat /\ suppressesAt d thr i x).
Proof.
  induction m as [| m IH]; intros supp x.
  - cbn. split; [tauto | intros [H | [H _]]; [exact H | lia]].
  - rewrite seq_S, foldl_snoc, nms_inner_spec, IH. split.
    + intros [[H | [H1 H2]] | [-> H]]; [tauto | right | right]; split;
        try assumption; lia.
    + intros [H | [H1 H2]]; [tauto |].
      destruct (decide (x = S i + m)%nat) as [-> | Hne]; [tauto |].
      left. right. split; [lia | exact H2].
Qed.

Lemma StronglySorted_lt_snoc (l : list nat) (i : nat) :
  StronglySorted lt l -> (forall k, k ∈ l -> (k < i)%nat) ->
  StronglySorted lt (l ++ [i]).
Proof.
  induction 1 as [| a l Hs IH Ha]; intros Hlt; cbn.
  - repeat constructor.
  - constructor.
    + apply IH. intros k Hk. apply Hlt. right. exact Hk.
    + apply Forall_app. split; [exact Ha |].
      apply Forall_singleton. apply Hlt. left.
Qed.

Lemma nms_outer_step d thr i st :
  (i < length d)%nat -> nmsInv d thr i st -> nmsInv d thr (S i) (nms_outer d thr st i).
Proof.
  intros Hi (idxs & Hk & Hs & Hidx & Hsupp). unfold nms_outer.
  destruct (decide (i ∈ st.2)) as [Hin | Hnin].
  - exists idxs. split; [exact Hk |]. split; [exact Hs |]. split; [| exact Hsupp].
    intros k. rewrite Hidx. split; [intros [? ?]; split; [lia | assumption] |].
    intros [Hlt Hn]. split; [| exact Hn].
    destruct (decide (k = i)) as [-> | ?]; [contradiction | lia].
  - destruct (lookup_lt_is_Some_2 d i Hi) as [di Hdi]. rewrite Hdi.
    exists (idxs ++ [i]). cbn [fst snd].
    assert (Hnew : forall x,
      x ∈ foldl (nms_inner d thr i) st.2 (seq (S i) (length d - S i))
      <-> x ∈ st.2 \/ ((S i <= x < length d)%nat /\ suppressesAt d thr i x)).
    { intros x. rewrite nms_inner_fold_spec.
      replace (S i + (length d - S i))%nat with (length d) by lia. reflexivity. }
    split; [| split; [| split]].
    + rewrite omap_app, Hk. cbn. rewrite Hdi. reflexivity.
    + apply StronglySorted_lt_snoc; [exact Hs |].
      intros k Hkin. apply Hidx in Hkin. tauto.
    + intros k. rewrite elem_of_app, list_elem_of_singleton, Hidx, Hnew. split.
      * intros [[Hlt Hn] | ->].
        -- split; [lia |]. intros [F | [F _]]; [contradiction | lia].
        -- split; [lia |]. intros [F | [F _]]; [contradiction | lia].
      * intros [Hlt Hn].
        destruct (decide (k = i)) as [-> | Hne]; [tauto |].
        left. split; [lia | tauto].
    + intros j. rewrite Hnew, Hsupp. split.
      * intros [(Hj & k & Hkj & Hkin & Hsup) | (Hj & Hsup)].
        -- split; [exact Hj |]. exists k. rewrite elem_of_app. tauto.
        -- split; [lia |]. exists i. rewrite elem_of_app, list_elem_of_singleton.
           split; [lia | tauto].
      * intros (Hj & k & Hkj & Hkin & Hsup).
        apply elem_of_app in Hkin as [Hkin | Hkin].
        -- left. split; [exact Hj |]. exists k. tauto.
        -- apply list_elem_of_singleton in Hkin as ->. right.
           split; [lia | exact Hsup].
Qed.

Lemma nms_outer_fold d thr i :
  (i <= length d)%nat ->
  nmsInv d thr i (foldl (nms_outer d thr) ([], ∅) (seq 0 i)).
Proof.
  induction i as [| i IH]; intros Hi.
  - exists []. cbn. split; [reflexivity |]. split; [constructor |]. split.
    + intros k. rewrite elem_of_nil. split; [tauto | lia].
    + intros j. rewrite elem_of_empty. split; [tauto |].
      intros (_ & k & _ & F & _). inversion F.
  - rewrite seq_S, foldl_snoc. cbn [Nat.add].
    apply nms_outer_step; [lia | apply IH; lia].
Qed.

(** What the loops compute on any array: the kept candidates are those at
    the positions [idxs], in increasing order, and a position is kept exactly
    when no kept position before it suppresses it. *)
Lemma nms_loop_spec d thr :
  exists idxs : list nat,
    (nms_loop d thr).1 = omap (fun k => d !! k) idxs
    /\ StronglySorted lt idxs
    /\ (forall j, j ∈ idxs -> (j < length d)%nat)
    /\ (forall j, (j < length d)%nat ->
          (j ∈ idxs
           <-> ~ exists k, (k < j)%nat /\ k ∈ idxs /\ suppressesAt d thr k j)).
Proof.
  destruct (nms_outer_fold d thr (length d) (le_n _))
    as (idxs & Hk & Hs & Hidx & Hsupp).
  fold (nms_loop d thr) in Hk, Hidx, Hsupp.
  exists idxs. split; [exact Hk |]. split; [exact Hs |]. split.
  - intros j Hj. apply Hidx in Hj. tauto.
  - intros j Hj. rewrite Hidx. split.
    + intros [_ Hn] Hex. apply Hn. apply Hsupp. tauto.
    + intros Hn. split; [exact Hj |]. intros Hin. apply Hn.
      apply Hsupp in Hin. tauto.
Qed.

(** ** Intersection over union *)

Lemma iou_ratio_compat (i u i' u' : Q) :
  i == i' -> u == u' ->
  (if Qltb 0 u then i / u else 0) == (if Qltb 0 u' then i' / u' else 0).
Proof.
  intros Hi Hu.
  destruct (Qltb 0 u) eqn:E, (Qltb 0 u') eqn:E';
    try apply Qltb_lt in E; try apply Qltb_lt in E';
    try apply Qltb_ge in E; try apply Qltb_ge in E'.
  - rewrite Hi, Hu. reflexivity.
  - rewrite Hu in E. lra.
  - rewrite Hu in E. lra.
  - reflexivity.
Qed.

Lemma calculateIoU_sym a b : calculateIoU a b == calculateIoU b a.
Proof.
  unfold calculateIoU. cbv zeta.
  assert (Hi :
    Qmax 0 (Qmin (Detection.x a + Detection.width a)
                 (Detection.x b + Detection.width b)
            - Qmax (Detection.x a) (Detection.x b))
    * Qmax 0 (Qmin (Detection.y a + Detection.height a)
                   (Detection.y b + Detection.height b)
              - Qmax (Detection.y a) (Detection.y b))
    == Qmax 0 (Qmin (Detection.x b + Detection.width b)
                    (Detection.x a + Detection.width a)
               - Qmax (Detection.x b) (Detection.x a))
       * Qmax 0 (Qmin (Detection.y b + Detection.height b)
                      (Detection.y a + Detection.height a)
                 - Qmax (Detection.y b) (Detection.y a))).
  { rewrite (Q.max_comm (Detection.x a) (Detection.x b)).
    rewrite (Q.max_comm (Detection.y a) (Detection.y b)).
    rewrite (Q.min_comm (Detection.x a + Detection.width a)).
    rewrite (Q.min_comm (Detection.y a + Detection.height a)).
    reflexivity. }
  apply iou_ratio_compat; [exact Hi |]. rewrite Hi. ring.
Qed.

(** ** Two candidates *)








(** ** Image status and progress *)

Lemma forallb_isApproved_map sel l :
  (forall r, r ∈ l -> Region.id r ∈ sel) ->
  forallb isApproved
    (map (fun r => if isSelected sel r then withStatus Approved r else r) l)
  = true.
Proof.
  intros H. apply forallb_forall. intros r' Hin.
  apply in_map_iff in Hin as (r & <- & Hr).
  apply list_elem_of_In in Hr. unfold isSelected.
  rewrite bool_decide_eq_true_2 by (apply H; exact Hr). reflexivity.
Qed.

(** X1.  With every region of a displayed image that has regions selected,
    approve turns the status of the image to reviewed, and flag turns it to
    detected. *)
Theorem approve_all_reviews_image (s : App.t) (img : Image.t) :
  currentImage s = Some img ->
  regionsOf (App.regions s) (Image.id img) <> [] ->
  (forall r, r ∈ regionsOf (App.regions s) (Image.id img) ->
             Region.id r ∈ App.selectedRegions s) ->
  getImageStatus (App.regions (handleApprove s) !! Image.id img) = Reviewed
  /\ getImageStatus (App.regions (handleFlag s) !! Image.id img) = Detected.
Proof.
  intros Hc Hne Hall.
  destruct (regionsOf (App.regions s) (Image.id img)) as [| r0 l] eqn:E;
    [congruence |].
  assert (Hsel : App.selectedRegions s <> []).
  { intros F. specialize (Hall r0 ltac:(left)). rewrite F in Hall.
    inversion Hall. }
  unfold handleApprove, handleFlag. rewrite (length_pos_ltb _ Hsel).
  app_simpl. unfold updateRegions. rewrite Hc. app_simpl.
  rewrite !lookup_insert_eq, E. split.
  - unfold getImageStatus.
    rewrite (forallb_isApproved_map _ (r0 :: l) Hall). reflexivity.
  - cbn [map]. unfold isSelected at 1.
    rewrite bool_decide_eq_true_2 by (apply Hall; left).
    reflexivity.
Qed.

Lemma approve_all_reviews_image_witness :
  getImageStatus
    (App.regions
       (handleApprove (App.setSelectedRegions [10; 11]%Z bulkScenario))
       !! "img_1")
  = Reviewed.
Proof.
  apply (approve_all_reviews_image
           (App.setSelectedRegions [10; 11]%Z bulkScenario)
           (Image.mk "img_1" "a.png" 1000 500) eq_refl).
  - vm_compute. discriminate.
  - intros r Hr.
    replace (regionsOf _ _) with
      [Region.mk 10 "car" (9 # 10) Auto 0 0 50 50;
       Region.mk 11 "car" (6 # 10) Auto 100 100 50 50] in Hr
      by (vm_compute; reflexivity).
    apply elem_of_cons in Hr as [-> | Hr]; [left |].
    apply list_elem_of_singleton in Hr as ->. right. left.
Defined.

Lemma progress_fold regions imgs : forall r d t,
  let '(r', d', t') := foldl (progress_step regions) (r, d, t) imgs in
  r' = (r + length (filter (fun img => getImageStatus (regions !! Image.id img)
                                       = Reviewed) imgs))%nat
  /\ d' = (d + length (filter (fun img => getImageStatus (regions !! Image.id img)
                                          = Detected) imgs))%nat
  /\ t' = (t + length (filter (fun img => getImageStatus (regions !! Image.id img)
                                          = Todo) imgs))%nat
  /\ (r' + d' + t' = r + d + t + length imgs)%nat.
Proof.
  induction imgs as [| img imgs IH]; intros r d t; cbn [foldl].
  - cbn. lia.
  - unfold progress_step at 2. rewrite !filter_cons.
    destruct (getImageStatus (regions !! Image.id img)) eqn:E.
    + specialize (IH r d (S t)).
      destruct (foldl _ _ imgs) as [[r' d'] t'].
      rewrite decide_False by discriminate.
      rewrite decide_False by discriminate.
      rewrite decide_True by reflexivity. cbn [length]. lia.
    + specialize (IH r (S d) t).
      destruct (foldl _ _ imgs) as [[r' d'] t'].
      rewrite decide_False by discriminate.
      rewrite decide_True by reflexivity.
      rewrite decide_False by discriminate. cbn [length]. lia.
    + specialize (IH (S r) d t).
      destruct (foldl _ _ imgs) as [[r' d'] t'].
      rewrite decide_True by reflexivity.
      rewrite decide_False by discriminate.
      rewrite decide_False by discriminate. cbn [length]. lia.
Qed.

(** X2.  The three counters of the progress bar count the images by
    status, an image without an entry or with an empty list counting as to
    do, and they add up to the number of images. *)
Theorem progressStats_partition (s : App.t) :
  let p := progressStats s in
  let count st :=
    length (filter (fun img => getImageStatus (App.regions s !! Image.id img)
                               = st) (App.images s)) in
  Progress.reviewed p = count Reviewed
  /\ Progress.detected p = count Detected
  /\ Progress.todo p = count Todo
  /\ (Progress.reviewed p + Progress.detected p + Progress.todo p
      = Progress.total p)%nat
  /\ Progress.total p = length (App.images s).
Proof.
  cbv zeta. unfold progressStats.
  pose proof (progress_fold (App.regions s) (App.images s) 0 0 0)%nat as H.
  destruct (foldl _ _ _) as [[r d] t]. cbn.
  destruct H as (-> & -> & -> & H). repeat split. lia.
Qed.

(** ** Zoom *)

Lemma zoomKey_range k z :
  1 # 2 <= z <= 4 -> 1 # 2 <= zoomKey k z <= 4.
Proof.
  intros [Hlo Hhi].
  destruct k; unfold zoomKey, handleZoomIn, handleZoomOut, handleZoomReset.
  - split; qminmax.
  - assert (E : z / (5 # 4) == (4 # 5) * z) by field.
    rewrite E. split; qminmax.
  - split; lra.
Qed.

(** X3.  The zoom factor stays between 0.5 and 4 under every sequence of
    zoom-in, zoom-out and reset keys, and a zoom-out undoes a zoom-in that
    did not hit the upper limit. *)
Theorem zoom_stays_in_range :
  (forall (keys : list ZoomKey) (z : Q),
      1 # 2 <= z <= 4 ->
      1 # 2 <= foldl (fun z k => zoomKey k z) z keys <= 4)
  /\ (forall z, 1 # 2 <= z -> z * (5 # 4) <= 4 ->
                handleZoomOut (handleZoomIn z) == z).
Proof.
  split.
  - induction keys as [| k keys IH]; intros z Hz; cbn; [exact Hz |].
    apply IH. apply zoomKey_range. exact Hz.
  - intros z Hlo Hhi. unfold handleZoomIn, handleZoomOut.
    rewrite Q.min_l by exact Hhi.
    assert (E : z * (5 # 4) / (5 # 4) == z) by field.
    rewrite E. apply Q.max_l. exact Hlo.
Qed.

Lemma zoom_stays_in_range_witness :
  1 # 2 <= foldl (fun z k => zoomKey k z) 1
             [ZoomIn; ZoomIn; ZoomIn; ZoomIn; ZoomIn; ZoomIn; ZoomIn; ZoomOut]
        <= 4.
Proof.
  apply (proj1 zoom_stays_in_range). split; [discriminate | discriminate].
Defined.

(** ** Removing an image *)

Lemma filter_all {A} (P : A -> Prop) `{forall a, Decision (P a)} (l : list A) :
  Forall P l -> filter P l = l.
Proof.
  induction 1 as [| a l Ha Hl IH]; [reflexivity |].
  rewrite filter_cons, decide_True by exact Ha. f_equal. exact IH.
Qed.

Lemma filter_other_ids (imgs : list Image.t) (k : nat) (img : Image.t) :
  NoDup (map Image.id imgs) -> imgs !! k = Some img ->
  filter (fun i => Image.id i <> Image.id img) imgs
  = take k imgs ++ drop (S k) imgs.
Proof.
  revert k. induction imgs as [| a imgs IH]; intros k Hnd Hk; [inversion Hk |].
  cbn in Hnd. apply NoDup_cons in Hnd as [Ha Hnd].
  rewrite filter_cons. destruct k as [| k]; cbn in Hk.
  - injection Hk as ->. rewrite decide_False by tauto. cbn.
    apply filter_all. apply Forall_forall. intros b Hb E.
    apply Ha. rewrite <- E. apply list_elem_of_fmap. eauto.
  - rewrite decide_True.
    + cbn. f_equal. apply IH; assumption.
    + intros E. apply Ha. rewrite E. apply list_elem_of_fmap.
      exists img. split; [reflexivity |]. apply list_elem_of_lookup. eauto.
Qed.

Lemma js_findIndex_id (imgs : list Image.t) (k : nat) (img : Image.t) :
  NoDup (map Image.id imgs) -> imgs !! k = Some img ->
  js_findIndex (fun i => String.eqb (Image.id i) (Image.id img)) imgs
  = Z.of_nat k.
Proof.
  intros Hnd Hk. unfold js_findIndex.
  destruct (list_find _ imgs) as [[i x] |] eqn:E.
  - apply list_find_Some in E as (Hi & Hx & _).
    apply String.eqb_eq in Hx.
    assert (x = img).
    { eapply NoDup_fmap_id_inj; eauto; apply list_elem_of_lookup; eauto. }
    subst x. f_equal.
    eapply NoDup_lookup; [| | ]; [exact (NoDup_fmap_1 Image.id imgs Hnd) | eauto | eauto].
  - exfalso. apply list_find_None in E. rewrite Forall_forall in E.
    apply (E img); [apply list_elem_of_lookup; eauto |].
    apply String.eqb_refl.
Qed.

(** X4.  Removing a listed image, the identifiers being distinct: the list
    loses exactly that image, the mapping loses its entry and no other, the
    selection is emptied and the history is not written.  When another image
    was displayed it stays displayed; when the removed one was displayed, the
    one before it is displayed, or the next one when it was the first. *)
Theorem handleDeleteImage_spec (s : App.t) (k : nat) (img : Image.t) :
  NoDup (map Image.id (App.images s)) ->
  App.images s !! k = Some img ->
  let s' := (handleDeleteImage (Image.id img) s).1 in
  App.images s' = take k (App.images s) ++ drop (S k) (App.images s)
  /\ App.regions s' !! Image.id img = None
  /\ (forall i, i <> Image.id img -> App.regions s' !! i = App.regions s !! i)
  /\ App.hist s' = App.hist s
  /\ App.selectedRegions s' = []
  /\ (k <> App.currentImageIndex s -> currentImage s' = currentImage s)
  /\ (k = App.currentImageIndex s ->
      currentImage s'
      = if decide (k = 0%nat) then App.images s !! 1%nat
        else App.images s !! (k - 1)%nat)
  /\ (handleDeleteImage (Image.id img) s).2
     = NoticeRemoved (Some (Image.name img)).
Proof.
  intros Hnd Hk s'. subst s'. unfold handleDeleteImage.
  rewrite (js_findIndex_id _ k img Hnd Hk), (filter_other_ids _ k img Hnd Hk).
  set (c := App.currentImageIndex s).
  apply lookup_lt_Some in Hk as Hlen.
  assert (Hcur : forall s0, currentImage s0
                 = App.images s0 !! App.currentImageIndex s0) by reflexivity.
  destruct (Z.ltb_spec (Z.of_nat k) 0) as [? | _]; [lia |].
  rewrite Nat2Z.id, Hk. cbn [fst snd fmap option_fmap option_map].
  destruct (Z.leb_spec (Z.of_nat k) (Z.of_nat c)) as [Hkc | Hkc];
    destruct (Nat.ltb_spec 0 c) as [Hc0 | Hc0]; cbn [andb]; app_simpl;
    rewrite !Hcur; cbn.
  all: split; [reflexivity |].
  all: split; [apply lookup_delete_eq |].
  all: split; [intros i Hi; apply lookup_delete_ne; congruence |].
  all: split; [reflexivity |]. all: split; [reflexivity |].
  all: fold c; clearbody c.
  all: split; [intros Hne | split; [intros He | reflexivity]].
  all: try (exfalso; lia).
  all: try (destruct (decide (k = 0%nat)) as [Ek | Ek]).
  all: first
    [ rewrite lookup_app_r by (rewrite length_take; lia);
      rewrite length_take, lookup_drop; f_equal; lia
    | rewrite lookup_app_l by (rewrite length_take; lia);
      rewrite lookup_take_lt by lia; f_equal; lia ].
Qed.

Lemma handleDeleteImage_spec_witness :
  let s := setCurrentImageIndex 2 detectAllScenario in
  currentImage (handleDeleteImage "img_1" s).1 = currentImage s
  /\ map Image.id (App.images (handleDeleteImage "img_1" s).1)
     = ["img_2"; "img_3"].
Proof.
  intros s.
  destruct (handleDeleteImage_spec s 0 (Image.mk "img_1" "a.png" 1000 500))
    as (Hi & _ & _ & _ & _ & Hc & _).
  - repeat (apply NoDup_cons; split;
            [rewrite ?elem_of_cons, ?elem_of_nil;
             intros F; repeat destruct F as [F | F]; discriminate || exact F |]).
    apply NoDup_nil_2.
  - reflexivity.
  - split; [apply Hc; discriminate |]. cbn [Image.id] in Hi. rewrite Hi.
    reflexivity.
Defined.

(** ** Clearing the detections *)

(** X5.  Clearing empties the list of the displayed image, leaves the other
    lists, empties the selection and commits; the image is then to do.  From
    a state whose mapping is the snapshot under the pointer, one undo brings
    the cleared regions back and one redo clears them again. *)
Theorem clear_then_undo (s : App.t) (img : Image.t) :
  currentImage s = Some img ->
  let s1 := (executeClearCurrentDetections s).1 in
  regionsOf (App.regions s1) (Image.id img) = []
  /\ (forall i, i <> Image.id img -> App.regions s1 !! i = App.regions s !! i)
  /\ App.selectedRegions s1 = []
  /\ getImageStatus (App.regions s1 !! Image.id img) = Todo
  /\ (executeClearCurrentDetections s).2
     = Some (NoticeCleared (length (regionsOf (App.regions s) (Image.id img))))
  /\ ((0 <= History.historyIndex (App.hist s))%Z ->
      History.history (App.hist s)
        !! Z.to_nat (History.historyIndex (App.hist s))
      = Some (App.regions s) ->
      App.regions (handleUndo s1) = App.regions s
      /\ App.regions (handleRedo (handleUndo s1)) = App.regions s1).
Proof.
  intros Hc s1. subst s1. unfold executeClearCurrentDetections.
  rewrite Hc. cbn [fst snd]. app_simpl.
  split; [apply regionsOf_insert |].
  split; [intros i Hi; apply lookup_insert_ne; congruence |].
  split; [reflexivity |].
  split; [rewrite lookup_insert_eq; reflexivity |].
  split; [unfold currentRegions; rewrite Hc; reflexivity |].
  intros Hi Hl.
  set (new := <[Image.id img := []]> (App.regions s)).
  set (s1 := App.setSelectedRegions [] _).
  destruct (synced_slice _ _ Hi Hl) as [pre Hs].
  destruct (saveToHistory_stackEnds (App.hist s) pre [App.regions s] new Hs
              ltac:(cbn; lia)) as (pre' & Hh & Hidx).
  assert (P1 : pointsAt s1 pre' [App.regions s; new] 1).
  { change ([App.regions s] ++ [new]) with [App.regions s; new] in Hh.
    split; [exact Hh |]. split; [| reflexivity].
    subst s1. app_simpl. rewrite Hidx, Hh, length_app. cbn [length app]. lia. }
  pose proof (undo_pointsAt _ _ _ _ P1) as P0.
  assert (P2 : pointsAt (handleRedo (handleUndo s1)) pre'
                 [App.regions s; new] 1)
    by (apply redo_pointsAt; [exact P0 | cbn; lia]).
  destruct P0 as (_ & _ & L0), P2 as (_ & _ & L2).
  cbn in L0, L2. injection L0 as L0. injection L2 as L2.
  split; [symmetry; exact L0 | symmetry; exact L2].
Qed.

Lemma clear_then_undo_witness :
  App.regions (handleUndo (executeClearCurrentDetections bulkScenario).1)
  = bulkRegions.
Proof.
  destruct (clear_then_undo bulkScenario (Image.mk "img_1" "a.png" 1000 500)
              eq_refl) as (_ & _ & _ & _ & _ & Hu).
  apply Hu; [cbn; lia | reflexivity].
Defined.

(** ** Saving a label *)

(** X6.  Saving a label in the editor: with a region under edit, the regions
    of the displayed image keep their number, order, identifier, box, status
    and confidence, those with the edited identifier get the new label, the
    other lists stay, and the result is committed; without one, nothing but
    the editor is written.  The editor is closed in both cases. *)
Theorem handleSaveLabel_spec (newLabel : string) (s : App.t) (img : Image.t) :
  currentImage s = Some img ->
  let s' := (handleSaveLabel newLabel s).1 in
  App.editor s' = Editor.mk false None
  /\ (forall eid,
        Editor.editingRegionId (App.editor s) = Some eid -> eid <> 0%Z ->
        Forall2
          (fun r r' =>
             r' = withLabel (if hasId eid r then newLabel else Region.label r) r)
          (regionsOf (App.regions s) (Image.id img))
          (regionsOf (App.regions s') (Image.id img))
        /\ (forall i, i <> Image.id img ->
                      App.regions s' !! i = App.regions s !! i)
        /\ App.hist s' = saveToHistory (App.hist s) (App.regions s'))
  /\ (idTruthy (Editor.editingRegionId (App.editor s)) = None ->
      App.regions s' = App.regions s /\ App.hist s' = App.hist s).
Proof.
  intros Hc s'. subst s'. unfold handleSaveLabel.
  split; [destruct (idTruthy _); reflexivity |]. split.
  - intros eid He Hne. rewrite He. cbn [idTruthy].
    destruct (Z.eqb_spec eid 0) as [? | _]; [contradiction |].
    cbn [fst]. app_simpl.
    destruct (updateRegions_commits
                (map (fun r => if hasId eid r then withLabel newLabel r else r))
                s img Hc) as (Hl & Ho & Hh).
    split; [| split; [exact Ho | exact Hh]].
    rewrite Hl. apply Forall2_fmap_r, Forall_Forall2_diag, Forall_forall.
    intros r _. unfold compose.
    destruct (hasId eid r); [reflexivity |].
    destruct r; reflexivity.
  - intros Hn. rewrite Hn. split; reflexivity.
Qed.

Lemma handleSaveLabel_spec_witness :
  map Region.label
    (regionsOf
       (App.regions
          (handleSaveLabel "bus"
             (App.setEditor (Editor.mk true (Some 11%Z)) bulkScenario)).1)
       "img_1")
  = ["car"; "bus"].
Proof.
  destruct (handleSaveLabel_spec "bus"
              (App.setEditor (Editor.mk true (Some 11%Z)) bulkScenario)
              (Image.mk "img_1" "a.png" 1000 500) eq_refl)
    as (_ & H & _).
  destruct (H 11%Z eq_refl ltac:(discriminate)) as (HF & _).
  cbn [Image.id] in HF.
  replace (regionsOf (App.regions (App.setEditor _ bulkScenario)) "img_1")
    with [Region.mk 10 "car" (9 # 10) Auto 0 0 50 50;
          Region.mk 11 "car" (6 # 10) Auto 100 100 50 50] in HF
    by (vm_compute; reflexivity).
  apply Forall2_cons_inv_l in HF as (r1 & l1 & -> & HF & ->).
  apply Forall2_cons_inv_l in HF as (r2 & l2 & -> & HF & ->).
  apply Forall2_nil_inv_l in HF as ->. reflexivity.
Defined.

(** ** Plain and toggle clicks *)

(** X7.  Outside draw mode, a click without the range modifier, or with it
    but without an anchor, moves the anchor to the clicked position; as a
    plain click it selects exactly the clicked region; as a toggle click it
    appends the region when it was not selected and removes it when it was,
    leaving the others and their order.  Toggling twice gives a selection with
    the same members.  In draw mode a click changes nothing. *)
Theorem click_selects_or_toggles (id g : Z) (e : Modifiers.t) (s : App.t) :
  (App.annotationMode s = DrawMode -> handleSelectRegion id e g s = s)
  /\ (App.annotationMode s <> DrawMode ->
      Modifiers.shiftKey e = false \/ App.lastSelectedIndex s = None ->
      let s' := handleSelectRegion id e g s in
      App.lastSelectedIndex s' = Some g
      /\ (Modifiers.metaKey e || Modifiers.ctrlKey e = false ->
          App.selectedRegions s' = [id])
      /\ (Modifiers.metaKey e || Modifiers.ctrlKey e = true ->
          (id ∉ App.selectedRegions s ->
           App.selectedRegions s' = App.selectedRegions s ++ [id])
          /\ (id ∈ App.selectedRegions s ->
              App.selectedRegions s'
              = filter (fun v => v <> id) (App.selectedRegions s)
              /\ id ∉ App.selectedRegions s')
          /\ (Modifiers.shiftKey e = false ->
              forall v,
                v ∈ App.selectedRegions (handleSelectRegion id e g s')
                <-> v ∈ App.selectedRegions s))).
Proof.
  split.
  { intros Hm. unfold handleSelectRegion. rewrite Hm. reflexivity. }
  intros Hm Hshift s'.
  assert (Hfall : forall s0 : App.t,
    App.annotationMode s0 <> DrawMode ->
    Modifiers.shiftKey e = false \/ App.lastSelectedIndex s0 = None ->
    handleSelectRegion id e g s0
    = if Modifiers.metaKey e || Modifiers.ctrlKey e
      then App.setLastSelectedIndex (Some g)
             (App.setSelectedRegions
                (if bool_decide (id ∈ App.selectedRegions s0)
                 then filter (fun v => v <> id) (App.selectedRegions s0)
                 else App.selectedRegions s0 ++ [id]) s0)
      else App.setLastSelectedIndex (Some g) (App.setSelectedRegions [id] s0)).
  { intros s0 Hm0 Hs0. unfold handleSelectRegion.
    destruct (App.annotationMode s0); try contradiction;
      destruct Hs0 as [-> | ->]; try reflexivity;
      destruct (Modifiers.shiftKey e); reflexivity. }
  assert (E := Hfall s Hm Hshift). fold s' in E.
  destruct (Modifiers.metaKey e || Modifiers.ctrlKey e) eqn:Ek.
  - split; [rewrite E; reflexivity |].
    split; [discriminate |]. intros _.
    split; [| split].
    + intros Hn. rewrite E. app_simpl.
      rewrite bool_decide_eq_false_2 by exact Hn. reflexivity.
    + intros Hin. rewrite E. app_simpl.
      rewrite bool_decide_eq_true_2 by exact Hin.
      split; [reflexivity |]. rewrite list_elem_of_filter. tauto.
    + intros Hs v.
      assert (Hm' : App.annotationMode s' <> DrawMode) by (rewrite E; exact Hm).
      rewrite (Hfall s' Hm' (or_introl Hs)), ?Ek. app_simpl.
      rewrite E. app_simpl.
      destruct (decide (id ∈ App.selectedRegions s)) as [Hin | Hn].
      * rewrite (bool_decide_eq_true_2 _ Hin).
        rewrite bool_decide_eq_false_2
          by (rewrite list_elem_of_filter; tauto).
        rewrite elem_of_app, list_elem_of_filter, list_elem_of_singleton.
        split; [intros [[_ H] | ->]; assumption |].
        intros H. destruct (decide (v = id)); tauto.
      * rewrite (bool_decide_eq_false_2 _ Hn).
        rewrite bool_decide_eq_true_2
          by (rewrite elem_of_app, list_elem_of_singleton; tauto).
        rewrite list_elem_of_filter, elem_of_app, list_elem_of_singleton.
        split; [tauto |]. intros H. split; [congruence | tauto].
  - split; [rewrite E; reflexivity |].
    split; [intros _; rewrite E; reflexivity | discriminate].
Qed.

Lemma click_selects_or_toggles_witness :
  App.selectedRegions
    (handleSelectRegion 12 Modifiers.ctrl 2
       (handleSelectRegion 11 Modifiers.plain 1 rangeScenario))
  = [11; 12]%Z.
Proof.
  set (s1 := handleSelectRegion 11 Modifiers.plain 1 rangeScenario).
  destruct (proj2 (click_selects_or_toggles 12 2 Modifiers.ctrl s1))
    as (_ & _ & Ht); [discriminate | left; reflexivity |].
  destruct (Ht eq_refl) as (Happ & _).
  cbv zeta in Happ. rewrite Happ; [reflexivity |].
  intros F. apply list_elem_of_singleton in F. discriminate F.
Defined.

(** ** Dragging *)

Lemma dragMove_eq c s img rid :
  currentImage s = Some img ->
  Draw.isDrawing (App.draw s) = false ->
  Drag.isDragging (App.drag s) = true ->
  idTruthy (Drag.dragRegionId (App.drag s)) = Some rid ->
  handleCanvasMouseMove c s
  = App.setRegions
      (<[Image.id img :=
           map (fun r =>
                  if hasId rid r
                  then dragRegion img
                         (canvasToImageCoords
                            (Point.x c - Point.x (Drag.dragOffset (App.drag s)))
                            (Point.y c - Point.y (Drag.dragOffset (App.drag s)))
                            (Image.width img) (Image.height img)) r
                  else r)
             (regionsOf (App.regions s) (Image.id img))]> (App.regions s)) s.
Proof.
  intros Hc Hd Hg Hi. unfold handleCanvasMouseMove.
  rewrite Hc, Hd, Hg, Hi. reflexivity.
Qed.

Lemma dragRegion_absorbs img p q rid r :
  (if hasId rid (if hasId rid r then dragRegion img p r else r)
   then dragRegion img q (if hasId rid r then dragRegion img p r else r)
   else (if hasId rid r then dragRegion img p r else r))
  = if hasId rid r then dragRegion img q r else r.
Proof.
  destruct (hasId rid r) eqn:E; [| rewrite E; reflexivity].
  change (hasId rid (dragRegion img p r)) with (hasId rid r).
  rewrite E. reflexivity.
Qed.

Lemma dragMove_twice c1 c2 s img rid :
  currentImage s = Some img ->
  Draw.isDrawing (App.draw s) = false ->
  Drag.isDragging (App.drag s) = true ->
  idTruthy (Drag.dragRegionId (App.drag s)) = Some rid ->
  handleCanvasMouseMove c2 (handleCanvasMouseMove c1 s)
  = handleCanvasMouseMove c2 s.
Proof.
  intros Hc Hd Hg Hi.
  rewrite (dragMove_eq c1 s img rid Hc Hd Hg Hi).
  rewrite (dragMove_eq c2 s img rid Hc Hd Hg Hi).
  rewrite (dragMove_eq c2 (App.setRegions _ s) img rid Hc Hd Hg Hi). app_simpl.
  rewrite regionsOf_insert, insert_insert_eq, map_map.
  unfold App.setRegions. cbn. do 2 f_equal.
  apply map_ext. intros r. apply dragRegion_absorbs.
Qed.

(** X8.  While a region is dragged, the state after a series of pointer
    moves is the state after the last of them alone: the position of the box
    follows the pointer and not the path it took. *)
Theorem drag_follows_last_move (moves : list Point.t) (c : Point.t)
    (s : App.t) (img : Image.t) (rid : Z) :
  currentImage s = Some img ->
  Draw.isDrawing (App.draw s) = false ->
  Drag.isDragging (App.drag s) = true ->
  idTruthy (Drag.dragRegionId (App.drag s)) = Some rid ->
  afterMoves (moves ++ [c]) s = handleCanvasMouseMove c s.
Proof.
  revert s. induction moves as [| c1 moves IH]; intros s Hc Hd Hg Hi.
  - reflexivity.
  - change (afterMoves ((c1 :: moves) ++ [c]) s)
      with (afterMoves (moves ++ [c]) (handleCanvasMouseMove c1 s)).
    rewrite IH.
    + apply (dragMove_twice c1 c s img rid); assumption.
    + rewrite (dragMove_eq c1 s img rid Hc Hd Hg Hi). exact Hc.
    + rewrite (dragMove_eq c1 s img rid Hc Hd Hg Hi). exact Hd.
    + rewrite (dragMove_eq c1 s img rid Hc Hd Hg Hi). exact Hg.
    + rewrite (dragMove_eq c1 s img rid Hc Hd Hg Hi). exact Hi.
Qed.

Lemma drag_follows_last_move_witness :
  afterMoves [Point.mk 40 40; Point.mk 900 10; Point.mk 120 90] dragScenario
  = handleCanvasMouseMove (Point.mk 120 90) dragScenario.
Proof.
  exact (drag_follows_last_move [Point.mk 40 40; Point.mk 900 10]
           (Point.mk 120 90) dragScenario
           (Image.mk "img_1" "a.png" 1000 500) 10 eq_refl eq_refl eq_refl
           eq_refl).
Defined.

Lemma getImageTransform_scale_pos iw ih :
  0 < iw -> 0 < ih -> 0 < Transform.scale (getImageTransform iw ih).
Proof.
  intros Hw Hh.
  destruct (getImageTransform_pos iw ih Hw Hh) as (Hs & _).
  cbv zeta in Hs. rewrite Hs.
  assert (0 < CANVAS_WIDTH / iw).
  { apply Qlt_shift_div_l; [exact Hw |]. unfold CANVAS_WIDTH. lra. }
  assert (0 < CANVAS_HEIGHT / ih).
  { apply Qlt_shift_div_l; [exact Hh |]. unfold CANVAS_HEIGHT. lra. }
  qminmax.
Qed.

Lemma clamp_mono v v' lo hi : v <= v' -> clamp v lo hi <= clamp v' lo hi.
Proof. intros H. unfold clamp. qminmax. Qed.

Lemma clamp_range v lo hi :
  lo <= clamp v lo hi /\ (lo <= hi -> clamp v lo hi <= hi).
Proof. unfold clamp. split; [| intros H]; qminmax. Qed.

Lemma Qdiv_le_compat a b sc : 0 < sc -> a <= b -> a / sc <= b / sc.
Proof.
  intros Hs H. unfold Qdiv. apply Qmult_le_compat_r; [exact H |].
  apply Qlt_le_weak, Qinv_lt_0_compat, Hs.
Qed.

(** X9.  Grabbing a region in edit mode at pointer position [c0] and moving
    the pointer: the region keeps its width, height and all other fields,
    and its corner is clamped, so that [0 <= x], [0 <= y], and
    [x <= width - w] and [y <= height - h] when the region is not larger
    than the image; regions with another identifier are untouched, the
    grabbed region is the selection and the history is not written.  The
    box follows the pointer: on an image of positive size, a pointer
    position further right (down) never gives a box further left (up). *)
Theorem drag_follows_pointer (rid : Z) (c0 c1 c2 : Point.t) (s : App.t)
    (img : Image.t) (r0 : Region.t) :
  App.annotationMode s = EditMode ->
  currentImage s = Some img ->
  Draw.isDrawing (App.draw s) = false ->
  js_find (hasId rid) (currentRegions s) = Some r0 ->
  rid <> 0%Z ->
  let s1 := handleCanvasMouseMove c1 (handleDragStart rid c0 s) in
  let s2 := handleCanvasMouseMove c2 (handleDragStart rid c0 s) in
  Forall2
    (fun r r' =>
       if hasId rid r
       then exists x' y',
              r' = withBox x' y' (Region.w r) (Region.h r) r
              /\ 0 <= x' /\ 0 <= y'
              /\ (Region.w r <= Image.width img ->
                  x' <= Image.width img - Region.w r)
              /\ (Region.h r <= Image.height img ->
                  y' <= Image.height img - Region.h r)
       else r' = r)
    (regionsOf (App.regions s) (Image.id img))
    (regionsOf (App.regions s1) (Image.id img))
  /\ App.selectedRegions s1 = [rid]
  /\ App.hist s1 = App.hist s
  /\ (0 < Image.width img -> 0 < Image.height img ->
      Point.x c1 <= Point.x c2 ->
      Forall2 (fun r1 r2 => Region.x r1 <= Region.x r2)
        (regionsOf (App.regions s1) (Image.id img))
        (regionsOf (App.regions s2) (Image.id img)))
  /\ (0 < Image.width img -> 0 < Image.height img ->
      Point.y c1 <= Point.y c2 ->
      Forall2 (fun r1 r2 => Region.y r1 <= Region.y r2)
        (regionsOf (App.regions s1) (Image.id img))
        (regionsOf (App.regions s2) (Image.id img))).
Proof.
  intros Hm Hc Hd Hf Hne s1 s2.
  assert (E1 : handleDragStart rid c0 s
               = App.setSelectedRegions [rid]
                   (App.setDrag
                      (Drag.mk true (Some rid)
                         (Point.mk
                            (Point.x c0
                             - Box.x (getScaledBoundingBox r0 (Image.width img)
                                        (Image.height img)))
                            (Point.y c0
                             - Box.y (getScaledBoundingBox r0 (Image.width img)
                                        (Image.height img))))) s)).
  { unfold handleDragStart. rewrite Hm, Hc, Hf. reflexivity. }
  assert (Hi : idTruthy (Some rid) = Some rid).
  { cbn. destruct (Z.eqb_spec rid 0); [contradiction | reflexivity]. }
  subst s1 s2. rewrite E1.
  match goal with
  | |- context [handleCanvasMouseMove c1 ?s1] =>
      rewrite (dragMove_eq c1 s1 img rid Hc Hd eq_refl Hi),
              (dragMove_eq c2 s1 img rid Hc Hd eq_refl Hi)
  end. app_simpl.
  cbn [Drag.dragOffset Point.x Point.y]. rewrite !regionsOf_insert.
  split; [| split; [reflexivity | split; [reflexivity |]]].
  - apply Forall2_fmap_r, Forall_Forall2_diag, Forall_forall.
    intros r _. unfold compose.
    destruct (hasId rid r); [| reflexivity].
    eexists _, _. split; [reflexivity |].
    destruct (clamp_range
                (Point.x (canvasToImageCoords
                            (Point.x c1
                             - (Point.x c0
                                - Box.x (getScaledBoundingBox r0
                                           (Image.width img) (Image.height img))))
                            (Point.y c1
                             - (Point.y c0
                                - Box.y (getScaledBoundingBox r0
                                           (Image.width img) (Image.height img))))
                            (Image.width img) (Image.height img)))
                0 (Image.width img - Region.w r)) as [Hx0 Hx1].
    destruct (clamp_range
                (Point.y (canvasToImageCoords
                            (Point.x c1
                             - (Point.x c0
                                - Box.x (getScaledBoundingBox r0
                                           (Image.width img) (Image.height img))))
                            (Point.y c1
                             - (Point.y c0
                                - Box.y (getScaledBoundingBox r0
                                           (Image.width img) (Image.height img))))
                            (Image.width img) (Image.height img)))
                0 (Image.height img - Region.h r)) as [Hy0 Hy1].
    split; [exact Hx0 |]. split; [exact Hy0 |].
    split; intros Hle; [apply Hx1 | apply Hy1]; lra.
  - split; intros Hw Hh Hle;
      pose proof (getImageTransform_scale_pos _ _ Hw Hh) as Hs;
      apply Forall2_fmap, Forall_Forall2_diag, Forall_forall;
      intros r _; unfold compose;
      (destruct (hasId rid r); [| lra]);
      unfold dragRegion, withBox, canvasToImageCoords;
      cbn [Region.x Region.y Point.x Point.y];
      apply clamp_mono, Qdiv_le_compat; [exact Hs | lra | exact Hs | lra].
Qed.

Lemma drag_follows_pointer_witness :
  App.selectedRegions
    (handleCanvasMouseMove (Point.mk 60 70)
       (handleDragStart 11 (Point.mk 100 140) editScenario))
  = [11%Z].
Proof.
  destruct (drag_follows_pointer 11 (Point.mk 100 140) (Point.mk 60 70)
              (Point.mk 60 70) editScenario
              (Image.mk "img_1" "a.png" 1000 500)
              (Region.mk 11 "car" (6 # 10) Auto 100 100 50 50)
              eq_refl eq_refl eq_refl)
    as (_ & Hs & _).
  - vm_compute. reflexivity.
  - discriminate.
  - exact Hs.
Defined.

(** ** Resizing *)

(** X10.  What a resize step does to the box, by the letters of the handle.
    A handle with "e" keeps the left edge and clamps the width: it is at
    least 20, and at most [width - x] when that leaves room for the 20.  A
    handle with "w" clamps the left edge: it is not below 0, and at most
    [x + w - 20] when that is not negative; the width is then computed as
    [w - (newX - x)].  A handle with neither keeps both.  The same holds
    vertically for "s" and "n".  The bounds are those of the clamps, with
    their arguments as the handler computes them. *)
Theorem resize_step_clamps (img : Image.t) (hd : Handle)
    (start p : Point.t) (region : Region.t) :
  let b := resizeBox img hd start p region in
  (includes (pos hd) "e" = true ->
   Box.x b = Region.x region /\ 20 <= Box.w b
   /\ (20 <= Image.width img - Region.x region ->
       Box.w b <= Image.width img - Region.x region))
  /\ (includes (pos hd) "w" = true ->
      0 <= Box.x b
      /\ (0 <= Region.x region + Region.w region - 20 ->
          Box.x b <= Region.x region + Region.w region - 20)
      /\ Box.w b = Region.w region - (Box.x b - Region.x region))
  /\ (includes (pos hd) "w" = false -> includes (pos hd) "e" = false ->
      Box.x b = Region.x region /\ Box.w b = Region.w region)
  /\ (includes (pos hd) "s" = true ->
      Box.y b = Region.y region /\ 20 <= Box.h b
      /\ (20 <= Image.height img - Region.y region ->
          Box.h b <= Image.height img - Region.y region))
  /\ (includes (pos hd) "n" = true ->
      0 <= Box.y b
      /\ (0 <= Region.y region + Region.h region - 20 ->
          Box.y b <= Region.y region + Region.h region - 20)
      /\ Box.h b = Region.h region - (Box.y b - Region.y region))
  /\ (includes (pos hd) "n" = false -> includes (pos hd) "s" = false ->
      Box.y b = Region.y region /\ Box.h b = Region.h region).
Proof.
  destruct hd; unfold resizeBox, clamp; cbn;
    repeat split; try discriminate; try reflexivity;
    intros; qminmax.
Qed.

Lemma resize_step_clamps_witness :
  let b := resizeBox (Image.mk "img_1" "a.png" 1000 500) Hse (Point.mk 150 150)
             (Point.mk 2000 90) (Region.mk 11 "car" (6 # 10) Auto 100 100 50 50) in
  20 <= Box.w b /\ Box.w b <= 900.
Proof.
  destruct (resize_step_clamps (Image.mk "img_1" "a.png" 1000 500) Hse
              (Point.mk 150 150) (Point.mk 2000 90)
              (Region.mk 11 "car" (6 # 10) Auto 100 100 50 50))
    as (He & _).
  destruct (He eq_refl) as (_ & Hlo & Hhi).
  split; [exact Hlo |].
  assert (E : Image.width (Image.mk "img_1" "a.png" 1000 500)
              - Region.x (Region.mk 11 "car" (6 # 10) Auto 100 100 50 50)
              == 900) by reflexivity.
  rewrite <- E. apply Hhi. rewrite E. lra.
Defined.

(** ** Pointer-down *)




(** ** Intersection over union: sign, symmetry, separate boxes *)

Lemma intersection_nonneg (p q : Q) : 0 <= Qmax 0 p * Qmax 0 q.
Proof.
  apply Qmult_le_0_compat; apply Q.le_max_l.
Qed.

(** X12.  The IoU is never negative and does not depend on the order of the
    two boxes; it is 0 when the first box ends, in x or in y, at or before
    the start of the second (the comparison [x + width <= x'] as the code
    forms the right and the lower edge). *)
Theorem calculateIoU_nonneg_sym (a b : Detection.t) :
  0 <= calculateIoU a b
  /\ calculateIoU a b == calculateIoU b a
  /\ (Detection.x a + Detection.width a <= Detection.x b ->
      calculateIoU a b == 0)
  /\ (Detection.y a + Detection.height a <= Detection.y b ->
      calculateIoU a b == 0).
Proof.
  split; [| split; [apply calculateIoU_sym | split]].
  - unfold calculateIoU. cbv zeta.
    pose proof (intersection_nonneg
      (Qmin (Detection.x a + Detection.width a)
            (Detection.x b + Detection.width b)
       - Qmax (Detection.x a) (Detection.x b))
      (Qmin (Detection.y a + Detection.height a)
            (Detection.y b + Detection.height b)
       - Qmax (Detection.y a) (Detection.y b))) as Hi.
    destruct (Qltb 0 _) eqn:E; [| lra].
    apply Qltb_lt in E.
    apply Qle_shift_div_l; [exact E | lra].
  - intros Hsep. unfold calculateIoU. cbv zeta.
    assert (E0 : Qmax 0 (Qmin (Detection.x a + Detection.width a)
                              (Detection.x b + Detection.width b)
                         - Qmax (Detection.x a) (Detection.x b)) == 0)
      by qminmax.
    destruct (Qltb 0 _) eqn:E; [| reflexivity].
    rewrite E0. unfold Qdiv. ring.
  - intros Hsep. unfold calculateIoU. cbv zeta.
    assert (E0 : Qmax 0 (Qmin (Detection.y a + Detection.height a)
                              (Detection.y b + Detection.height b)
                         - Qmax (Detection.y a) (Detection.y b)) == 0)
      by qminmax.
    destruct (Qltb 0 _) eqn:E; [| reflexivity].
    rewrite E0. unfold Qdiv. ring.
Qed.

Lemma calculateIoU_nonneg_sym_witness :
  calculateIoU boxA (Detection.mk 10 0 10 10 (5 # 10) 0) == 0
  /\ calculateIoU boxA boxB == calculateIoU boxB boxA.
Proof.
  destruct (calculateIoU_nonneg_sym boxA boxB) as (_ & Hs & _).
  destruct (calculateIoU_nonneg_sym boxA (Detection.mk 10 0 10 10 (5 # 10) 0))
    as (_ & _ & H0 & _).
  split; [apply H0 | exact Hs].
  vm_compute. discriminate.
Defined.

(** ** What the suppression keeps *)

Lemma nms_outer_sublist d thr i st :
  st.1 `sublist_of` take i d ->
  (nms_outer d thr st i).1 `sublist_of` take (S i) d.
Proof.
  intros H. unfold nms_outer.
  destruct (d !! i) as [di |] eqn:Hi.
  - rewrite (take_S_r d i di Hi).
    destruct (decide (i ∈ st.2)); cbn [fst].
    + apply sublist_inserts_r. exact H.
    + apply sublist_app; [exact H | reflexivity].
  - rewrite take_ge by (apply lookup_ge_None in Hi; lia).
    rewrite take_ge in H by (apply lookup_ge_None in Hi; lia).
    destruct (decide (i ∈ st.2)); exact H.
Qed.

Lemma nms_loop_sublist d thr : (nms_loop d thr).1 `sublist_of` d.
Proof.
  unfold nms_loop.
  assert (H : forall i,
    (foldl (nms_outer d thr) ([], ∅) (seq 0 i)).1 `sublist_of` take i d).
  { induction i as [| i IH]; [apply sublist_nil_l |].
    rewrite seq_S, foldl_snoc. apply nms_outer_sublist. exact IH. }
  specialize (H (length d)). rewrite firstn_all in H. exact H.
Qed.

Lemma StronglySorted_sublist {A} (R : A -> A -> Prop) (l k : list A) :
  l `sublist_of` k -> StronglySorted R k -> StronglySorted R l.
Proof.
  induction 1 as [| x l k Hs IH | x l k Hs IH]; intros Hk.
  - constructor.
  - apply StronglySorted_inv in Hk as [Hk Hx]. constructor; [auto |].
    rewrite Forall_forall in Hx |- *. intros y Hy. apply Hx.
    eapply elem_of_sublist; eauto.
  - apply StronglySorted_inv in Hk as [Hk _]. auto.
Qed.

Lemma nms_outer_head d thr i st a :
  head st.1 = Some a -> head (nms_outer d thr st i).1 = Some a.
Proof.
  intros H. unfold nms_outer.
  destruct (decide (i ∈ st.2)); [exact H |].
  destruct (d !! i); [| exact H]. cbn [fst].
  destruct st.1; [discriminate | exact H].
Qed.

Lemma nms_loop_head d thr : head (nms_loop d thr).1 = head d.
Proof.
  destruct d as [| a d]; [reflexivity |].
  unfold nms_loop. cbn [length]. rewrite <- cons_seq. cbn [foldl].
  set (st1 := nms_outer (a :: d) thr ([], ∅) 0).
  assert (H1 : head st1.1 = Some a).
  { subst st1. unfold nms_outer. cbn [snd].
    rewrite decide_False by set_solver. reflexivity. }
  clearbody st1. revert st1 H1. generalize 1%nat.
  generalize (length d). intros n.
  induction n as [| n IH]; intros m st1 H1; [exact H1 |].
  cbn [seq foldl]. apply IH. apply nms_outer_head. exact H1.
Qed.

(** X13.  The result of [nms] is a sub-list of the candidates in the order
    of falling confidence: every kept candidate is one of the input, none is
    kept twice over, the result is again in falling order, and its first
    element is the first of that order, which no input candidate exceeds in
    confidence.  The result is empty only for an empty input. *)
Theorem nms_keeps_sublist (ds : list Detection.t) (thr : Q) :
  nms ds thr `sublist_of` js_sort byConfidenceDesc ds
  /\ (forall d, d ∈ nms ds thr -> d ∈ ds)
  /\ (length (nms ds thr) <= length ds)%nat
  /\ StronglySorted notBelow (nms ds thr)
  /\ head (nms ds thr) = head (js_sort byConfidenceDesc ds)
  /\ (forall top d, head (nms ds thr) = Some top -> d ∈ ds ->
                    Detection.confidence d <= Detection.confidence top)
  /\ (nms ds thr = [] <-> ds = []).
Proof.
  pose proof (nms_loop_sublist (js_sort byConfidenceDesc ds) thr) as Hs.
  fold (nms ds thr) in Hs.
  pose proof (js_sort_perm byConfidenceDesc ds) as Hp.
  pose proof (js_sort_notBelow ds) as Hso.
  pose proof (nms_loop_head (js_sort byConfidenceDesc ds) thr) as Hh.
  fold (nms ds thr) in Hh.
  split; [exact Hs |]. split; [| split; [| split; [| split; [| split]]]].
  - intros d Hd. rewrite <- Hp. eapply elem_of_sublist; eauto.
  - rewrite <- (Permutation_length Hp). apply sublist_length. exact Hs.
  - eapply StronglySorted_sublist; eauto.
  - exact Hh.
  - intros top d Ht Hd. rewrite Hh in Ht. rewrite <- Hp in Hd.
    destruct (js_sort byConfidenceDesc ds) as [| a l]; [discriminate |].
    injection Ht as ->. apply StronglySorted_inv in Hso as [_ Hall].
    apply elem_of_cons in Hd as [-> | Hd]; [lra |].
    rewrite Forall_forall in Hall. apply Hall. exact Hd.
  - split.
    + intros E. rewrite E in Hh.
      destruct (js_sort byConfidenceDesc ds) eqn:F; [| discriminate].
      symmetry in Hp. apply Permutation_nil_r in Hp.
      exact Hp.
    + intros ->. reflexivity.
Qed.

(** ** When nothing is suppressed *)

Lemma js_sort_sorted l :
  StronglySorted notBelow l -> js_sort byConfidenceDesc l = l.
Proof.
  induction 1 as [| a l Hs IH Ha]; [reflexivity |].
  cbn [js_sort foldr]. fold (js_sort byConfidenceDesc l). rewrite IH.
  destruct l as [| b l]; [reflexivity |]. cbn [js_sort_insert].
  apply Forall_cons in Ha as [Hb _]. unfold notBelow in Hb.
  assert (E : Qltb 0 (byConfidenceDesc a b) = false).
  { apply Qltb_ge. unfold byConfidenceDesc. lra. }
  rewrite E. reflexivity.
Qed.

Lemma nms_loop_noSuppression d thr :
  noSuppression d thr -> (nms_loop d thr).1 = d.
Proof.
  intros Hno. unfold nms_loop.
  assert (H : forall i, (i <= length d)%nat ->
    foldl (nms_outer d thr) ([], ∅) (seq 0 i) = (take i d, ∅)).
  { induction i as [| i IH]; intros Hi; [reflexivity |].
    rewrite seq_S, foldl_snoc, IH by lia. cbn [Nat.add].
    unfold nms_outer. cbn [fst snd].
    rewrite decide_False by set_solver.
    destruct (lookup_lt_is_Some_2 d i ltac:(lia)) as [di Hdi].
    rewrite Hdi, (take_S_r d i di Hdi). f_equal.
    apply set_eq. intros x. rewrite nms_inner_fold_spec.
    split; [| set_solver].
    intros [F | [Hx F]]; [exact F |]. exfalso.
    apply (Hno i x); [lia | exact F]. }
  rewrite (H (length d) (le_n _)), firstn_all. reflexivity.
Qed.




Lemma nms_keeps_sublist_witness :
  head (nms [boxC; boxA; boxB] (4 # 10)) = Some boxA.
Proof.
  destruct (nms_keeps_sublist [boxC; boxA; boxB] (4 # 10))
    as (_ & _ & _ & _ & Hh & _).
  rewrite Hh. reflexivity.
Defined.

(** ** Idempotence of the suppression *)

Lemma omap_lookup_total {A} (d : list A) (idxs : list nat) :
  (forall k, k ∈ idxs -> (k < length d)%nat) ->
  forall p, omap (fun k => d !! k) idxs !! p = idxs !! p ≫= (fun k => d !! k).
Proof.
  induction idxs as [| k idxs IH]; intros Hlt p; [reflexivity |].
  destruct (lookup_lt_is_Some_2 d k (Hlt k ltac:(left))) as [a Ha].
  change (omap (fun k => d !! k) (k :: idxs))
    with (match d !! k with
          | Some y => y :: omap (fun k => d !! k) idxs
          | None => omap (fun k => d !! k) idxs
          end).
  rewrite Ha. destruct p as [| p]; cbn.
  - rewrite Ha. reflexivity.
  - apply IH. intros j Hj. apply Hlt. right. exact Hj.
Qed.

Lemma StronglySorted_lt_lookup (l : list nat) p q a b :
  StronglySorted lt l -> (p < q)%nat ->
  l !! p = Some a -> l !! q = Some b -> (a < b)%nat.
Proof.
  intros Hs. revert p q. induction Hs as [| x l Hs IH Hx]; intros p q Hpq Hp Hq.
  - inversion Hp.
  - destruct q as [| q]; [lia |]. cbn in Hq. destruct p as [| p]; cbn in Hp.
    + injection Hp as ->. rewrite Forall_forall in Hx. apply Hx.
      apply list_elem_of_lookup. eauto.
    + apply (IH p q); [lia | assumption | assumption].
Qed.

Lemma nms_loop_output_noSuppression d thr :
  noSuppression (nms_loop d thr).1 thr.
Proof.
  destruct (nms_loop_spec d thr) as (idxs & Hk & Hs & Hlt & Hiff).
  intros p q Hpq (dp & dq & Hp & Hq & Hsup).
  rewrite Hk, omap_lookup_total in Hp, Hq by exact Hlt.
  destruct (idxs !! p) as [kp |] eqn:Ep; [| discriminate].
  destruct (idxs !! q) as [kq |] eqn:Eq; [| discriminate].
  cbn in Hp, Hq.
  pose proof (StronglySorted_lt_lookup idxs p q kp kq Hs Hpq Ep Eq) as Hlt'.
  assert (Hkq : kq ∈ idxs) by (apply list_elem_of_lookup; eauto).
  assert (Hkp : kp ∈ idxs) by (apply list_elem_of_lookup; eauto).
  apply (proj1 (Hiff kq (Hlt kq Hkq)) Hkq).
  exists kp. split; [exact Hlt' |]. split; [exact Hkp |].
  exists dp, dq. tauto.
Qed.

(** X15.  Suppression is idempotent: running [nms] on its own result with
    the same threshold returns that result. *)
Theorem nms_idempotent (ds : list Detection.t) (thr : Q) :
  nms (nms ds thr) thr = nms ds thr.
Proof.
  assert (Hsorted : StronglySorted notBelow (nms ds thr)).
  { eapply StronglySorted_sublist; [apply nms_loop_sublist |].
    apply js_sort_notBelow. }
  unfold nms at 1. rewrite (js_sort_sorted _ Hsorted).
  apply nms_loop_noSuppression. apply nms_loop_output_noSuppression.
Qed.

(** ** Decoding the model output *)

Lemma maxScore_fold data numBoxes i n : forall acc,
  0 <= acc.1 ->
  let r := foldl (maxScore_step data numBoxes i) acc (seq 0 n) in
  acc.1 <= r.1
  /\ (forall c sc, (c < n)%nat ->
        data !! ((4 + c) * numBoxes + i)%nat = Some sc -> sc <= r.1)
  /\ (r = acc
      \/ ((r.2 < n)%nat
          /\ data !! ((4 + r.2) * numBoxes + i)%nat = Some r.1)).
Proof.
  induction n as [| n IH]; intros acc Hacc; cbv zeta.
  - cbn. split; [lra |]. split; [intros c sc Hc; lia | left; reflexivity].
  - rewrite seq_S, foldl_snoc. change (0 + n)%nat with n.
    destruct (IH acc Hacc) as (Hle & Hmax & Hor). cbv zeta in Hle, Hmax, Hor.
    set (r := foldl _ acc (seq 0 n)) in *.
    unfold maxScore_step.
    destruct (data !! ((4 + n) * numBoxes + i)%nat) as [score |] eqn:E.
    + destruct (Qltb r.1 score) eqn:L; cbn [fst snd].
      * apply Qltb_lt in L. split; [lra |]. split.
        -- intros c sc Hc Hsc. destruct (decide (c = n)) as [-> | Hne].
           ++ rewrite E in Hsc. injection Hsc as ->. lra.
           ++ specialize (Hmax c sc ltac:(lia) Hsc). lra.
        -- right. split; [lia | exact E].
      * apply Qltb_ge in L. split; [exact Hle |]. split.
        -- intros c sc Hc Hsc. destruct (decide (c = n)) as [-> | Hne].
           ++ rewrite E in Hsc. injection Hsc as ->. exact L.
           ++ apply (Hmax c sc); [lia | exact Hsc].
        -- destruct Hor as [Hr | [Hlt Hd]]; [left; exact Hr |].
           right. split; [lia | exact Hd].
    + split; [exact Hle |]. split.
      * intros c sc Hc Hsc. destruct (decide (c = n)) as [-> | Hne].
        -- rewrite E in Hsc. discriminate.
        -- apply (Hmax c sc); [lia | exact Hsc].
      * destruct Hor as [Hr | [Hlt Hd]]; [left; exact Hr |].
        right. split; [lia | exact Hd].
Qed.

Lemma decodeBox_spec inputSize imgWidth imgHeight t data numBoxes numClasses
    confThreshold isNormalized i d :
  decodeBox inputSize imgWidth imgHeight t data numBoxes numClasses
    confThreshold isNormalized i = Some d ->
  0 <= Detection.x d /\ 0 <= Detection.y d
  /\ 5 < Detection.width d /\ 5 < Detection.height d
  /\ Detection.x d + Detection.width d <= imgWidth
  /\ Detection.y d + Detection.height d <= imgHeight
  /\ confThreshold <= Detection.confidence d
  /\ 0 <= Detection.confidence d
  /\ (forall c sc, (c < numClasses)%nat ->
        data !! ((4 + c) * numBoxes + i)%nat = Some sc ->
        sc <= Detection.confidence d)
  /\ (0 < Detection.confidence d ->
      (Detection.classId d < numClasses)%nat
      /\ data !! ((4 + Detection.classId d) * numBoxes + i)%nat
         = Some (Detection.confidence d)).
Proof.
  unfold decodeBox.
  destruct (maxScore_fold data numBoxes i numClasses (0, 0%nat))
    as (Hle & Hmax & Hor); [cbn; lra |].
  cbv zeta in Hle, Hmax, Hor. cbn [fst] in Hle.
  destruct (foldl _ _ _) as [maxScore maxClassId]. cbn [fst snd] in *.
  destruct (Qltb maxScore confThreshold) eqn:Ec; [discriminate |].
  apply Qltb_ge in Ec.
  destruct (data !! (0 * numBoxes + i)%nat) as [cx |]; [| discriminate].
  destruct (data !! (1 * numBoxes + i)%nat) as [cy |]; [| discriminate].
  destruct (data !! (2 * numBoxes + i)%nat) as [w |]; [| discriminate].
  destruct (data !! (3 * numBoxes + i)%nat) as [h |]; [| discriminate].
  destruct (if isNormalized then _ else _) as [[[cx' cy'] w'] h'].
  set (x1 := (cx' - w' / 2 - _) / _). set (y1 := (cy' - h' / 2 - _) / _).
  set (x2 := (cx' + w' / 2 - _) / _). set (y2 := (cy' + h' / 2 - _) / _).
  clearbody x1 y1 x2 y2.
  destruct (Qltb 5 _) eqn:Ew; [| discriminate].
  destruct (Qltb 5 (Qmin imgHeight y2 - _)) eqn:Eh; [| discriminate].
  intros E. injection E as <-.
  apply Qltb_lt in Ew, Eh.
  cbn [Detection.x Detection.y Detection.width Detection.height
       Detection.confidence Detection.classId].
  split; [qminmax |]. split; [qminmax |].
  split; [exact Ew |]. split; [exact Eh |].
  split; [qminmax |]. split; [qminmax |].
  split; [exact Ec |]. split; [exact Hle |]. split; [exact Hmax |].
  intros Hpos. destruct Hor as [Hr | Hr]; [| exact Hr].
  injection Hr as -> _. lra.
Qed.

(** X16.  For an image of positive width and height (so that the letterbox
    scale is a positive number), every detection [runONNXInference] returns,
    for any output tensor and any thresholds, lies inside the image, is more
    than 5 wide and high, and has a confidence that is not below the
    confidence threshold and is the largest class score of one of the boxes
    of the tensor; when it is positive, the class of the detection is a
    class with that score. *)
Theorem decodeOutput_in_bounds (inputSize imgWidth imgHeight : Q)
    (numFeatures numBoxes : nat) (data : list Q)
    (confThreshold iouThreshold : Q) (d : Detection.t) :
  0 < inputSize -> 0 < imgWidth -> 0 < imgHeight ->
  d ∈ decodeOutput inputSize imgWidth imgHeight numFeatures numBoxes data
        confThreshold iouThreshold ->
  0 <= Detection.x d /\ 0 <= Detection.y d
  /\ 5 < Detection.width d /\ 5 < Detection.height d
  /\ Detection.x d + Detection.width d <= imgWidth
  /\ Detection.y d + Detection.height d <= imgHeight
  /\ confThreshold <= Detection.confidence d
  /\ exists i, (i < numBoxes)%nat
       /\ (forall c sc, (c < numFeatures - 4)%nat ->
             data !! ((4 + c) * numBoxes + i)%nat = Some sc ->
             sc <= Detection.confidence d)
       /\ (0 < Detection.confidence d ->
           (Detection.classId d < numFeatures - 4)%nat
           /\ data !! ((4 + Detection.classId d) * numBoxes + i)%nat
              = Some (Detection.confidence d)).
Proof.
  unfold decodeOutput. intros _ _ _ Hd.
  eapply elem_of_sublist in Hd; [| apply nms_loop_sublist].
  rewrite js_sort_perm in Hd.
  apply list_elem_of_omap in Hd as (i & Hi & Hdec).
  apply elem_of_seq in Hi.
  apply decodeBox_spec in Hdec
    as (Hx & Hy & Hw & Hh & Hr & Hb & Hc & _ & Hmax & Hcls).
  repeat (split; [assumption |]).
  exists i. split; [lia |]. split; assumption.
Qed.

Lemma decodeOutput_in_bounds_witness :
  exists d,
    decodeOutput 640 640 640 6 1 oneBoxTensor (25 # 100) (45 # 100) = [d]
    /\ Detection.x d + Detection.width d <= 640
    /\ Detection.classId d = 1%nat.
Proof.
  eexists. split; [vm_compute; reflexivity |].
  split; [| reflexivity].
  apply (decodeOutput_in_bounds 640 640 640 6 1 oneBoxTensor (25 # 100)
           (45 # 100)); [reflexivity | reflexivity | reflexivity |].
  vm_compute. left.
Defined.

(** ** Candidate boxes of the remote response *)

Lemma opt_str_or_nonempty o b : b <> "" -> opt_str_or o b <> "".
Proof.
  intros Hb. unfold opt_str_or. destruct o as [s |]; [| exact Hb].
  destruct (String.eqb s "") eqn:E; [exact Hb |].
  apply String.eqb_neq in E. exact E.
Qed.

Lemma transformItem_label iw ih idx det :
  Candidate.className (transformItem iw ih idx det)
  = Candidate.label (transformItem iw ih idx det)
  /\ Candidate.label (transformItem iw ih idx det) <> "".
Proof.
  unfold transformItem. destruct (itemBox det) as [[[x y] wd] ht].
  destruct (Qltb x 1 && Qltb y 1 && Qltb wd 1 && Qltb ht 1);
    cbn [Candidate.className Candidate.label];
    (split; [reflexivity |]);
    do 3 apply opt_str_or_nonempty; discriminate.
Qed.

Lemma transformItem_pixels iw ih idx det x y wd ht :
  itemBox det = (x, y, wd, ht) ->
  Qltb x 1 && Qltb y 1 && Qltb wd 1 && Qltb ht 1 = false ->
  let c := transformItem iw ih idx det in
  Candidate.x c = Qmax 0 x /\ Candidate.y c = Qmax 0 y
  /\ Candidate.width c = Qmin (iw - x) wd
  /\ Candidate.height c = Qmin (ih - y) ht.
Proof.
  intros Hb Hn. cbv zeta. unfold transformItem. rewrite Hb, Hn.
  repeat split; reflexivity.
Qed.

Lemma transformItem_normalized iw ih idx det x y wd ht :
  itemBox det = (x, y, wd, ht) ->
  Qltb x 1 && Qltb y 1 && Qltb wd 1 && Qltb ht 1 = true ->
  let c := transformItem iw ih idx det in
  Candidate.x c = Qmax 0 (x * iw) /\ Candidate.y c = Qmax 0 (y * ih)
  /\ Candidate.width c = Qmin (iw - x * iw) (wd * iw)
  /\ Candidate.height c = Qmin (ih - y * ih) (ht * ih).
Proof.
  intros Hb Hn. cbv zeta. unfold transformItem. rewrite Hb, Hn.
  repeat split; reflexivity.
Qed.

(** X17.  [transformDetections] returns one candidate per item of the
    response, in order.  For an image of non-negative size, the candidate of
    an item has a non-negative corner and a non-empty label equal to its
    class name.  When the corner of the item is not negative, the width is at
    most the room [imgWidth - x] the code computes right of the corner, and
    the height at most [imgHeight - y]; nothing keeps the sizes from being
    negative: a pixel box whose corner lies right of the image gets a
    negative width.  A pixel box that fits that room is passed on unchanged;
    a box whose four numbers are all below 1 is scaled by the image size,
    and passed on scaled when it fits the room; a box with a 1 among its
    numbers, such as the normalized full image, is not scaled.  The width is
    cut against the corner before that is clamped: a pixel box that starts
    left of the image gets the corner 0 and may keep the width
    [imgWidth - x], which is not below the width of the image. *)
Theorem transformDetections_boxes (resp : ApiResponse) (iw ih : Q) :
  0 <= iw -> 0 <= ih ->
  length (transformDetections resp iw ih) = length (responseItems resp)
  /\ forall idx det x y wd ht,
       responseItems resp !! idx = Some det ->
       itemBox det = (x, y, wd, ht) ->
       exists c,
         transformDetections resp iw ih !! idx = Some c
         /\ 0 <= Candidate.x c /\ 0 <= Candidate.y c
         /\ Candidate.className c = Candidate.label c
         /\ Candidate.label c <> ""
         /\ (0 <= x -> Candidate.width c <= iw - Candidate.x c)
         /\ (0 <= y -> Candidate.height c <= ih - Candidate.y c)
         /\ (1 <= x -> iw < x -> Candidate.width c < 0)
         /\ (1 <= y -> ih < y -> Candidate.height c < 0)
         /\ (1 <= x \/ 1 <= y \/ 1 <= wd \/ 1 <= ht ->
             0 <= x -> 0 <= y -> wd <= iw - x -> ht <= ih - y ->
             Candidate.x c == x /\ Candidate.y c == y
             /\ Candidate.width c == wd /\ Candidate.height c == ht)
         /\ (x < 1 -> y < 1 -> wd < 1 -> ht < 1 ->
             0 <= x -> 0 <= y ->
             wd * iw <= iw - x * iw -> ht * ih <= ih - y * ih ->
             Candidate.x c == x * iw /\ Candidate.y c == y * ih
             /\ Candidate.width c == wd * iw /\ Candidate.height c == ht * ih)
         /\ (x < 0 -> 1 <= y \/ 1 <= wd \/ 1 <= ht -> iw - x <= wd ->
             Candidate.x c == 0 /\ Candidate.width c == iw - x
             /\ iw <= Candidate.width c).
Proof.
  intros Hiw Hih. split.
  { unfold transformDetections, responseItems.
    destruct resp as [[d |] [p |] | items]; apply length_imap. }
  intros idx det x y wd ht Hdet Hb.
  exists (transformItem iw ih idx det). split.
  { rewrite transformDetections_lookup, Hdet. reflexivity. }
  destruct (transformItem_label iw ih idx det) as [Hcl Hl].
  destruct (Qltb x 1 && Qltb y 1 && Qltb wd 1 && Qltb ht 1) eqn:Hn.
  - destruct (transformItem_normalized iw ih idx det x y wd ht Hb Hn)
      as (Ex & Ey & Ew & Eh).
    rewrite Ex, Ey, Ew, Eh. clear Ex Ey Ew Eh.
    apply andb_prop in Hn as [Hn Hh]. apply andb_prop in Hn as [Hn Hw].
    apply andb_prop in Hn as [Hx Hy].
    apply Qltb_lt in Hx, Hy, Hw, Hh.
    split; [qminmax |]. split; [qminmax |].
    split; [exact Hcl |]. split; [exact Hl |].
    split; [| split; [| split; [| split; [| split; [| split]]]]].
    + intros Hx0. assert (0 <= x * iw) by nra. qminmax.
    + intros Hy0. assert (0 <= y * ih) by nra. qminmax.
    + intros F. lra.
    + intros F. lra.
    + intros [F | [F | [F | F]]]; lra.
    + intros _ _ _ _ Hx0 Hy0 Hxw Hyh.
      assert (0 <= x * iw) by nra. assert (0 <= y * ih) by nra.
      repeat split; qminmax.
    + intros _ [F | [F | F]]; lra.
  - destruct (transformItem_pixels iw ih idx det x y wd ht Hb Hn)
      as (Ex & Ey & Ew & Eh).
    rewrite Ex, Ey, Ew, Eh. clear Ex Ey Ew Eh.
    split; [qminmax |]. split; [qminmax |].
    split; [exact Hcl |]. split; [exact Hl |].
    split; [| split; [| split; [| split; [| split; [| split]]]]].
    + intros Hx0. qminmax.
    + intros Hy0. qminmax.
    + intros _ Hx. qminmax.
    + intros _ Hy. qminmax.
    + intros _ Hx0 Hy0 Hxw Hyh. repeat split; qminmax.
    + intros Hx Hy Hw Hh.
      apply Qltb_lt in Hx, Hy, Hw, Hh. rewrite Hx, Hy, Hw, Hh in Hn.
      discriminate Hn.
    + intros Hx _ Hw. repeat split; qminmax.
Qed.

Lemma transformDetections_boxes_witness :
  exists c,
    transformDetections (ResponseArray [fullImageItem]) 640 480 !! 0%nat
    = Some c
    /\ Candidate.width c == 1 /\ Candidate.height c == 1.
Proof.
  destruct (transformDetections_boxes (ResponseArray [fullImageItem]) 640 480)
    as [_ H]; [lra | lra |].
  destruct (H 0%nat fullImageItem 0 0 1 1 eq_refl eq_refl)
    as (c & Hc & _ & _ & _ & _ & _ & _ & _ & _ & Hp & _).
  exists c. split; [exact Hc |].
  destruct Hp as (_ & _ & Hw & Hh); [lra | lra | lra | lra | lra |].
  split; assumption.
Defined.

(** ** Text prompts *)

Lemma trimStart_blank s :
  trimStart s = EmptyString <-> allChars isWhiteSpace s = true.
Proof.
  induction s as [| c s IH]; cbn; [tauto |].
  destruct (isWhiteSpace c); cbn; [exact IH |]. split; discriminate.
Qed.

Lemma trimEnd_blank s :
  trimEnd s = EmptyString <-> allChars isWhiteSpace s = true.
Proof.
  induction s as [| c s IH]; cbn; [tauto |].
  destruct (isWhiteSpace c); cbn.
  - destruct (String.eqb (trimEnd s) EmptyString) eqn:E.
    + apply String.eqb_eq in E. rewrite <- IH. tauto.
    + apply String.eqb_neq in E. rewrite <- IH. split; [discriminate | tauto].
  - split; discriminate.
Qed.

Lemma allChars_trimStart p s :
  allChars p s = true -> allChars p (trimStart s) = true.
Proof.
  induction s as [| c s IH]; cbn; [tauto |].
  intros H. apply andb_prop in H as [Hc Hs].
  destruct (isWhiteSpace c); [apply IH, Hs |]. cbn. rewrite Hc, Hs. reflexivity.
Qed.

Lemma allChars_trimEnd p s :
  allChars p s = true -> allChars p (trimEnd s) = true.
Proof.
  induction s as [| c s IH]; cbn; [tauto |].
  intros H. apply andb_prop in H as [Hc Hs].
  destruct (isWhiteSpace c && String.eqb (trimEnd s) EmptyString);
    [reflexivity |].
  cbn. rewrite Hc, (IH Hs). reflexivity.
Qed.

Lemma trim_blank s :
  trim s = EmptyString <-> allChars isWhiteSpace s = true.
Proof.
  unfold trim. rewrite trimEnd_blank. split.
  - intros H. apply trimStart_blank. apply trimEnd_blank in H.
    induction s as [| c s IH]; [reflexivity |]. cbn in *.
    destruct (isWhiteSpace c) eqn:E; [apply IH, H |].
    cbn in H. rewrite E in H. discriminate H.
  - apply allChars_trimStart.
Qed.

Lemma isBlank_spec s : isBlank s = true <-> allChars isWhiteSpace s = true.
Proof.
  unfold isBlank. rewrite orb_true_iff, !String.eqb_eq, trim_blank.
  split; [| tauto]. intros [-> | H]; [reflexivity | exact H].
Qed.

Lemma trimEnd_idem s : trimEnd (trimEnd s) = trimEnd s.
Proof.
  induction s as [| c s IH]; [reflexivity |]. cbn.
  destruct (isWhiteSpace c && String.eqb (trimEnd s) EmptyString) eqn:E;
    [reflexivity |].
  cbn. rewrite IH, E. reflexivity.
Qed.

Lemma trimStart_trimEnd s : trimStart (trimEnd s) = trimEnd (trimStart s).
Proof.
  induction s as [| c s IH]; [reflexivity |]. cbn.
  destruct (isWhiteSpace c) eqn:Ec; cbn.
  - destruct (String.eqb (trimEnd s) EmptyString) eqn:E.
    + apply String.eqb_eq in E. cbn. symmetry. apply trimEnd_blank.
      apply allChars_trimStart. apply trimEnd_blank. exact E.
    + cbn. rewrite Ec. exact IH.
  - rewrite ?Ec. cbn. rewrite ?Ec. reflexivity.
Qed.

Lemma trimStart_idem s : trimStart (trimStart s) = trimStart s.
Proof.
  induction s as [| c s IH]; [reflexivity |]. cbn.
  destruct (isWhiteSpace c) eqn:E; [exact IH |]. cbn. rewrite E. reflexivity.
Qed.

Lemma trim_idem s : trim (trim s) = trim s.
Proof.
  unfold trim. rewrite trimStart_trimEnd, trimStart_idem, trimEnd_idem.
  reflexivity.
Qed.

Lemma split_dot_nonempty s : split_dot s <> [].
Proof.
  induction s as [| c s IH]; cbn; [discriminate |].
  destruct (split_dot s) as [| p ps]; [contradiction |].
  destruct (isDot c); discriminate.
Qed.

Lemma split_dot_dotless s :
  Forall (fun p => allChars (fun c => negb (isDot c)) p = true) (split_dot s).
Proof.
  induction s as [| c s IH]; cbn; [repeat constructor |].
  destruct (split_dot s) as [| p ps]; [constructor |].
  inversion IH as [| ? ? Hp Hps]; subst.
  destruct (isDot c) eqn:E; constructor; try assumption.
  - reflexivity.
  - cbn. rewrite E, Hp. reflexivity.
Qed.

Lemma string_app_nil (s : string) : EmptyString +:+ s = s.
Proof. reflexivity. Qed.

Lemma string_app_cons c (a b : string) :
  String c a +:+ b = String c (a +:+ b).
Proof. reflexivity. Qed.

Lemma split_dot_app p s :
  allChars (fun c => negb (isDot c)) p = true ->
  split_dot (p +:+ String "." s) = p :: split_dot s.
Proof.
  induction p as [| c p IH]; intros H.
  - rewrite string_app_nil. cbn.
    pose proof (split_dot_nonempty s) as Hne.
    destruct (split_dot s) as [| q qs]; [contradiction | reflexivity].
  - cbn in H. apply andb_prop in H as [Hc Hp].
    rewrite string_app_cons. cbn [split_dot].
    rewrite (IH Hp). apply negb_true_iff in Hc. rewrite Hc. reflexivity.
Qed.

Lemma split_dot_dotless_one p :
  allChars (fun c => negb (isDot c)) p = true -> split_dot p = [p].
Proof.
  induction p as [| c p IH]; cbn; intros H; [reflexivity |].
  apply andb_prop in H as [Hc Hp]. rewrite (IH Hp).
  apply negb_true_iff in Hc. rewrite Hc. reflexivity.
Qed.

Lemma split_dot_blank s :
  allChars (fun c => isDot c || isWhiteSpace c) s = true ->
  Forall (fun p => allChars isWhiteSpace p = true) (split_dot s).
Proof.
  induction s as [| c s IH]; cbn; intros H; [repeat constructor |].
  apply andb_prop in H as [Hc Hs]. specialize (IH Hs).
  destruct (split_dot s) as [| p ps]; [constructor |].
  inversion IH as [| ? ? Hp Hps]; subst.
  destruct (isDot c) eqn:E.
  - constructor; [reflexivity |]. constructor; assumption.
  - cbn in Hc. constructor; [| assumption]. cbn. rewrite Hc, Hp. reflexivity.
Qed.

Lemma trimEnd_snoc_space p :
  trimEnd (p +:+ " ") = trimEnd p.
Proof.
  induction p as [| c p IH]; [reflexivity |].
  rewrite string_app_cons. cbn [trimEnd]. rewrite IH. reflexivity.
Qed.

Lemma trim_padded p : trim p = p -> trim (String " " (p +:+ " ")) = p.
Proof.
  intros H. unfold trim in *. cbn [trimStart isWhiteSpace].
  change (isWhiteSpace " ") with true. cbn match.
  rewrite <- trimStart_trimEnd, trimEnd_snoc_space, trimStart_trimEnd.
  exact H.
Qed.

Lemma trim_padded_left p : trim p = p -> trim (String " " p) = p.
Proof. intros H. exact H. Qed.

Lemma trim_padded_right p : trim p = p -> trim (p +:+ " ") = p.
Proof.
  intros H. unfold trim in *.
  rewrite <- trimStart_trimEnd, trimEnd_snoc_space, trimStart_trimEnd.
  exact H.
Qed.

Lemma app_assoc_string (a b c : string) : (a +:+ b) +:+ c = a +:+ (b +:+ c).
Proof.
  induction a as [| x a IH]; [reflexivity |].
  rewrite !string_app_cons, IH. reflexivity.
Qed.

Lemma allChars_app f (a b : string) :
  allChars f (a +:+ b) = allChars f a && allChars f b.
Proof.
  induction a as [| c a IH]; [reflexivity |].
  rewrite string_app_cons. cbn. rewrite IH. apply andb_assoc.
Qed.

Lemma filter_clean ps :
  Forall cleanPrompt ps ->
  filter (fun p => (0 < String.length p)%nat) ps = ps.
Proof.
  induction 1 as [| p ps [Hne _] _ IH]; [reflexivity |].
  rewrite filter_cons_True, IH; [reflexivity |].
  destruct p; [contradiction | cbn; lia].
Qed.

(** The pieces of a joined list of clean prompts, each padded by the
    blanks of the separator. *)
Lemma split_join_tail p ps :
  Forall cleanPrompt (p :: ps) ->
  map trim (split_dot (String " " (joinPrompts (p :: ps)))) = p :: ps.
Proof.
  revert p. induction ps as [| q ps IH]; intros p Hc.
  - inversion Hc as [| ? ? (Hne & Hd & Ht) _]; subst. cbn [joinPrompts].
    rewrite split_dot_dotless_one by (cbn; exact Hd).
    cbn [map]. rewrite (trim_padded_left p Ht). reflexivity.
  - inversion Hc as [| ? ? (Hne & Hd & Ht) Hc']; subst.
    change (joinPrompts (p :: q :: ps))
      with (p +:+ " . " +:+ joinPrompts (q :: ps)).
    change (String " " (p +:+ " . " +:+ joinPrompts (q :: ps)))
      with (String " " (p +:+ String " " (String "." (String " "
              (joinPrompts (q :: ps)))))).
    replace (String " " (p +:+ String " " (String "." (String " "
               (joinPrompts (q :: ps))))))
      with ((String " " (p +:+ " ")) +:+ String "." (String " "
               (joinPrompts (q :: ps)))).
    2:{ rewrite string_app_cons, app_assoc_string. reflexivity. }
    rewrite split_dot_app.
    2:{ change (String " " (p +:+ " ")) with (" " +:+ (p +:+ " ")).
        rewrite !allChars_app, Hd. reflexivity. }
    cbn [map]. rewrite (trim_padded p Ht), (IH q Hc'). reflexivity.
Qed.

Lemma trim_starts s c t : trim s = String c t -> isWhiteSpace c = false.
Proof.
  unfold trim. rewrite <- trimStart_trimEnd. generalize (trimEnd s).
  intros u. induction u as [| d u IH]; cbn; [discriminate |].
  destruct (isWhiteSpace d) eqn:E; [exact IH |].
  intros H. injection H as <- _. exact E.
Qed.

(** X18.  [parsePrompts] throws exactly on a prompt of white space only
    (the empty one included).  Each prompt it returns is not empty, has no
    dot and no white space at either end.  A list of such prompts joined by
    [" . "] is parsed back to the list.  A prompt that has a dot and
    otherwise only dots and white space passes the test and is parsed to
    the empty list. *)
Theorem parsePrompts_spec (textPrompt : string) :
  (parsePrompts textPrompt = inl PromptEmpty
   <-> allChars isWhiteSpace textPrompt = true)
  /\ (forall e, parsePrompts textPrompt = inl e -> e = PromptEmpty)
  /\ (forall ps, parsePrompts textPrompt = inr ps -> Forall cleanPrompt ps)
  /\ (forall ps, ps <> [] -> Forall cleanPrompt ps ->
        textPrompt = joinPrompts ps -> parsePrompts textPrompt = inr ps)
  /\ (allChars (fun c => isDot c || isWhiteSpace c) textPrompt = true ->
      allChars isWhiteSpace textPrompt = false ->
      parsePrompts textPrompt = inr []).
Proof.
  unfold parsePrompts.
  pose proof (isBlank_spec textPrompt) as Hb.
  split; [| split; [| split; [| split]]].
  - destruct (isBlank textPrompt).
    + split; [intros _; apply Hb; reflexivity | reflexivity].
    + split; [discriminate |]. intros H. apply Hb in H. discriminate H.
  - intros e. destruct (isBlank textPrompt); [| discriminate].
    intros H. injection H as <-. reflexivity.
  - intros ps. destruct (isBlank textPrompt); [discriminate |].
    intros H. injection H as <-.
    apply Forall_forall. intros p Hp.
    apply list_elem_of_filter in Hp as [Hlen Hp].
    apply list_elem_of_fmap in Hp as (q & -> & Hq).
    pose proof (split_dot_dotless textPrompt) as Hd.
    rewrite Forall_forall in Hd. specialize (Hd q Hq).
    split; [| split].
    + intros E. rewrite E in Hlen. cbn in Hlen. lia.
    + unfold trim. apply allChars_trimEnd, allChars_trimStart, Hd.
    + apply trim_idem.
  - intros ps Hne Hc ->.
    assert (Hnb : isBlank (joinPrompts ps) = false).
    { destruct (isBlank (joinPrompts ps)) eqn:E; [| reflexivity].
      exfalso. apply isBlank_spec, trim_blank in E.
      destruct ps as [| p ps]; [contradiction |].
      inversion Hc as [| ? ? (Hpne & Hd & Ht) Hc']; subst.
      destruct p as [| c p]; [contradiction |].
      pose proof (trim_starts _ _ _ Ht) as Hws.
      assert (Hj : exists r, joinPrompts (String c p :: ps) = String c r).
      { destruct ps; cbn; eauto. }
      destruct Hj as [r Hj]. rewrite Hj in E. unfold trim in E. cbn in E.
      rewrite Hws in E. cbn in E. rewrite Hws in E. discriminate E. }
    rewrite Hnb. f_equal.
    destruct ps as [| p ps]; [contradiction |].
    assert (Hm : map trim (split_dot (joinPrompts (p :: ps))) = p :: ps).
    { pose proof (split_join_tail p ps Hc) as Hs.
      inversion Hc as [| ? ? (Hpne & Hd & Ht) Hc']; subst.
      destruct ps as [| q ps].
      - cbn [joinPrompts]. rewrite split_dot_dotless_one by exact Hd.
        cbn. rewrite Ht. reflexivity.
      - change (joinPrompts (p :: q :: ps))
          with (p +:+ " . " +:+ joinPrompts (q :: ps)).
        change (p +:+ " . " +:+ joinPrompts (q :: ps))
          with (p +:+ String " " (String "." (String " "
                  (joinPrompts (q :: ps))))).
        replace (p +:+ String " " (String "." (String " "
                   (joinPrompts (q :: ps)))))
          with ((p +:+ " ") +:+ String "." (String " "
                   (joinPrompts (q :: ps))))
          by (rewrite app_assoc_string; reflexivity).
        rewrite split_dot_app.
        2:{ rewrite allChars_app, Hd. reflexivity. }
        cbn [map]. rewrite (trim_padded_right p Ht).
        rewrite (split_join_tail q ps Hc'). reflexivity. }
    rewrite Hm. apply filter_clean, Hc.
  - intros Hdw Hnw.
    destruct (isBlank textPrompt) eqn:E.
    { apply isBlank_spec in E. rewrite E in Hnw. discriminate Hnw. }
    f_equal. pose proof (split_dot_blank textPrompt Hdw) as Hall.
    induction Hall as [| p ps Hp _ IH]; [reflexivity |].
    cbn [map]. rewrite filter_cons_False; [exact IH |].
    apply trim_blank in Hp. rewrite Hp. cbn. lia.
Qed.

Lemma parsePrompts_spec_witness :
  parsePrompts "car . person . dog" = inr ["car"; "person"; "dog"]
  /\ parsePrompts " . " = inr [].
Proof.
  destruct (parsePrompts_spec "car . person . dog") as (_ & _ & _ & Hj & _).
  destruct (parsePrompts_spec " . ") as (_ & _ & _ & _ & Hd).
  split.
  - apply Hj; [discriminate | | reflexivity].
    repeat constructor; discriminate.
  - apply Hd; reflexivity.
Defined.

(** ** The detector objects *)

Lemma call_detectorInv d c : detectorInv d -> detectorInv (call d c).
Proof.
  intros (H1 & H2 & H3).
  destruct c as [[h |] | e |];
    unfold detectorInv, call, loadONNXModel, setAPIEndpoint, reset; cbn.
  - repeat split; intros; congruence.
  - exact (conj H1 (conj H2 H3)).
  - repeat split; intros; congruence.
  - repeat split; intros; congruence.
Qed.

Lemma afterCalls_detectorInv cs : detectorInv (afterCalls cs).
Proof.
  unfold afterCalls.
  assert (H0 : detectorInv Detector.new).
  { unfold detectorInv; cbn. repeat split; intros; congruence. }
  revert H0. generalize Detector.new.
  induction cs as [| c cs IH]; intros d Hd; [exact Hd |].
  cbn. apply IH, call_detectorInv, Hd.
Qed.

(** X19.  After any sequence of [loadONNXModel], [setAPIEndpoint] and
    [reset] calls on a new detector, [isReady ()] holds exactly when
    [getMode ()] is not null; [detect] of [GroundingDINODetector] never
    throws "Unknown detection mode" nor the "Text prompt cannot be empty"
    of [parsePrompts], and [detect] of [YOLODetector] never throws "Unknown
    detection mode" nor the "Model not loaded" of [runONNXInference]. *)
Theorem detect_unreachable_errors (cs : list DetectorCall) :
  let d := afterCalls cs in
  (isReady d = true <-> getMode d <> None)
  /\ (forall iw ih textPrompt bt tt fetch,
        dinoDetect d iw ih textPrompt bt tt fetch <> inl UnknownMode
        /\ dinoDetect d iw ih textPrompt bt tt fetch <> inl PromptEmpty)
  /\ (forall A iw ih conf iou run (fetch : string -> Q -> Fetched (option (list A))),
        yoloDetect d iw ih conf iou run fetch <> inl UnknownMode
        /\ yoloDetect d iw ih conf iou run fetch <> inl ModelNotLoaded).
Proof.
  cbv zeta. destruct (afterCalls_detectorInv cs) as (H1 & H2 & H3).
  generalize dependent (afterCalls cs). intros d H1 H2 H3.
  split; [exact H1 |]. split.
  - intros iw ih textPrompt bt tt fetch. unfold dinoDetect.
    destruct (Detector.modelLoaded d) eqn:El; cbn [negb];
      [| split; discriminate].
    destruct (isBlank textPrompt) eqn:Eb; [split; discriminate |].
    destruct (Detector.mode d) as [[|] |] eqn:Em.
    + split; discriminate.
    + unfold dinoRunAPIInference, parsePrompts. rewrite Eb.
      destruct (endpointTruthy d); [| split; discriminate].
      destruct (fetch _); split; discriminate.
    + exfalso. apply (proj1 H1); reflexivity.
  - intros A iw ih conf iou run fetch. unfold yoloDetect.
    destruct (Detector.modelLoaded d) eqn:El; cbn [negb];
      [| split; discriminate].
    destruct (Detector.mode d) as [[|] |] eqn:Em.
    + unfold yoloRunONNXInference.
      destruct (Detector.session d) eqn:Es;
        [| exfalso; apply H3; reflexivity].
      destruct run as [[[nf nb] data] |]; split; discriminate.
    + unfold yoloRunAPIInference.
      destruct (endpointTruthy d); [| split; discriminate].
      destruct (fetch _ _); split; discriminate.
    + exfalso. apply (proj1 H1); reflexivity.
Qed.

Lemma dinoDetect_ok d iw ih textPrompt bt tt fetch cs :
  dinoDetect d iw ih textPrompt bt tt fetch = inr cs ->
  isBlank textPrompt = false
  /\ Detector.modelLoaded d = true
  /\ Detector.mode d = Some ApiMode
  /\ exists endpoint data,
       Detector.apiEndpoint d = Some endpoint /\ endpoint <> EmptyString
       /\ fetch (Request.mk endpoint textPrompt bt tt) = FetchOk data
       /\ cs = transformDetections data iw ih.
Proof.
  unfold dinoDetect.
  destruct (Detector.modelLoaded d); cbn [negb]; [| discriminate].
  destruct (isBlank textPrompt) eqn:Eb; [discriminate |].
  destruct (Detector.mode d) as [[|] |]; try discriminate.
  unfold dinoRunAPIInference, parsePrompts, endpointTruthy. rewrite Eb.
  destruct (Detector.apiEndpoint d) as [e |]; [| discriminate].
  destruct (String.eqb e EmptyString) eqn:Ee; [discriminate |].
  apply String.eqb_neq in Ee.
  destruct (fetch _) as [| status | data] eqn:Ef; try discriminate.
  intros H. injection H as <-.
  repeat split. exists e, data. repeat split; assumption.
Qed.

(** X20.  [detectBatch] never throws: it returns one result per image, in
    order and for that image.  A result with [success] carries no error and
    the candidates [transformDetections] makes, for the size of that image,
    of the response to a request sent to the configured, non-empty endpoint
    with the prompt as it was typed; a result without [success] carries an
    error and no detections.  On a detector that is not ready, or with a
    blank prompt, every result is a failure and no request is needed. *)
Theorem detectBatch_results (d : Detector.t) (images : list Image.t)
    (textPrompt : string) (bt tt : Q)
    (fetch : nat -> Request.t -> Fetched ApiResponse) :
  let results := detectBatch d images textPrompt bt tt fetch in
  length results = length images
  /\ forall i img, images !! i = Some img ->
       exists r,
         results !! i = Some r /\ BatchResult.image r = img
         /\ (BatchResult.success r = true ->
             BatchResult.error r = None
             /\ exists endpoint data,
                  Detector.apiEndpoint d = Some endpoint
                  /\ endpoint <> EmptyString
                  /\ fetch i (Request.mk endpoint textPrompt bt tt)
                     = FetchOk data
                  /\ BatchResult.detections r
                     = transformDetections data (Image.width img)
                         (Image.height img))
         /\ (BatchResult.success r = false ->
             BatchResult.detections r = [] /\ BatchResult.error r <> None)
         /\ (isReady d = false ->
             BatchResult.success r = false
             /\ BatchResult.error r = Some NoModelLoaded)
         /\ (isReady d = true -> isBlank textPrompt = true ->
             BatchResult.success r = false
             /\ BatchResult.error r = Some PromptRequired).
Proof.
  cbv zeta. unfold detectBatch. split; [apply length_imap |].
  intros i img Hi. rewrite list_lookup_imap, Hi. cbn [fmap option_fmap option_map].
  eexists. split; [reflexivity |].
  destruct (dinoDetect d (Image.width img) (Image.height img) textPrompt bt
              tt (fetch i)) as [e | cs] eqn:E; cbn.
  - split; [reflexivity |]. split; [discriminate |].
    split; [intros _; split; [reflexivity | discriminate] |].
    unfold dinoDetect, isReady in *. split.
    + intros Hr. rewrite Hr in E. cbn in E. injection E as <-.
      split; reflexivity.
    + intros Hr Hb. rewrite Hr, Hb in E. cbn in E. injection E as <-.
      split; reflexivity.
  - apply dinoDetect_ok in E as (Eb & El & Em & e & data & He & Hne & Hf & ->).
    split; [reflexivity |]. split.
    { intros _. split; [reflexivity |]. exists e, data. repeat split; assumption. }
    split; [discriminate |]. unfold isReady. split.
    + intros Hr. rewrite Hr in El. discriminate El.
    + intros _ Hb. rewrite Hb in Eb. discriminate Eb.
Qed.

Lemma detectBatch_results_witness :
  exists r,
    detectBatch (reset (setAPIEndpoint "http://localhost:8000/detect"
                          Detector.new))
      detectAllImages "car . person" (35 # 100) (25 # 100)
      (fun _ _ => FetchThrows) !! 1%nat = Some r
    /\ BatchResult.success r = false
    /\ BatchResult.error r = Some NoModelLoaded.
Proof.
  destruct (detectBatch_results
              (reset (setAPIEndpoint "http://localhost:8000/detect"
                        Detector.new))
              detectAllImages "car . person" (35 # 100) (25 # 100)
              (fun _ _ => FetchThrows)) as [_ H].
  destruct (detectAllImages !! 1%nat) as [img |] eqn:E; [| discriminate E].
  destruct (H 1%nat img E) as (r & Hr & _ & _ & _ & Hn & _).
  exists r. split; [exact Hr |]. apply Hn. reflexivity.
Defined.

(** ** COCO export *)

Lemma annotates_mono cats c a p :
  annotates cats a p -> annotates (cats ++ [c]) a p.
Proof.
  intros (H1 & H2 & H3 & H4 & H5 & H6). repeat split; try assumption.
  intros Hn. destruct (H5 Hn) as (k & Hk & Hc). exists k. split; [exact Hk |].
  apply lookup_app_l_Some. exact Hc.
Qed.

Lemma coco_step_inv idx r acc done :
  cocoInv acc done ->
  cocoInv (coco_region_step idx acc r) (done ++ [(idx, r)]).
Proof.
  intros (Hid & Hids & Hcats & Hmap & Hann).
  unfold coco_region_step, categoryLookup.
  destruct (CocoAcc.categoryMap acc !! Region.label r) as [n |] eqn:El.
  - (* the label has a category *)
    destruct (Hmap _ _ El) as (k & -> & Hk).
    destruct (Hcats _ _ Hk) as (_ & Hnp & _ & _). cbn in Hnp.
    unfold cocoInv. cbn.
    rewrite length_app, map_app, Hids, Hid. cbn.
    rewrite Nat.add_1_r. split; [reflexivity |].
    split; [rewrite seq_S; reflexivity |].
    split; [| split; [exact Hmap |]].
    + intros j c Hc. destruct (Hcats j c Hc) as (A & B & C & p & Hp & D).
      repeat split; try assumption. exists p. split; [| exact D].
      apply elem_of_app. left. exact Hp.
    + apply Forall2_app; [exact Hann |]. constructor; [| constructor].
      unfold annotates. cbn. rewrite Nat.add_1_r.
      repeat split; try reflexivity.
      * intros _. exists k. split; [reflexivity | exact Hk].
      * intros F. contradiction.
  - destruct (bool_decide (Region.label r ∈ objectPrototypeKeys)) eqn:Ep.
    + (* the label is an inherited property name *)
      apply bool_decide_eq_true in Ep.
      unfold cocoInv. cbn.
      rewrite length_app, map_app, Hids, Hid. cbn.
      rewrite Nat.add_1_r. split; [reflexivity |].
      split; [rewrite seq_S; reflexivity |].
      split; [| split; [exact Hmap |]].
      * intros j c Hc. destruct (Hcats j c Hc) as (A & B & C & p & Hp & D).
        repeat split; try assumption. exists p. split; [| exact D].
        apply elem_of_app. left. exact Hp.
      * apply Forall2_app; [exact Hann |]. constructor; [| constructor].
        unfold annotates. cbn. rewrite Nat.add_1_r.
        repeat split; try reflexivity.
        intros F. contradiction.
    + (* a new category *)
      apply bool_decide_eq_false in Ep.
      unfold cocoInv. cbn.
      rewrite length_app, map_app, Hids, Hid. cbn.
      rewrite !Nat.add_1_r. split; [reflexivity |].
      split; [rewrite seq_S; reflexivity |].
      split; [| split].
      * intros j c Hc. apply lookup_app_Some in Hc as [Hc | [Hj Hc]].
        -- destruct (Hcats j c Hc) as (A & B & C & p & Hp & D).
           split; [exact A |]. split; [exact B |]. split.
           ++ rewrite lookup_insert_ne; [exact C |].
              intros E. rewrite <- E in C. rewrite El in C. discriminate C.
           ++ exists p. split; [| exact D]. apply elem_of_app. left. exact Hp.
        -- apply list_lookup_singleton_Some in Hc as [Hj0 <-]. cbn.
           assert (j = length (CocoAcc.categories acc)) as -> by lia.
           split; [reflexivity |]. split; [exact Ep |]. split.
           ++ apply lookup_insert_eq.
           ++ exists (idx, r). split; [| reflexivity].
              apply elem_of_app. right. left.
      * intros l n Hl. destruct (decide (l = Region.label r)) as [-> | Hne].
        -- rewrite lookup_insert_eq in Hl. injection Hl as <-.
           exists (length (CocoAcc.categories acc)). split; [reflexivity |].
           rewrite lookup_app_r by lia. rewrite Nat.sub_diag. reflexivity.
        -- rewrite lookup_insert_ne in Hl by congruence.
           destruct (Hmap l n Hl) as (k & Hk & Hc). exists k.
           split; [exact Hk |]. apply lookup_app_l_Some. exact Hc.
      * apply Forall2_app.
        -- eapply Forall2_impl; [exact Hann |]. intros a p.
           apply annotates_mono.
        -- constructor; [| constructor]. unfold annotates. cbn.
           rewrite Nat.add_1_r. repeat split; try reflexivity.
           ++ intros _. exists (length (CocoAcc.categories acc)).
              split; [reflexivity |].
              rewrite lookup_app_r by lia. rewrite Nat.sub_diag. reflexivity.
           ++ intros F. contradiction.
Qed.

Lemma coco_fold_inv ps : forall acc done,
  cocoInv acc done ->
  cocoInv (foldl (fun a p => coco_region_step p.1 a p.2) acc ps) (done ++ ps).
Proof.
  induction ps as [| [idx r] ps IH]; intros acc done H.
  - rewrite app_nil_r. exact H.
  - cbn [foldl]. replace (done ++ (idx, r) :: ps)
      with ((done ++ [(idx, r)]) ++ ps) by (rewrite <- app_assoc; reflexivity).
    apply IH. apply coco_step_inv. exact H.
Qed.

Lemma coco_region_fold idx rs : forall acc,
  foldl (coco_region_step idx) acc rs
  = foldl (fun a p => coco_region_step p.1 a p.2) acc (map (pair idx) rs).
Proof.
  induction rs as [| r rs IH]; intros acc; [reflexivity |]. cbn. apply IH.
Qed.

Lemma coco_image_fold regions (ps : list (nat * Image.t)) : forall acc,
  foldl (coco_image_step regions) acc ps
  = foldl (fun a p => coco_region_step p.1 a p.2) acc
      (concat (map (fun p => map (pair p.1)
                                (regionsOf regions (Image.id p.2))) ps)).
Proof.
  induction ps as [| p ps IH]; intros acc; [reflexivity |].
  cbn [foldl map concat]. rewrite foldl_app, <- coco_region_fold. apply IH.
Qed.

Lemma exportedRegions_pairs images regions :
  exportedRegions images regions
  = concat (map (fun p => map (pair p.1) (regionsOf regions (Image.id p.2)))
              (imap pair images)).
Proof.
  unfold exportedRegions. f_equal.
  change (map ?f ?l) with (f <$> l). rewrite fmap_imap. reflexivity.
Qed.

Lemma exportToCOCO_inv images regions :
  exists acc,
    Coco.annotations (exportToCOCO images regions) = CocoAcc.annotations acc
    /\ Coco.categories (exportToCOCO images regions) = CocoAcc.categories acc
    /\ cocoInv acc (exportedRegions images regions).
Proof.
  eexists. split; [reflexivity |]. split; [reflexivity |].
  rewrite coco_image_fold, <- exportedRegions_pairs.
  apply (coco_fold_inv _ CocoAcc.init []).
  unfold cocoInv. cbn.
  split; [reflexivity |]. split; [reflexivity |].
  split; [| split; [| constructor]].
  - intros k c F. rewrite lookup_nil in F. discriminate F.
  - intros l n F. rewrite lookup_empty in F. discriminate F.
Qed.




(** ** The count of exported labels *)

Lemma sum_list_perm (l l' : list nat) : l ≡ₚ l' -> sum_list l = sum_list l'.
Proof. induction 1; cbn; lia. Qed.

Lemma total_insert (m : Regions) k l :
  m !! k = None ->
  totalRegionsAllImages (<[k := l]> m)
  = (length l + totalRegionsAllImages m)%nat.
Proof.
  intros H. unfold totalRegionsAllImages.
  rewrite (sum_list_perm _ (map (fun kv => length kv.2)
                              ((k, l) :: map_to_list m))).
  - reflexivity.
  - apply Permutation_map, map_to_list_insert, H.
Qed.

Lemma total_delete (m : Regions) k :
  totalRegionsAllImages m
  = (length (regionsOf m k) + totalRegionsAllImages (delete k m))%nat.
Proof.
  unfold regionsOf. destruct (m !! k) as [l |] eqn:E; cbn.
  - rewrite <- (insert_delete_id m k l E) at 1.
    apply total_insert. apply lookup_delete_eq.
  - rewrite delete_id by exact E. reflexivity.
Qed.

Lemma total_zero (m : Regions) :
  (forall k l, m !! k = Some l -> l = []) -> totalRegionsAllImages m = 0%nat.
Proof.
  intros H. unfold totalRegionsAllImages.
  assert (Hall : Forall (fun kv : string * list Region.t => kv.2 = [])
                   (map_to_list m)).
  { apply Forall_forall. intros [k l] Hkl.
    apply elem_of_map_to_list in Hkl. cbn. eapply H, Hkl. }
  induction Hall as [| kv rest Hkv _ IH]; [reflexivity |].
  cbn. rewrite Hkv, IH. reflexivity.
Qed.

Lemma exported_length images regions :
  length (exportedRegions images regions)
  = sum_list (map (fun img => length (regionsOf regions (Image.id img)))
                images).
Proof.
  unfold exportedRegions.
  assert (G : forall (g : nat -> nat),
             length (concat (imap (fun idx img =>
                        map (pair (g idx)) (regionsOf regions (Image.id img)))
                        images))
             = sum_list (map (fun img =>
                        length (regionsOf regions (Image.id img))) images)).
  { induction images as [| img images IH]; intros g; [reflexivity |].
    cbn [imap concat map sum_list]. rewrite length_app, length_map.
    f_equal. apply (IH (g ∘ S)). }
  apply (G id).
Qed.

Lemma lookup_removed (images : list Image.t) : forall (regions : Regions) k,
  foldl (fun m img => delete (Image.id img) m) regions images !! k
  = if decide (k ∈ map Image.id images) then None else regions !! k.
Proof.
  induction images as [| img images IH]; intros regions k.
  - cbn. destruct (decide (k ∈ [])) as [F | _]; [| reflexivity].
    inversion F.
  - cbn [foldl map]. rewrite IH.
    destruct (decide (k ∈ map Image.id images)) as [Hin | Hnin].
    + rewrite decide_True; [reflexivity | right; exact Hin].
    + destruct (decide (k = Image.id img)) as [-> | Hne].
      * rewrite lookup_delete_eq, decide_True; [reflexivity | left].
      * rewrite lookup_delete_ne by congruence.
        rewrite decide_False; [reflexivity |].
        intros F. apply elem_of_cons in F as [F | F]; contradiction.
Qed.

Lemma total_split (images : list Image.t) : forall regions : Regions,
  NoDup (map Image.id images) ->
  totalRegionsAllImages regions
  = (length (exportedRegions images regions)
     + totalRegionsAllImages
         (foldl (fun m img => delete (Image.id img) m) regions images))%nat.
Proof.
  intros regions. rewrite exported_length. revert regions.
  induction images as [| img images IH]; intros regions Hnd; [reflexivity |].
  cbn [map] in Hnd. apply NoDup_cons in Hnd as [Hnin Hnd].
  cbn [foldl map sum_list].
  rewrite (total_delete regions (Image.id img)), (IH _ Hnd).
  rewrite <- Nat.add_assoc. f_equal. f_equal. f_equal.
  apply map_ext_in. intros img' Hin. unfold regionsOf.
  rewrite lookup_delete_ne; [reflexivity |].
  intros E. apply Hnin. rewrite E.
  apply list_elem_of_In, in_map, Hin.
Qed.

Lemma exportToCOCO_length images regions :
  length (Coco.annotations (exportToCOCO images regions))
  = length (exportedRegions images regions).
Proof.
  destruct (exportToCOCO_inv images regions)
    as (acc & -> & _ & (_ & _ & _ & _ & Hann)).
  apply (Forall2_length _ _ _ Hann).
Qed.

(** X22.  For images with distinct identifiers, the count
    [totalRegionsAllImages], which [handleExport] tests and reports, is
    never below the number of annotations of the COCO export.  The two are
    equal when every non-empty entry of the region mapping belongs to a
    listed image, and the count is larger when some non-empty entry does
    not. *)
Theorem export_count (images : list Image.t) (regions : Regions) :
  NoDup (map Image.id images) ->
  let exported := length (Coco.annotations (exportToCOCO images regions)) in
  (exported <= totalRegionsAllImages regions)%nat
  /\ ((forall k l, regions !! k = Some l -> l <> [] ->
         k ∈ map Image.id images) ->
      exported = totalRegionsAllImages regions)
  /\ ((exists k l, regions !! k = Some l /\ l <> []
                   /\ (k ∉ map Image.id images)) ->
      (exported < totalRegionsAllImages regions)%nat).
Proof.
  intros Hnd. cbv zeta. rewrite exportToCOCO_length.
  pose proof (total_split images regions Hnd) as Hs.
  split; [lia |]. split.
  - intros Hcov. rewrite Hs, total_zero; [lia |].
    intros k l Hk. rewrite lookup_removed in Hk.
    destruct (decide (k ∈ map Image.id images)) as [Hin | Hnin];
      [discriminate |].
    destruct l as [| r l]; [reflexivity |]. exfalso. apply Hnin.
    apply (Hcov k (r :: l) Hk). discriminate.
  - intros (k & l & Hk & Hne & Hnin).
    set (rest := foldl (fun m img => delete (Image.id img) m) regions images)
      in *.
    assert (Hr : rest !! k = Some l).
    { unfold rest. rewrite lookup_removed, decide_False by exact Hnin.
      exact Hk. }
    assert (Hl : regionsOf rest k = l) by (unfold regionsOf; rewrite Hr; reflexivity).
    rewrite Hs, (total_delete rest k), Hl.
    destruct l as [| r l]; [contradiction |]. cbn [length]. lia.
Qed.

Lemma export_count_witness :
  length (Coco.annotations
            (exportToCOCO [Image.mk "a" "a.jpg" 800 500]
               (<["a" := [Region.mk 1 "car" (9 # 10) Auto 10 10 50 50]]> ∅)))
  = totalRegionsAllImages
      (<["a" := [Region.mk 1 "car" (9 # 10) Auto 10 10 50 50]]> ∅).
Proof.
  apply (export_count [Image.mk "a" "a.jpg" 800 500]).
  - apply NoDup_singleton.
  - intros k l Hk _. apply lookup_insert_Some in Hk as [[<- _] | [_ Hk]].
    + left.
    + rewrite lookup_empty in Hk. discriminate Hk.
Defined.

(** ** Invariants of the component *)

Lemma executeDetectAsync_same now response s :
  executeDetectAsync now response s s = executeDetect now response s.
Proof. reflexivity. Qed.

Lemma executeDetectAllAsync_same clock run s :
  executeDetectAllAsync clock run s s = executeDetectAll clock run s.
Proof. reflexivity. Qed.

Lemma js_slice_length_le {A} (l : list A) a b :
  (length (js_slice l a b) <= length l)%nat.
Proof.
  unfold js_slice. rewrite length_take, length_drop. lia.
Qed.

Lemma saveToHistory_histOk hs r :
  histOk hs -> histOk (saveToHistory hs r).
Proof.
  intros (Hlen & Hidx & Hemp). unfold saveToHistory, histOk.
  cbn [History.history History.historyIndex].
  set (pre := js_slice (History.history hs) 0 (History.historyIndex hs + 1)).
  assert (Hpre : (length pre <= 50)%nat).
  { pose proof (js_slice_length_le (History.history hs) 0
                  (History.historyIndex hs + 1)). unfold pre. lia. }
  destruct (Nat.ltb_spec 50 (length (pre ++ [r]))) as [Hlt | Hle].
  - rewrite length_app in Hlt. cbn in Hlt.
    destruct pre as [| a pre]; [cbn in Hlt; lia |].
    cbn [app tail]. rewrite length_app. cbn in *.
    split; [lia |]. split; [lia |]. split; [lia |].
    intros F. destruct pre; discriminate F.
  - rewrite length_app in *. cbn in *.
    split; [lia |]. split; [lia |]. split; [lia |].
    intros F. destruct pre; discriminate F.
Qed.

Lemma handleUndo_histOk s : histOk (App.hist s) -> histOk (App.hist (handleUndo s)).
Proof.
  intros (Hlen & Hidx & Hemp). unfold handleUndo.
  destruct (Z.ltb_spec 0 (History.historyIndex (App.hist s))) as [Hpos | _];
    [| exact (conj Hlen (conj Hidx Hemp))].
  assert (H' : histOk (History.mk (History.history (App.hist s))
                         (History.historyIndex (App.hist s) - 1))).
  { unfold histOk. cbn. split; [exact Hlen |]. split; [lia |].
    split; [lia |]. intros F. rewrite F in Hidx. cbn in Hidx. lia. }
  destruct (_ !! _); exact H'.
Qed.

Lemma handleRedo_histOk s : histOk (App.hist s) -> histOk (App.hist (handleRedo s)).
Proof.
  intros (Hlen & Hidx & Hemp). unfold handleRedo.
  destruct (Z.ltb_spec (History.historyIndex (App.hist s))
              (Z.of_nat (length (History.history (App.hist s))) - 1))
    as [Hlt | _]; [| exact (conj Hlen (conj Hidx Hemp))].
  assert (H' : histOk (History.mk (History.history (App.hist s))
                         (History.historyIndex (App.hist s) + 1))).
  { unfold histOk. cbn. split; [exact Hlen |]. split; [lia |].
    split; [lia |]. intros F. rewrite F in Hlt. cbn in Hlt. lia. }
  destruct (_ <? 0)%Z; [exact H' |]. destruct (_ !! _); exact H'.
Qed.

Lemma updateRegions_histOk fn s :
  histOk (App.hist s) -> histOk (App.hist (updateRegions fn s)).
Proof.
  intros H. unfold updateRegions. destruct (currentImage s); [| exact H].
  apply saveToHistory_histOk, H.
Qed.

Lemma updateRegions_selected fn s :
  App.selectedRegions (updateRegions fn s) = App.selectedRegions s.
Proof. unfold updateRegions. destruct (currentImage s); reflexivity. Qed.

Lemma handleCanvasMouseUp_histOk now s :
  histOk (App.hist s) -> histOk (App.hist (handleCanvasMouseUp now s)).
Proof.
  intros H. unfold handleCanvasMouseUp.
  destruct (Drag.isDragging (App.drag s)),
    (Resize.isResizing (App.resize s)); app_simpl;
    try (apply saveToHistory_histOk, H).
  destruct (Draw.isDrawing (App.draw s)), (Draw.drawStart (App.draw s)),
    (Draw.drawCurrent (App.draw s)), (currentImage s); try exact H.
  destruct (drawnRegion _ _ _ _ _); [| exact H].
  apply saveToHistory_histOk, H.
Qed.

Lemma handleCanvasMouseUp_selected now s :
  NoDup (App.selectedRegions s) ->
  NoDup (App.selectedRegions (handleCanvasMouseUp now s)).
Proof.
  intros H. unfold handleCanvasMouseUp.
  destruct (Drag.isDragging (App.drag s)),
    (Resize.isResizing (App.resize s)); app_simpl;
    (destruct (Draw.isDrawing (App.draw s)), (Draw.drawStart (App.draw s)),
       (Draw.drawCurrent (App.draw s)), (currentImage s); try exact H;
     destruct (drawnRegion _ _ _ _ _); [apply NoDup_singleton | exact H]).
Qed.

Lemma mouseMove_selected c s :
  App.selectedRegions (handleCanvasMouseMove c s) = App.selectedRegions s.
Proof.
  unfold handleCanvasMouseMove.
  repeat match goal with
         | |- context [match ?x with _ => _ end] => destruct x
         end; reflexivity.
Qed.

Lemma step_histOk s ev : histOk (App.hist s) -> histOk (App.hist (step s ev)).
Proof.
  intros H. destruct ev; cbn [step].
  - apply handleUndo_histOk, H.
  - apply handleRedo_histOk, H.
  - unfold handleApprove. destruct (0 <? _)%nat; [| exact H].
    apply updateRegions_histOk, H.
  - unfold handleFlag. destruct (0 <? _)%nat; [| exact H].
    apply updateRegions_histOk, H.
  - unfold handleDelete. destruct (0 <? _)%nat; [| exact H].
    apply updateRegions_histOk, H.
  - unfold handleBulkChangeLabel. destruct (0 <? _)%nat; [| exact H].
    apply updateRegions_histOk, H.
  - unfold handleSelectRegion.
    destruct (App.annotationMode s), (Modifiers.shiftKey e),
      (App.lastSelectedIndex s), (Modifiers.metaKey e || Modifiers.ctrlKey e);
      exact H.
  - unfold handleCanvasMouseDown. destruct (currentImage s); [| exact H].
    destruct (App.annotationMode s); try exact H;
      destruct (js_find _ _); exact H.
  - rewrite mouseMove_hist. exact H.
  - apply handleCanvasMouseUp_histOk, H.
  - unfold handleDragStart.
    destruct (App.annotationMode s), (currentImage s); try exact H.
    destruct (js_find _ _); exact H.
  - unfold handleResizeStart. destruct (currentImage s); exact H.
  - unfold executeClearCurrentDetections.
    destruct (currentImage s); [| exact H]. apply saveToHistory_histOk, H.
  - unfold handleDeleteImage. cbn. destruct (_ && _); exact H.
  - unfold handleSaveLabel. destruct (idTruthy _); [| exact H].
    apply updateRegions_histOk, H.
  - unfold handleFileSelect. destruct newImages; exact H.
  - unfold selectImage. destruct (_ <? _)%nat; exact H.
  - exact H.
Qed.

Lemma step_selected s ev :
  NoDup (App.selectedRegions s) -> NoDup (App.selectedRegions (step s ev)).
Proof.
  intros H. destruct ev; cbn [step].
  - unfold handleUndo. destruct (0 <? _)%Z; [| exact H].
    destruct (_ !! _); exact H.
  - unfold handleRedo. destruct (_ <? _)%Z; [| exact H].
    destruct (_ <? 0)%Z; [exact H |]. destruct (_ !! _); exact H.
  - unfold handleApprove. destruct (0 <? _)%nat; [| exact H]. constructor.
  - unfold handleFlag. destruct (0 <? _)%nat; [| exact H].
    app_simpl. rewrite updateRegions_selected. exact H.
  - unfold handleDelete. destruct (0 <? _)%nat; [| exact H]. constructor.
  - unfold handleBulkChangeLabel. destruct (0 <? _)%nat; [| exact H].
    constructor.
  - unfold handleSelectRegion.
    destruct (App.annotationMode s); try exact H;
      (destruct (Modifiers.shiftKey e), (App.lastSelectedIndex s);
       [apply js_set_list_spec | | |]);
      (destruct (Modifiers.metaKey e || Modifiers.ctrlKey e);
       [| apply NoDup_singleton]);
      app_simpl;
      (destruct (bool_decide (id ∈ App.selectedRegions s)) eqn:E;
       [apply NoDup_filter, H |
        apply bool_decide_eq_false in E; apply NoDup_app;
        split; [exact H |]; split; [| apply NoDup_singleton];
        intros x Hx Hx'; apply list_elem_of_singleton in Hx'; subst x;
        contradiction]).
  - unfold handleCanvasMouseDown. destruct (currentImage s); [| exact H].
    destruct (App.annotationMode s); try constructor;
      destruct (js_find _ _); first [exact H | constructor].
  - rewrite mouseMove_selected. exact H.
  - apply handleCanvasMouseUp_selected, H.
  - unfold handleDragStart.
    destruct (App.annotationMode s), (currentImage s); try exact H.
    destruct (js_find _ _); [apply NoDup_singleton | exact H].
  - unfold handleResizeStart.
    destruct (currentImage s); [apply NoDup_singleton | exact H].
  - unfold executeClearCurrentDetections.
    destruct (currentImage s); [constructor | exact H].
  - unfold handleDeleteImage. cbn. constructor.
  - unfold handleSaveLabel. destruct (idTruthy _); [| exact H].
    cbn. rewrite updateRegions_selected. exact H.
  - unfold handleFileSelect. destruct newImages; exact H.
  - unfold selectImage. destruct (_ <? _)%nat; [constructor | exact H].
  - exact H.
Qed.

Lemma reachable_inv s :
  Reachable s -> histOk (App.hist s) /\ NoDup (App.selectedRegions s).
Proof.
  induction 1 as [| s ev _ [Hh Hs] | now response s0 s _ [Hh0 _] _ [Hh Hs]
                  | clock run s0 s _ [Hh0 _] _ [Hh Hs]].
  - split; [| constructor]. unfold histOk. cbn. split; [lia |].
    split; [lia |]. tauto.
  - split; [apply step_histOk, Hh | apply step_selected, Hs].
  - unfold executeDetectAsync.
    destruct (currentImage s0), response; app_simpl;
      (split; [first [apply saveToHistory_histOk, Hh0 | exact Hh] | exact Hs]).
  - unfold executeDetectAllAsync. app_simpl.
    split; [apply saveToHistory_histOk, Hh0 | exact Hs].
Qed.

(** X23.  In every state the component reaches by the handlers of its
    pointer, button and thumbnail events, in any order, and by detections
    that write their result after other events have been handled, the
    history stack holds at most 50 entries, the pointer is on one of them
    (or is -1 on the empty stack), and the selection holds no identifier
    twice.  So undo and redo never read a missing entry: when the pointer
    is not at the bottom, undo shows the entry below it, and when it is not
    on top, redo shows the entry above it. *)
Theorem reachable_invariants (s : App.t) :
  Reachable s ->
  let hs := App.hist s in
  (length (History.history hs) <= 50)%nat
  /\ (-1 <= History.historyIndex hs < Z.of_nat (length (History.history hs)))%Z
  /\ (History.historyIndex hs = (-1)%Z <-> History.history hs = [])
  /\ NoDup (App.selectedRegions s)
  /\ ((0 < History.historyIndex hs)%Z ->
      exists snap,
        History.history hs !! Z.to_nat (History.historyIndex hs - 1)
        = Some snap
        /\ App.regions (handleUndo s) = snap
        /\ App.toast (handleUndo s) = Some ToastUndo)
  /\ ((History.historyIndex hs
       < Z.of_nat (length (History.history hs)) - 1)%Z ->
      exists snap,
        History.history hs !! Z.to_nat (History.historyIndex hs + 1)
        = Some snap
        /\ App.regions (handleRedo s) = snap
        /\ App.toast (handleRedo s) = Some ToastRedo).
Proof.
  intros Hr. cbv zeta.
  destruct (reachable_inv s Hr) as [(Hlen & Hidx & Hemp) Hs].
  split; [exact Hlen |]. split; [exact Hidx |]. split; [exact Hemp |].
  split; [exact Hs |]. split.
  - intros Hpos.
    destruct (lookup_lt_is_Some_2 (History.history (App.hist s))
                (Z.to_nat (History.historyIndex (App.hist s) - 1)))
      as [snap Hsnap]; [lia |].
    exists snap. split; [exact Hsnap |]. unfold handleUndo.
    destruct (Z.ltb_spec 0 (History.historyIndex (App.hist s))); [| lia].
    rewrite Hsnap. split; reflexivity.
  - intros Hlt.
    destruct (lookup_lt_is_Some_2 (History.history (App.hist s))
                (Z.to_nat (History.historyIndex (App.hist s) + 1)))
      as [snap Hsnap]; [lia |].
    exists snap. split; [exact Hsnap |]. unfold handleRedo.
    destruct (Z.ltb_spec (History.historyIndex (App.hist s))
                (Z.of_nat (length (History.history (App.hist s))) - 1));
      [| lia].
    destruct (Z.ltb_spec (History.historyIndex (App.hist s) + 1) 0); [lia |].
    rewrite Hsnap. split; reflexivity.
Qed.

Lemma reachable_invariants_witness :
  NoDup (App.selectedRegions
           (step (step App.init (EvSelectRegion 7 Modifiers.ctrl 0))
              (EvSelectRegion 7 Modifiers.shift 0))).
Proof.
  apply (reachable_invariants
           (step (step App.init (EvSelectRegion 7 Modifiers.ctrl 0))
              (EvSelectRegion 7 Modifiers.shift 0))).
  apply ReachStep, ReachStep, ReachInit.
Defined.

(** ** Identifiers of detected regions *)

(** X25.  The callbacks that build the regions of a response read
    [Date.now()] once per detection.  With a clock that stands still while
    a response is mapped, the runs are those of [executeDetect] and
    [executeDetectAll] with one time per response.  [executeDetect] gives
    the region at position [i] the identifier [Date.now() + i]; when the
    clock does not go back, the identifiers of the response are distinct,
    and a clock that is set back by one millisecond between two detections
    gives both the same identifier.  In an all-images run over images with
    distinct identifiers, the region at position [i] of the [k]-th image
    (counted from 1) has the identifier [Date.now() + i + k * 10000] and the
    status "auto"; when the clock does not go back and no response holds
    more than 10000 detections, no two regions written by the run have the
    same identifier. *)
Theorem detected_ids_distinct (clock : nat -> nat -> Z)
    (runDetection : nat -> Image.t -> option (list RawDet.t)) (s : App.t) :
  (forall now response,
     executeDetectTimed (fun _ => now) response s
     = executeDetect now response s)
  /\ (forall clock1,
        executeDetectAllTimed (fun k _ => clock1 k) runDetection s
        = executeDetectAll clock1 runDetection s)
  /\ (forall clock0 dets img i r, currentImage s = Some img ->
        regionsOf (App.regions (executeDetectTimed clock0 (Some dets) s))
          (Image.id img) !! i = Some r ->
        Region.id r = (clock0 i + Z.of_nat i)%Z)
  /\ (forall clock0 dets img, currentImage s = Some img ->
        (forall a b, (a <= b)%nat -> (clock0 a <= clock0 b)%Z) ->
        NoDup (map Region.id
                 (regionsOf
                    (App.regions (executeDetectTimed clock0 (Some dets) s))
                    (Image.id img))))
  /\ (forall det, map Region.id (imap (detToRegionAt steppedBackClock 0)
                                   [det; det])
                  = [1001%Z; 1001%Z])
  /\ (NoDup (map Image.id (App.images s)) ->
      let s' := executeDetectAllTimed clock runDetection s in
      (forall k img i r,
         App.images s !! k = Some img ->
         is_Some (runDetection (S k) img) ->
         regionsOf (App.regions s') (Image.id img) !! i = Some r ->
         Region.id r
         = (clock (S k) i + Z.of_nat i + Z.of_nat (S k) * 10000)%Z
         /\ Region.status r = Auto)
      /\ (clockAdvances clock ->
          (forall k img dets, runDetection k img = Some dets ->
             (Z.of_nat (length dets) <= 10000)%Z) ->
          forall k1 k2 img1 img2 i1 i2 r1 r2,
            App.images s !! k1 = Some img1 ->
            App.images s !! k2 = Some img2 ->
            is_Some (runDetection (S k1) img1) ->
            is_Some (runDetection (S k2) img2) ->
            regionsOf (App.regions s') (Image.id img1) !! i1 = Some r1 ->
            regionsOf (App.regions s') (Image.id img2) !! i2 = Some r2 ->
            Region.id r1 = Region.id r2 -> k1 = k2 /\ i1 = i2)).
Proof.
  assert (Hone : forall clock0 dets img, currentImage s = Some img ->
            regionsOf (App.regions (executeDetectTimed clock0 (Some dets) s))
              (Image.id img)
            = imap (detToRegionAt clock0 0) dets).
  { intros clock0 dets img Hc. unfold executeDetectTimed. rewrite Hc.
    app_simpl. apply regionsOf_insert. }
  split.
  { intros now response. unfold executeDetectTimed, executeDetect.
    destruct (currentImage s) as [img |]; [| reflexivity].
    destruct response as [dets |]; [| reflexivity]. cbv zeta.
    assert (E : imap (detToRegionAt (fun _ => now) 0) dets
                = imap (detToRegion now) dets).
    { apply imap_ext. intros i x _. rewrite detToRegionAt_const.
      f_equal. lia. }
    rewrite E. reflexivity. }
  split.
  { intros clock1. unfold executeDetectAllTimed, executeDetectAll.
    rewrite detectAllTimed_fold_const. reflexivity. }
  split.
  { intros clock0 dets img i r Hc Hr. rewrite (Hone _ _ _ Hc) in Hr.
    apply detToRegionAt_lookup in Hr as (E & _). lia. }
  split.
  { intros clock0 dets img Hc Hmono. rewrite (Hone _ _ _ Hc).
    apply NoDup_alt. intros i j x Hi Hj.
    change (map ?f ?l) with (f <$> l) in Hi, Hj.
    rewrite list_lookup_fmap in Hi, Hj.
    destruct (imap _ dets !! i) as [ri |] eqn:Ei; [| discriminate].
    destruct (imap _ dets !! j) as [rj |] eqn:Ej; [| discriminate].
    apply detToRegionAt_lookup in Ei as (Ei & _).
    apply detToRegionAt_lookup in Ej as (Ej & _).
    cbn in Hi, Hj. injection Hi as Hi. injection Hj as Hj.
    destruct (Nat.lt_trichotomy i j) as [Hlt | [E | Hgt]]; [| exact E |].
    - pose proof (Hmono i j ltac:(lia)). lia.
    - pose proof (Hmono j i ltac:(lia)). lia. }
  split; [intros det; reflexivity |].
  intros Hnd. cbv zeta.
  assert (Hreg : forall k img i r,
            App.images s !! k = Some img ->
            is_Some (runDetection (S k) img) ->
            regionsOf (App.regions (executeDetectAllTimed clock runDetection s))
              (Image.id img) !! i = Some r ->
            Region.id r
            = (clock (S k) i + Z.of_nat i + Z.of_nat (S k) * 10000)%Z
            /\ Region.status r = Auto
            /\ exists dets, runDetection (S k) img = Some dets
                            /\ (i < length dets)%nat).
  { intros k img i r Hk [dets Hd] Hr. unfold regionsOf in Hr.
    rewrite (detectAllTimed_lookup clock runDetection s Hnd k img Hk) in Hr.
    unfold requestOutcomeTimed in Hr. rewrite Hd in Hr. cbn in Hr.
    apply detToRegionAt_lookup in Hr as (A & B & C).
    split; [exact A |]. split; [exact B |]. exists dets. split; assumption. }
  split.
  { intros k img i r Hk Hs Hr.
    destruct (Hreg k img i r Hk Hs Hr) as (A & B & _). split; assumption. }
  intros Hmono Hsize k1 k2 img1 img2 i1 i2 r1 r2 Hk1 Hk2 Hs1 Hs2 Hr1 Hr2 E.
  destruct (Hreg k1 img1 i1 r1 Hk1 Hs1 Hr1) as (E1 & _ & d1 & Hd1 & Hl1).
  destruct (Hreg k2 img2 i2 r2 Hk2 Hs2 Hr2) as (E2 & _ & d2 & Hd2 & Hl2).
  pose proof (Hsize _ _ _ Hd1) as Hn1. pose proof (Hsize _ _ _ Hd2) as Hn2.
  rewrite E1, E2 in E.
  destruct (Nat.lt_trichotomy k1 k2) as [Hlt | [-> | Hgt]].
  - pose proof (Hmono (S k1) i1 (S k2) i2 ltac:(left; lia)). lia.
  - split; [reflexivity |].
    destruct (Nat.lt_trichotomy i1 i2) as [Hlt | [Ei | Hgt]]; [| exact Ei |].
    + pose proof (Hmono (S k2) i1 (S k2) i2 ltac:(right; split; lia)). lia.
    + pose proof (Hmono (S k2) i2 (S k2) i1 ltac:(right; split; lia)). lia.
  - pose proof (Hmono (S k2) i2 (S k1) i1 ltac:(left; lia)). lia.
Qed.

Lemma detected_ids_distinct_witness :
  exists r,
    regionsOf
      (App.regions (executeDetectAllTimed (fun _ _ => 1000%Z) detectAllService
                      detectAllScenario)) "img_3" !! 0%nat = Some r
    /\ Region.id r = 31000%Z /\ Region.status r = Auto.
Proof.
  destruct (detected_ids_distinct (fun _ _ => 1000%Z) detectAllService
              detectAllScenario) as (_ & _ & _ & _ & _ & H).
  destruct H as [Hid _].
  - repeat (apply NoDup_cons; split;
            [rewrite ?elem_of_cons, ?elem_of_nil;
             intros F; repeat destruct F as [F | F]; discriminate || exact F |]).
    apply NoDup_nil_2.
  - eexists. split; [vm_compute; reflexivity |].
    apply (Hid 2%nat (Image.mk "img_3" "c.png" 1000 500) 0%nat);
      [reflexivity | eexists; reflexivity | vm_compute; reflexivity].
Defined.

(** ** Sensitivity presets *)

Lemma presetValue_range key v :
  Threshold.min v <= Threshold.max v ->
  Threshold.min v <= presetValue key v <= Threshold.max v.
Proof. intros H. unfold presetValue. split; qminmax. Qed.

Lemma presetValue_inside key v :
  Threshold.min v <= Threshold.default v * multiplier key <= Threshold.max v ->
  presetValue key v == Threshold.default v * multiplier key.
Proof. intros [H1 H2]. unfold presetValue. qminmax. Qed.

Lemma presetValue_mono k1 k2 v :
  0 <= Threshold.default v -> multiplier k1 <= multiplier k2 ->
  presetValue k1 v <= presetValue k2 v.
Proof.
  intros Hd Hm. unfold presetValue.
  assert (Threshold.default v * multiplier k1
          <= Threshold.default v * multiplier k2) by nra.
  qminmax.
Qed.

(** X26.  [applySensitivityPreset] stores the chosen preset and, for a
    model with thresholds, one value per threshold under the same name.
    Each value lies in the range of its threshold when that range is not
    empty, is the default times the multiplier of the preset when that lies
    in the range, and for a non-negative default does not decrease from
    "loose" over "balanced" to "strict".  For every model of
    [MODEL_CONFIGS], every preset keeps every threshold in its range, and
    "balanced" gives the defaults. *)
Theorem applySensitivityPreset_range (key : Preset)
    (thresholds : list (string * Threshold.t))
    (cells : Preset * list (string * Q)) :
  let cells' := applySensitivityPreset key (Some thresholds) cells in
  cells'.1 = key
  /\ map fst cells'.2 = map fst thresholds
  /\ (forall i name v, thresholds !! i = Some (name, v) ->
        exists q,
          cells'.2 !! i = Some (name, q)
          /\ (Threshold.min v <= Threshold.max v ->
              Threshold.min v <= q <= Threshold.max v)
          /\ (Threshold.min v <= Threshold.default v * multiplier key
                <= Threshold.max v ->
              q == Threshold.default v * multiplier key)
          /\ (0 <= Threshold.default v ->
              presetValue Loose v <= presetValue Balanced v
              /\ presetValue Balanced v <= presetValue Strict v))
  /\ (forall model ths name v,
        (model, ths) ∈ MODEL_CONFIGS -> (name, v) ∈ ths ->
        Threshold.min v <= presetValue key v <= Threshold.max v
        /\ presetValue Balanced v == Threshold.default v)
  /\ applySensitivityPreset key None cells = (key, cells.2).
Proof.
  cbv zeta. unfold applySensitivityPreset. cbn [fst snd].
  split; [reflexivity |]. split.
  { rewrite map_map. reflexivity. }
  split; [| split; [| reflexivity]].
  - intros i name v Hi. exists (presetValue key v). split.
    + change (map ?f ?l) with (f <$> l). rewrite list_lookup_fmap, Hi.
      reflexivity.
    + split; [apply presetValue_range |].
      split; [apply presetValue_inside |].
      intros Hd. split; apply presetValue_mono; try exact Hd;
        cbn; unfold Qle; cbn; lia.
  - intros model ths name v Hm Hv.
    assert (Hok : Threshold.min v <= Threshold.default v
                  /\ Threshold.default v <= Threshold.max v).
    { unfold MODEL_CONFIGS, yoloThresholds, dinoThresholds in Hm.
      repeat (apply elem_of_cons in Hm as [Hm | Hm];
              [injection Hm as -> ->;
               repeat (apply elem_of_cons in Hv as [Hv | Hv];
                       [injection Hv as -> ->; cbn; split; unfold Qle; cbn; lia |]);
               inversion Hv |]).
      inversion Hm. }
    split.
    + apply presetValue_range. lra.
    + rewrite presetValue_inside; cbn [multiplier]; [ring | lra].
Qed.

Lemma applySensitivityPreset_range_witness :
  exists q,
    (applySensitivityPreset Strict (Some dinoThresholds) (Balanced, [])).2
      !! 0%nat = Some ("box", q)
    /\ (1 # 10) <= q <= (9 # 10).
Proof.
  destruct (applySensitivityPreset_range Strict dinoThresholds (Balanced, []))
    as (_ & _ & H & _).
  destruct (H 0%nat "box" (Threshold.mk (35 # 100) (1 # 10) (9 # 10)) eq_refl)
    as (q & Hq & Hr & _).
  exists q. split; [exact Hq |]. apply Hr. cbn. lra.
Defined.
